(** * Beamforming core of the ultrasound sandbox: a shallow embedding

    The TypeScript sources under [packages/core/src] are embedded module by
    module.  JavaScript numbers are idealised as real numbers: every
    arithmetic operation is exact, and NaN and the infinities do not exist,
    except where the code itself produces [-Infinity] or reads [undefined];
    those places are modelled explicitly ([xreal], [jsnum]).  Element,
    sample and scan-line counts are natural numbers.

    The code computes with binary64 numbers.  Its signs, zeros, copies and
    comparisons are those of the exact embedding as long as no operation
    overflows or divides by zero; theorems that rest on this are stated for
    configurations of ordinary size ([ordinaryProfile], [ordinaryDynamic]).
    Where the code leaves that range, [Doubles] embeds it over binary64
    numbers and evaluates it. *)

From Stdlib Require Import Reals Lra Lia List String Ascii ZArith Bool.
From Stdlib Require Import Decimal DecimalString DecimalN.
From Stdlib Require Import Sorted.
From Stdlib Require Floats.
Import ListNotations.

Local Open Scope R_scope.

(** ** Runtime helpers shared by the modules *)

Module Js.

(** A number that may also be [-Infinity]: the value of [Math.max()] with
    no argument and of the explicit [-Infinity] literals. *)
Inductive xreal : Type :=
| NegInfinity
| Finite (r : R).

Definition xmax (a : xreal) (v : R) : xreal :=
  match a with
  | NegInfinity => Finite v
  | Finite m => Finite (Rmax m v)
  end.

(** [Math.max(...l)] *)
Definition Math_max (l : list R) : xreal := fold_left xmax l NegInfinity.

(** [Math.log10] *)
Definition log10 (x : R) : R := ln x / ln 10.

(** [a[i] = v] on an array; the index is always in range where the
    embedded code uses it (JavaScript would extend the array otherwise). *)
Fixpoint upd (l : list R) (i : nat) (v : R) : list R :=
  match l, i with
  | [], _ => []
  | _ :: t, O => v :: t
  | h :: t, S i' => h :: upd t i' v
  end.

(** [x ?? d] *)
Definition orElse {A : Type} (x : option A) (d : A) : A :=
  match x with
  | Some v => v
  | None => d
  end.

End Js.

(** ** beamforming/profile/types.ts *)

Module Types.

(** [ProfileConfig].  The type is shared by the numeric code, where
    [elements] is an array size and the other fields are reals, and by the
    CSV layer, where every numeric field is just a value that is printed
    and read back; hence the two parameters. *)
Record ProfileConfig (count number : Type) : Type := mkProfileConfig {
  elements : count;
  spacing : number;
  spacingUnit : string;
  frequencyHz : number;
  waveSpeed : number;
  steerAngleDeg : number;
  windowType : string;
  chebyshevSidelobeDb : option number;
  focusDepth : option number;
  customWeights : option (list number)
}.

Arguments mkProfileConfig {count number}.
Arguments elements {count number}.
Arguments spacing {count number}.
Arguments spacingUnit {count number}.
Arguments frequencyHz {count number}.
Arguments waveSpeed {count number}.
Arguments steerAngleDeg {count number}.
Arguments windowType {count number}.
Arguments chebyshevSidelobeDb {count number}.
Arguments focusDepth {count number}.
Arguments customWeights {count number}.

Record PerElementDelays (number : Type) : Type := mkDelays {
  timeDelays : list number;
  phaseRadians : list number
}.

Arguments mkDelays {number}.
Arguments timeDelays {number}.
Arguments phaseRadians {number}.

Record PatternPoint : Type := mkPoint {
  angleDeg : R;
  intensityLin : R;
  intensityDb : Js.xreal
}.

Record ProfileSnapshot (number : Type) : Type := mkSnapshot {
  weights : list number;
  delays : PerElementDelays number
}.

Arguments mkSnapshot {number}.
Arguments weights {number}.
Arguments delays {number}.

Record BeamformFullProfile (count number : Type) : Type := mkFullProfile {
  config : ProfileConfig count number;
  snapshot : ProfileSnapshot number;
  pattern : list PatternPoint
}.

Arguments mkFullProfile {count number}.
Arguments config {count number}.
Arguments snapshot {count number}.
Arguments pattern {count number}.

End Types.

(** ** beamforming/profile/windows.ts *)

Module Windows.
Import Js.

Definition rectangularWindow (N : nat) : list R :=
  map (fun _ => 1) (seq 0 N).

Definition hammingWindow (N : nat) : list R :=
  if (N <=? 1)%nat then [1]
  else
    let a0 := 0.54 in
    let a1 := 1 - a0 in
    let M := (N - 1)%nat in
    map (fun n => a0 - a1 * cos ((2 * PI * INR n) / INR M)) (seq 0 N).

Definition triangularWindow (N : nat) : list R :=
  if (N <=? 1)%nat then [1]
  else
    let M := (N - 1)%nat in
    map (fun n => 1 - Rabs ((INR n - INR M / 2) / (INR M / 2))) (seq 0 N).

(** The local [acosh] of [chebyshevWindow]. *)
Definition acosh (z : R) : R := ln (z + sqrt (z * z - 1)).

(** The local [Tm] of [chebyshevWindow]: the Chebyshev polynomial of
    degree [M]. *)
Definition Tm (M : nat) (x : R) : R :=
  let tol := 1e-15 in
  if Rle_dec (Rabs x) (1 + 1e-12) then
    let xc := Rmax (-1) (Rmin 1 x) in
    cos (INR M * acos xc)
  else
    let ax := Rmax (1 + tol) (Rabs x) in
    let base := cosh (INR M * acosh ax) in
    if Rlt_dec x 0 then (if Nat.odd M then - base else base) else base.

(** The inverse real cosine transform: the body of the loop over [n]. *)
Definition idctSample (N : nat) (Y : list R) (n : nat) : R :=
  let half := (N / 2)%nat in
  let s0 := nth 0 Y 0 in
  let s1 :=
    fold_left
      (fun s k => s + 2 * nth k Y 0 * cos ((2 * PI * INR k * INR n) / INR N))
      (seq 1 (half - 1)) s0 in
  let s2 :=
    if Nat.even N then s1 + nth half Y 0 * cos (PI * INR n) else s1 in
  s2 / INR N.

(** The final loop of [chebyshevWindow]: mirrored pairs are replaced by
    their average, in place. *)
Definition symmetrize (N : nat) (wc : list R) : list R :=
  fold_left
    (fun wc i =>
       let j := (N - 1 - i)%nat in
       let avg := 0.5 * (nth i wc 0 + nth j wc 0) in
       upd (upd wc j avg) i avg)
    (seq 0 (N / 2)) wc.

Definition chebyshevWindow (N : nat) (sidelobeDb : R) : list R :=
  if (N <=? 1)%nat then [1]
  else
    let M := (N - 1)%nat in
    let A := Rpower 10 (sidelobeDb / 20) in
    (* [!isFinite(A)] never holds for a real number *)
    if Rle_dec A 1 then repeat 1 N
    else
      let beta := cosh (acosh A / INR M) in
      let TMbeta := cosh (INR M * acosh beta) in
      let Y :=
        map (fun k => Tm M (beta * cos (PI * INR k / INR N)) / TMbeta)
            (seq 0 N) in
      let w := map (idctSample N Y) (seq 0 N) in
      let inv :=
        match Math_max (map Rabs w) with
        | Finite maxVal => if Rlt_dec 0 maxVal then 1 / maxVal else 1
        | NegInfinity => 1
        end in
      let w := map (fun v => v * inv) w in
      let w := map (fun v => if Rlt_dec v 0 then 0 else v) w in
      let shift := (N / 2)%nat in
      let wc := map (fun i => nth ((i + shift) mod N) w 0) (seq 0 N) in
      symmetrize N wc.

Definition makeWindow (type : string) (N : nat) (chebDb : R) : list R :=
  if String.eqb type "rectangular" then rectangularWindow N
  else if String.eqb type "hamming" then hammingWindow N
  else if String.eqb type "triangular" then triangularWindow N
  else if String.eqb type "chebyshev" then chebyshevWindow N chebDb
  else rectangularWindow N.

End Windows.

(** ** beamforming/profile/beamforming.ts *)

Module Beamforming.
Import Js Types Windows.

Definition Config : Type := ProfileConfig nat R.

Definition spacingMeters (cfg : Config) : R :=
  let lambda := waveSpeed cfg / frequencyHz cfg in
  if String.eqb (spacingUnit cfg) "wavelength"
  then spacing cfg * lambda
  else spacing cfg.

(** The closing step of [computeWeights]: division by the largest
    absolute value, when that is positive. *)
Definition normalizeMax (w : list R) : list R :=
  match Math_max (map Rabs w) with
  | Finite maxVal =>
      if Rlt_dec 0 maxVal then map (fun v => v / maxVal) w else w
  | NegInfinity => w
  end.

Definition computeWeights (cfg : Config) : list R :=
  let N := elements cfg in
  let w :=
    if String.eqb (windowType cfg) "custom" then
      match customWeights cfg with
      | Some cw =>
          if (List.length cw =? N)%nat then cw
          else makeWindow "hamming" N (orElse (chebyshevSidelobeDb cfg) 30)
      | None => makeWindow "hamming" N (orElse (chebyshevSidelobeDb cfg) 30)
      end
    else makeWindow (windowType cfg) N (orElse (chebyshevSidelobeDb cfg) 30)
  in
  normalizeMax w.

Definition computeDelays (cfg : Config) : PerElementDelays R :=
  let N := elements cfg in
  let d := spacingMeters cfg in
  let c := waveSpeed cfg in
  let theta0 := (steerAngleDeg cfg * PI) / 180 in
  let center := (INR N - 1) / 2 in
  let angleOnly :=
    let tau := fun i : nat =>
      let x := (INR i - center) * d in
      (x * sin theta0) / c in
    mkDelays (map tau (seq 0 N))
             (map (fun i => 2 * PI * frequencyHz cfg * tau i) (seq 0 N)) in
  match focusDepth cfg with
  | None => angleOnly
  | Some focusDepth =>
      if Req_dec_T focusDepth 0 then angleOnly
      else
        let xF := focusDepth * sin theta0 in
        let zF := focusDepth * cos theta0 in
        let rRef := sqrt ((0 - xF) * (0 - xF) + zF * zF) in
        let tau := fun i : nat =>
          let x := (INR i - center) * d in
          let r := sqrt ((x - xF) * (x - xF) + zF * zF) in
          (r - rRef) / c in
        mkDelays (map tau (seq 0 N))
                 (map (fun i => 2 * PI * frequencyHz cfg * tau i) (seq 0 N))
  end.

Definition computeProfile (cfg : Config) : ProfileSnapshot R :=
  mkSnapshot (computeWeights cfg) (computeDelays cfg).

(** The body of the loop over the sweep angles in [computePattern]:
    the intensity [re*re + im*im] of the array factor at [ang]. *)
Definition rawIntensity (cfg : Config) (ang : R) : R :=
  let N := elements cfg in
  let w := computeWeights cfg in
  let d := spacingMeters cfg in
  let lambda := waveSpeed cfg / frequencyHz cfg in
  let kd := (2 * PI / lambda) * d in
  let c := (INR N - 1) / 2 in
  let s0 := sin ((steerAngleDeg cfg * PI) / 180) in
  let s := sin ((ang * PI) / 180) in
  let '(re, im) :=
    fold_left
      (fun (acc : R * R) i =>
         let psi := (INR i - c) * kd * (s - s0) in
         (fst acc + nth i w 0 * cos psi, snd acc + nth i w 0 * sin psi))
      (seq 0 N) (0, 0) in
  re * re + im * im.

Definition computePattern (cfg : Config) (anglesDeg : list R)
    (normalized : bool) : list PatternPoint :=
  let raw := map (fun ang => (ang, rawIntensity cfg ang)) anglesDeg in
  let maxI :=
    fold_left (fun maxI p => if Rlt_dec maxI (snd p) then snd p else maxI)
              raw 0 in
  map (fun p : R * R =>
         let lin :=
           if normalized
           then (if Rlt_dec 0 maxI then snd p / maxI else 0)
           else snd p in
         let db :=
           if Rlt_dec 0 lin then Finite (10 * log10 lin) else NegInfinity in
         mkPoint (fst p) lin db)
      raw.

(** [Number(a.toFixed(6))]: the nearest multiple of [1e-6], a tie going
    away from zero; from [1e21] on, [toFixed] prints the number itself. *)
Definition toFixed6 (a : R) : R :=
  if Rle_dec 1e21 (Rabs a) then a
  else if Rlt_dec a 0
       then - (IZR (Int_part (- a * 1e6 + / 2)) / 1e6)
       else IZR (Int_part (a * 1e6 + / 2)) / 1e6.

(** The [for] loop of [defaultAngles], from the current [a] on.  The loop
    need not end: [fuel] bounds the number of tests of its condition, and
    [None] says that the bound was reached. *)
Fixpoint defaultAnglesLoop (fuel : nat) (a end_ step : R) : option (list R) :=
  match fuel with
  | O => None
  | S fuel' =>
      if Rle_dec a (end_ + 1e-9)
      then option_map (cons (toFixed6 a))
                      (defaultAnglesLoop fuel' (a + step) end_ step)
      else Some []
  end.

(** [defaultAngles(start, end, step)]; the defaults are -90, 90 and 0.25. *)
Definition defaultAngles (fuel : nat) (start end_ step : R)
  : option (list R) :=
  defaultAnglesLoop fuel start end_ step.

End Beamforming.

(** ** pattern-stats.ts *)

Module PatternStats.
Import Js Types.

Record PatternStats : Type := mkStats {
  pslDb : option xreal;
  pslLin : option R;
  islrDb : option R;
  fwhmDeg : option R;
  mainLobeArea : option R;
  totalArea : option R
}.

(** The object [{ pslDb: null, pslLin: null, islrDb: null, fwhmDeg: null }]
    of the two early returns; the optional areas are absent. *)
Definition allNull : PatternStats := mkStats None None None None None None.

(** Array reads at an integer index that the code keeps in range. *)
Definition at_ (l : list R) (i : Z) : R := nth (Z.to_nat i) l 0.

Definition geb (a b : R) : bool := if Rge_dec a b then true else false.
Definition leb (a b : R) : bool := if Rle_dec a b then true else false.
Definition ltb (a b : R) : bool := if Rlt_dec a b then true else false.
Definition gtb (a b : R) : bool := if Rgt_dec a b then true else false.
Definition eqb (a b : R) : bool := if Req_dec_T a b then true else false.

Definition trapezoidalIntegrate (x y : list R) : R :=
  if negb (List.length x =? List.length y)%nat || (List.length x =? 0)%nat
  then 0
  else
    fold_left
      (fun s i =>
         let dx := nth (i + 1) x 0 - nth i x 0 in
         s + 0.5 * (nth i y 0 + nth (i + 1) y 0) * dx)
      (seq 0 (List.length x - 1)) 0.

(** [Array.prototype.sort] with the comparator [a.angleDeg - b.angleDeg]:
    a stable ascending sort, here by insertion. *)
Fixpoint insertByAngle (p : PatternPoint) (l : list PatternPoint)
  : list PatternPoint :=
  match l with
  | [] => [p]
  | q :: t =>
      if Rle_dec (angleDeg p) (angleDeg q) then p :: q :: t
      else q :: insertByAngle p t
  end.

Fixpoint sortByAngle (l : list PatternPoint) : list PatternPoint :=
  match l with
  | [] => []
  | p :: t => insertByAngle p (sortByAngle t)
  end.

(** The loop that finds the index of the first largest value. *)
Definition findPeakIdx (vals : list R) : nat :=
  fold_left
    (fun peakIdx i => if Rgt_dec (nth i vals 0) (nth peakIdx vals 0)
                      then i else peakIdx)
    (seq 1 (List.length vals - 1)) 0%nat.

(** The [while] loop of [findCross]; it makes at most [length vals] steps. *)
Fixpoint findCrossLoop (vals : list R) (half : R) (dir : Z) (fuel : nat)
    (i : Z) : Z :=
  match fuel with
  | O => i
  | S fuel' =>
      if (0 <=? i + dir)%Z && (i + dir <? Z.of_nat (List.length vals))%Z
         && geb (at_ vals i) half
      then findCrossLoop vals half dir fuel' (i + dir)%Z
      else i
  end.

Definition findCross (angles vals : list R) (half : R) (start : Z) (dir : Z)
  : R :=
  let i := findCrossLoop vals half dir (List.length vals) start in
  let j := i in
  let k := (i - dir)%Z in
  if (k <? 0)%Z || (Z.of_nat (List.length vals) <=? k)%Z then at_ angles j
  else
    let xk := at_ angles k in
    let xj := at_ angles j in
    let yk := at_ vals k in
    let yj := at_ vals j in
    if eqb yk yj then xk
    else
      let t := (half - yk) / (yj - yk) in
      xk + t * (xj - xk).

(** The [while] loop of [findNull]; it makes at most [length vals] steps,
    after which [i] has left the open index range. *)
Fixpoint findNullLoop (angles vals : list R) (dir : Z) (fuel : nat) (i : Z)
  : option R :=
  match fuel with
  | O => None
  | S fuel' =>
      if (0 <? i)%Z && (i <? Z.of_nat (List.length vals) - 1)%Z then
        if leb (at_ vals i) (at_ vals (i - 1))
           && leb (at_ vals i) (at_ vals (i + 1))
        then Some (at_ angles i)
        else findNullLoop angles vals dir fuel' (i + dir)%Z
      else None
  end.

Definition findNull (angles vals : list R) (startIdx : Z) (dir : Z)
  : option R :=
  findNullLoop angles vals dir (List.length vals) (startIdx + dir)%Z.

Definition computePatternStats (pointsIn : list PatternPoint) : PatternStats :=
  match pointsIn with
  | [] => allNull
  | _ :: _ =>
    let pts := sortByAngle pointsIn in
    let angles := map angleDeg pts in
    (* [Number.isFinite(p.intensityLin)] holds of every real number *)
    let vals := map intensityLin pts in
    let len := List.length vals in
    let peakIdx := findPeakIdx vals in
    (* [vals[peakIdx] || 0] *)
    let peakVal := nth peakIdx vals 0 in
    if eqb peakVal 0 then allNull
    else
      let half := peakVal * 0.5 in
      let pk := Z.of_nat peakIdx in
      let '(leftCross, rightCross) :=
        if geb (nth peakIdx vals 0) half then
          let nullLeft := findNull angles vals pk (-1) in
          let nullRight := findNull angles vals pk 1 in
          let fallback :=
            ((if (peakIdx =? 0)%nat then nth 0 angles 0
              else findCross angles vals half pk (-1)),
             (if (peakIdx =? len - 1)%nat then nth (len - 1) angles 0
              else findCross angles vals half pk 1)) in
          match nullLeft, nullRight with
          | Some nl, Some nr =>
              if ltb nl (nth peakIdx angles 0) && gtb nr (nth peakIdx angles 0)
              then (nl, nr)
              else fallback
          | _, _ => fallback
          end
        else (nth 0 angles 0, nth (len - 1) angles 0) in
      (* both crossings are finite *)
      let fwhm := Some (Rmax 0 (rightCross - leftCross)) in
      let mainMask :=
        map (fun a => geb a (leftCross - 1e-12) && leb a (rightCross + 1e-12))
            angles in
      let inMain i := nth i mainMask false in
      let mainIdx := filter inMain (seq 0 len) in
      let mainAngles := map (fun i => nth i angles 0) mainIdx in
      let mainVals := map (fun i => nth i vals 0) mainIdx in
      let totalArea := trapezoidalIntegrate angles vals in
      let mainArea := trapezoidalIntegrate mainAngles mainVals in
      let maxSidelobe :=
        fold_left
          (fun m i => if negb (inMain i) && gtb (nth i vals 0) m
                      then nth i vals 0 else m)
          (seq 0 len) 0 in
      let pslLin := if gtb maxSidelobe 0 then maxSidelobe else 0 in
      let pslDb :=
        if gtb pslLin 0 then Some (Finite (10 * log10 (pslLin / peakVal)))
        else if eqb pslLin 0 then Some NegInfinity else None in
      let islrDb :=
        if gtb mainArea 0 then
          let ratio := Rmax 0 (totalArea - mainArea) / mainArea in
          (* [ratio || Number.EPSILON] *)
          Some (10 * log10 (if eqb ratio 0 then / 2 ^ 52 else ratio))
        else None in
      mkStats pslDb (Some pslLin) islrDb fwhm (Some mainArea) (Some totalArea)
  end.

End PatternStats.

(** ** beamforming/dynamic: types.ts, util.ts, the beamformers, the
       point-source generators and runner.ts *)

Module Dynamic.
Import Js.

Inductive ScanType : Type := linear | phased.

Record ScanningConfig : Type := mkScanning {
  numScanLines : nat;
  type : ScanType;
  range : R * R;
  samples : nat
}.

Record ArrayConfig : Type := mkArray {
  elements : nat;
  elementSpacing : R
}.

Record DynamicBeamformingConfig : Type := mkDynamicConfig {
  timeStep : R;
  propagationSpeed : R;
  scanning : ScanningConfig;
  array : ArrayConfig
}.

(** Matrix with shape [samples][elements]. *)
Definition SampleMatrix : Type := list (list R).

(** A value computed from array reads: a number, or the NaN that arithmetic
    makes of an [undefined] read outside an array. *)
Inductive jsnum : Type :=
| Num (r : R)
| NaN.

Definition jadd (a b : jsnum) : jsnum :=
  match a, b with
  | Num x, Num y => Num (x + y)
  | _, _ => NaN
  end.

Definition jmul (a b : jsnum) : jsnum :=
  match a, b with
  | Num x, Num y => Num (x * y)
  | _, _ => NaN
  end.

(** [row[e]], as seen by the arithmetic that consumes it. *)
Definition read (row : list R) (e : nat) : jsnum :=
  match nth_error row e with
  | Some v => Num v
  | None => NaN
  end.

Definition ScanlineVector : Type := list jsnum.

(** A call either returns or throws the [TypeError] of a property read on
    [undefined]. *)
Inductive outcome (A : Type) : Type :=
| Returns (a : A)
| TypeError.

Arguments Returns {A}.
Arguments TypeError {A}.

(** Runs the iterations of a loop in order; the first throw ends it. *)
Fixpoint forEach {A B : Type} (f : A -> outcome B) (l : list A)
  : outcome (list B) :=
  match l with
  | [] => Returns []
  | a :: t =>
      match f a with
      | TypeError => TypeError
      | Returns b =>
          match forEach f t with
          | TypeError => TypeError
          | Returns bs => Returns (b :: bs)
          end
      end
  end.

Definition DynamicBeamformer : Type :=
  SampleMatrix -> nat -> DynamicBeamformingConfig -> outcome ScanlineVector.

Definition ScanlineGenerator : Type :=
  nat -> DynamicBeamformingConfig -> SampleMatrix.

Definition elementPositionMeters (index : nat) (array : ArrayConfig) : R :=
  let center := (INR (elements array) - 1) / 2 in
  (INR index - center) * elementSpacing array.

(** util.ts *)
Definition scanlineParam (cfg : DynamicBeamformingConfig) (scanlineIndex : nat)
  : R :=
  let numScanLines := numScanLines (scanning cfg) in
  let '(minVal, maxVal) := range (scanning cfg) in
  if (numScanLines <=? 1)%nat then (minVal + maxVal) / 2
  else
    let t := INR scanlineIndex / (INR numScanLines - 1) in
    minVal + t * (maxVal - minVal).

(** beamformers/sum.ts *)
Definition createSumBeamformer : DynamicBeamformer :=
  fun matrix _scanlineIndex cfg =>
    let samples := samples (scanning cfg) in
    let elements := elements (array cfg) in
    forEach
      (fun s =>
         match nth_error matrix s with
         | Some row =>
             Returns (fold_left (fun acc e => jadd acc (read row e))
                                (seq 0 elements) (Num 0))
         | None =>
             (* [row] is [undefined]: the first [row[e]] throws *)
             if (elements =? 0)%nat then Returns (Num 0) else TypeError
         end)
      (seq 0 samples).

(** [sampleRowLinear], defined identically in delay-sum.ts and in
    delay-sum-apodized.ts. *)
Definition sampleRowLinear (matrix : SampleMatrix) (elementIndex : nat)
    (sampleIndex : R) : jsnum :=
  let s0 := Int_part sampleIndex in
  let frac := sampleIndex - IZR s0 in
  let s1 := (s0 + 1)%Z in
  let len := Z.of_nat (List.length matrix) in
  if (s0 <? 0)%Z || (len <=? s0)%Z then Num 0
  else
    let row0 := read (nth (Z.to_nat s0) matrix []) elementIndex in
    if Rle_dec frac 1e-12 then row0
    else if (s1 <? 0)%Z || (len <=? s1)%Z then row0
    else
      let row1 := read (nth (Z.to_nat s1) matrix []) elementIndex in
      jadd (jmul row0 (Num (1 - frac))) (jmul row1 (Num frac)).

(** The per-element fractional sample shifts of the two delay-and-sum
    beamformers. *)
Definition shifts (cfg : DynamicBeamformingConfig) (scanlineIndex : nat)
  : list R :=
  let dt := timeStep cfg in
  let c := propagationSpeed cfg in
  let thetaDeg := scanlineParam cfg scanlineIndex in
  let theta := (thetaDeg * PI) / 180 in
  let sinTheta := sin theta in
  map (fun e =>
         let x := elementPositionMeters e (array cfg) in
         let tau := (x * sinTheta) / c in
         - tau / dt)
      (seq 0 (elements (array cfg))).

(** beamformers/delay-sum.ts *)
Definition createDelayAndSumBeamformer : DynamicBeamformer :=
  fun matrix scanlineIndex cfg =>
    let samples := samples (scanning cfg) in
    let elements := elements (array cfg) in
    match type (scanning cfg) with
    | linear =>
        (* logs an error, then falls back to the simple sum *)
        forEach
          (fun s =>
             match nth_error matrix s with
             | Some row =>
                 Returns (fold_left (fun acc e => jadd acc (read row e))
                                    (seq 0 elements) (Num 0))
             | None =>
                 if (elements =? 0)%nat then Returns (Num 0) else TypeError
             end)
          (seq 0 samples)
    | phased =>
        let shifts := shifts cfg scanlineIndex in
        Returns
          (map (fun s =>
                  fold_left
                    (fun acc e =>
                       let idx := INR s + nth e shifts 0 in
                       jadd acc (sampleRowLinear matrix e idx))
                    (seq 0 elements) (Num 0))
               (seq 0 samples))
    end.

(** beamformers/delay-sum-apodized.ts *)
Module ApodizedOptions.

Record t : Type := mk {
  windowType : option string;
  chebyshevSidelobeDb : option R
}.

(** The default argument [opts = {}]. *)
Definition empty : t := mk None None.

End ApodizedOptions.

Definition createDelayAndSumApodizedBeamformer (opts : ApodizedOptions.t)
  : DynamicBeamformer :=
  let windowType := orElse (ApodizedOptions.windowType opts) "hamming"%string in
  let cheb := orElse (ApodizedOptions.chebyshevSidelobeDb opts) 30 in
  fun matrix scanlineIndex cfg =>
    let samples := samples (scanning cfg) in
    let elements := elements (array cfg) in
    match type (scanning cfg) with
    | linear =>
        (* logs an error, then falls back to the apodized sum without delay *)
        let w := Windows.makeWindow windowType elements cheb in
        forEach
          (fun s =>
             match nth_error matrix s with
             | Some row =>
                 Returns (fold_left
                            (fun acc e => jadd acc (jmul (read row e) (read w e)))
                            (seq 0 elements) (Num 0))
             | None =>
                 if (elements =? 0)%nat then Returns (Num 0) else TypeError
             end)
          (seq 0 samples)
    | phased =>
        let weights := Windows.makeWindow windowType elements cheb in
        let shifts := shifts cfg scanlineIndex in
        Returns
          (map (fun s =>
                  fold_left
                    (fun acc e =>
                       let idx := INR s + nth e shifts 0 in
                       jadd acc (jmul (read weights e)
                                      (sampleRowLinear matrix e idx)))
                    (seq 0 elements) (Num 0))
               (seq 0 samples))
    end.

Record PointSourceGeneratorConfig : Type := mkPointSource {
  offset : R;
  speed : R;
  frequencyHz : R;
  amplitude : option R;
  phase0 : option R
}.

(** The point-source generator that ignores the transmit delay and doubles
    the one-way time of flight. *)
Module ReceiveOnly.

Definition createPointSourceGenerator (config : PointSourceGeneratorConfig)
  : ScanlineGenerator :=
  let amplitude := orElse (amplitude config) 1 in
  let phase0 := orElse (phase0 config) 0 in
  fun _scanlineIndex cfg =>
    let samples := samples (scanning cfg) in
    let elements := elements (array cfg) in
    let dt := timeStep cfg in
    let c := propagationSpeed cfg in
    let isPhased :=
      match type (scanning cfg) with phased => true | linear => false end in
    let thetaRad := if isPhased then (offset config * PI) / 180 else 0 in
    let z0 := 1e-3 in
    let xOffset := if isPhased then 0 else offset config in
    map (fun s =>
           let t := INR s * dt in
           let z := z0 + speed config * t in
           let xCenter := if isPhased then z * tan thetaRad else xOffset in
           map (fun e =>
                  let xElem := elementPositionMeters e (array cfg) in
                  let r := sqrt ((xElem - xCenter) * (xElem - xCenter) + z * z) in
                  let tau := r / c in
                  let omega := 2 * PI * frequencyHz config in
                  let phase := omega * (t - 2 * tau) + phase0 in
                  amplitude * cos phase)
               (seq 0 elements))
        (seq 0 samples).

End ReceiveOnly.

(** The point-source generator with an explicit transmit path from the
    array centre and a per-element receive path. *)
Module TransmitReceive.

Definition createPointSourceGenerator (config : PointSourceGeneratorConfig)
  : ScanlineGenerator :=
  let amplitude := orElse (amplitude config) 1 in
  let phase0 := orElse (phase0 config) 0 in
  fun _scanlineIndex cfg =>
    let samples := samples (scanning cfg) in
    let elements := elements (array cfg) in
    let dt := timeStep cfg in
    let c := propagationSpeed cfg in
    let isPhased :=
      match type (scanning cfg) with phased => true | linear => false end in
    let thetaRad := if isPhased then (offset config * PI) / 180 else 0 in
    let z0 := 1e-3 in
    let xOffset := if isPhased then 0 else offset config in
    map (fun s =>
           let t := INR s * dt in
           let z := z0 + speed config * t in
           let xCenter := if isPhased then z * tan thetaRad else xOffset in
           let rTx := sqrt (xCenter * xCenter + z * z) in
           let tauTx := rTx / c in
           let omega := 2 * PI * frequencyHz config in
           map (fun e =>
                  let xElem := elementPositionMeters e (array cfg) in
                  let rRx :=
                    sqrt ((xElem - xCenter) * (xElem - xCenter) + z * z) in
                  let tauRx := rRx / c in
                  let phase := omega * (t - (tauTx + tauRx)) + phase0 in
                  amplitude * cos phase)
               (seq 0 elements))
        (seq 0 samples).

End TransmitReceive.

(** runner.ts *)
Record FrameResult : Type := mkFrame {
  beamformed : list ScanlineVector;
  scanParams : list R
}.

Definition runFrame (cfg : DynamicBeamformingConfig)
    (generator : ScanlineGenerator) (beamformer : DynamicBeamformer)
  : outcome FrameResult :=
  let L := numScanLines (scanning cfg) in
  match
    forEach (fun i => beamformer (generator i cfg) i cfg) (seq 0 L)
  with
  | TypeError => TypeError
  | Returns out =>
      Returns (mkFrame out (map (scanlineParam cfg) (seq 0 L)))
  end.

End Dynamic.

(** ** beamforming/profile/csv.ts *)

Module Csv.
Import Types.

Local Open Scope string_scope.

(** What the CSV layer uses of JavaScript numbers: printing in a template
    literal, reading with [Number(str)], array indices and lengths as
    numbers, and [===]. *)
Class JsNumber (number : Type) : Type := {
  toString : number -> string;
  Number : string -> number;
  ofNat : nat -> number;
  strictEq : number -> number -> bool
}.

(** ECMAScript white space and line terminators, among the code units
    below 256 that a [string] holds: TAB, LF, VT, FF, CR, SP and NBSP. *)
Definition isSpace (c : ascii) : bool :=
  let n := nat_of_ascii c in
  ((9 <=? n) && (n <=? 13) || (n =? 32) || (n =? 160))%nat.

Definition LF : ascii := ascii_of_nat 10.
Definition CR : ascii := ascii_of_nat 13.

Fixpoint trimStart (s : string) : string :=
  match s with
  | "" => ""
  | String c r => if isSpace c then trimStart r else s
  end.

Fixpoint trimEnd (s : string) : string :=
  match s with
  | "" => ""
  | String c r =>
      let r' := trimEnd r in
      if isSpace c && (r' =? "") then "" else String c r'
  end.

(** [String.prototype.trim] *)
Definition trim (s : string) : string := trimEnd (trimStart s).

(** [s.split(sep)] for a one-character separator. *)
Fixpoint split (sep : ascii) (s : string) : list string :=
  match s with
  | "" => [""]
  | String c r =>
      if Ascii.eqb c sep then "" :: split sep r
      else
        match split sep r with
        | h :: t => String c h :: t
        | [] => [String c ""]
        end
  end.

(** [csv.split(/\r?\n/)] *)
Fixpoint splitLines (s : string) : list string :=
  match s with
  | "" => [""]
  | String c r =>
      let continue_ :=
        match splitLines r with
        | h :: t => String c h :: t
        | [] => [String c ""]
        end in
      if Ascii.eqb c LF then "" :: splitLines r
      else if Ascii.eqb c CR then
        match r with
        | String c' r' => if Ascii.eqb c' LF then "" :: splitLines r'
                          else continue_
        | "" => continue_
        end
      else continue_
  end.

(** [ls.join(sep)] *)
Definition join (sep : string) (ls : list string) : string :=
  String.concat sep ls.

(** [s.startsWith(p)] *)
Definition startsWith (s p : string) : bool := String.prefix p s.

Definition dataHeader : string := "index,weight,phaseRadians,timeDelaySeconds".

Section WithNumbers.
Context {number : Type} {JN : JsNumber number}.

(** [`${x ?? ""}`] *)
Definition showOptional (x : option number) : string :=
  match x with
  | Some v => toString v
  | None => ""
  end.

(** [`${a[i]}`]: a read outside the array prints as "undefined". *)
Definition showAt (a : list number) (i : nat) : string :=
  match nth_error a i with
  | Some v => toString v
  | None => "undefined"
  end.

Definition toCsvHeaderLines (config : ProfileConfig number number)
  : list string :=
  [ "# BeamformerConfig";
    "elements," ++ toString (elements config);
    "spacing," ++ toString (spacing config);
    "spacingUnit," ++ spacingUnit config;
    "frequencyHz," ++ toString (frequencyHz config);
    "waveSpeed," ++ toString (waveSpeed config);
    "steerAngleDeg," ++ toString (steerAngleDeg config);
    "windowType," ++ windowType config;
    "focusDepth," ++ showOptional (focusDepth config);
    "chebyshevSidelobeDb," ++ showOptional (chebyshevSidelobeDb config);
    "customWeights," ++ match customWeights config with
                        | Some _ => "present"
                        | None => ""
                        end;
    "";
    dataHeader ].

Definition toCsvRow (delays : PerElementDelays number) (i : nat) (w : number)
  : string :=
  let phi := showAt (phaseRadians delays) i in
  let tau := showAt (timeDelays delays) i in
  toString (ofNat i) ++ "," ++ toString w ++ "," ++ phi ++ "," ++ tau.

Definition toCsv (result : BeamformFullProfile number number) : string :=
  let config := config result in
  let profile := snapshot result in
  let header := join (String LF "") (toCsvHeaderLines config) in
  let rows :=
    map (fun iw => toCsvRow (delays profile) (fst iw) (snd iw))
        (combine (seq 0 (List.length (weights profile))) (weights profile)) in
  header ++ String LF "" ++ join (String LF "") rows ++ String LF "".

(** The [Map<string, string>] of [parseCsvConfig]: the latest [set] of a
    key is the one [get] finds. *)
Definition StrMap : Type := list (string * string).

Definition mapSet (m : StrMap) (k v : string) : StrMap := (k, v) :: m.

Fixpoint mapGet (m : StrMap) (k : string) : option string :=
  match m with
  | [] => None
  | (k', v) :: t => if k' =? k then Some v else mapGet t k
  end.

(** The first loop of [parseCsvConfig], from line [i] on: the key-value map
    and [dataStart] ([None] for the initial [-1]). *)
Fixpoint scanHeader (lines : list string) (i : nat) (map : StrMap)
  : StrMap * option nat :=
  match lines with
  | [] => (map, None)
  | line :: rest =>
      let L := trim line in
      if L =? "" then scanHeader rest (S i) map
      else if startsWith L "#" then scanHeader rest (S i) map
      else if startsWith L dataHeader then (map, Some (S i))
      else
        let parts := split "," L in
        if (2 <=? List.length parts)%nat
        then scanHeader rest (S i)
               (mapSet map (hd "" parts) (join "," (tl parts)))
        else scanHeader rest (S i) map
  end.

(** The second loop of [parseCsvConfig], over the lines from [dataStart]. *)
Fixpoint scanRows (lines : list string) : list number :=
  match lines with
  | [] => []
  | line :: rest =>
      let L := trim line in
      if L =? "" then scanRows rest
      else
        match firstn 4 (split "," L) with
        | _idxStr :: wStr :: _ => Number wStr :: scanRows rest
        | _ => scanRows rest
        end
  end.

Record Parsed : Type := mkParsed {
  parsedConfig : ProfileConfig number number;
  parsedWeights : list number
}.

(** The result of [parseCsvConfig]: a value, or the thrown [Error] with its
    message. *)
Inductive parseResult : Type :=
| Ok (r : Parsed)
| Throw (message : string).

(** [str ? Number(str) : undefined] *)
Definition numberIfPresent (str : option string) : option number :=
  match str with
  | Some s => if s =? "" then None else Some (Number s)
  | None => None
  end.

(** [Number(str ?? d)] for a numeric default [d]. *)
Definition numberOr (str : option string) (d : nat) : number :=
  match str with
  | Some s => Number s
  | None => ofNat d
  end.

Definition parseCsvConfig (csv : string) : parseResult :=
  let lines := splitLines csv in
  match scanHeader lines 0 [] with
  | (_, None) => Throw "CSV missing data header row."
  | (map, Some dataStart) =>
      let elements := numberOr (mapGet map "elements") 0 in
      let spacing := numberOr (mapGet map "spacing") 0 in
      let spacingUnit := Js.orElse (mapGet map "spacingUnit") "wavelength" in
      let frequencyHz := numberOr (mapGet map "frequencyHz") 1 in
      let waveSpeed := numberOr (mapGet map "waveSpeed") 1540 in
      let steerAngleDeg := numberOr (mapGet map "steerAngleDeg") 0 in
      let windowType := Js.orElse (mapGet map "windowType") "rectangular" in
      let focusDepth := numberIfPresent (mapGet map "focusDepth") in
      let chebyshevSidelobeDb :=
        numberIfPresent (mapGet map "chebyshevSidelobeDb") in
      let weights := scanRows (skipn dataStart lines) in
      let config :=
        mkProfileConfig elements spacing spacingUnit frequencyHz waveSpeed
          steerAngleDeg windowType chebyshevSidelobeDb focusDepth
          (if strictEq (ofNat (List.length weights)) elements
           then Some weights else None) in
      Ok (mkParsed config weights)
  end.

End WithNumbers.

(** The binary natural numbers with their decimal notation: an instance of
    [JsNumber] on which the CSV functions run. *)
#[export] Instance decimalNumber : JsNumber N := {|
  toString := fun n => NilZero.string_of_uint (N.to_uint n);
  Number := fun s =>
    match NilZero.uint_of_string s with
    | Some d => N.of_uint d
    | None => 0%N
    end;
  ofNat := N.of_nat;
  strictEq := N.eqb
|}.

End Csv.

(** * beamforming/profile/beamforming.ts over binary64 numbers

    [computeDelays] with the arithmetic of the code: IEEE 754 binary64
    operations, as the kernel evaluates them.  It is used where the exact
    embedding and the code part ways: on overflow. *)

Module Doubles.
Import Types.
Import Floats.PrimFloat.
Local Open Scope float_scope.
#[local] Set Warnings "-inexact-float".

(** [Math.PI] *)
Definition Math_PI : float := 0x1.921fb54442d18p+1.

(** An array length or index as a number. *)
Definition ofNat (n : nat) : float := of_uint63 (Uint63.of_Z (Z.of_nat n)).

(** ECMAScript leaves the accuracy of [Math.sin] and [Math.cos] to the
    implementation and fixes their values at zero: [Math.sin(+0)] is [+0]
    and [Math.cos(+0)] is 1. *)
Record MathImpl : Type := mkMath {
  Math_sin : float -> float;
  Math_cos : float -> float;
  sin_zero : Math_sin 0 = 0;
  cos_zero : Math_cos 0 = 1
}.

(** An implementation by the first terms of the two series; what is
    evaluated below steers to 0 degrees and uses its values at zero only. *)
Definition lowOrder : MathImpl :=
  mkMath (fun x => x - x * x * x / 6) (fun x => 1 - x * x / 2)
         eq_refl eq_refl.

Definition Config : Type := ProfileConfig nat float.

Definition spacingMeters (cfg : Config) : float :=
  let lambda := waveSpeed cfg / frequencyHz cfg in
  if String.eqb (spacingUnit cfg) "wavelength"
  then spacing cfg * lambda
  else spacing cfg.

Section WithMath.
Variable M : MathImpl.

Definition computeDelays (cfg : Config) : PerElementDelays float :=
  let N := elements cfg in
  let d := spacingMeters cfg in
  let c := waveSpeed cfg in
  let theta0 := (steerAngleDeg cfg * Math_PI) / 180 in
  let center := (ofNat N - 1) / 2 in
  let angleOnly :=
    let tau := fun i : nat =>
      let x := (ofNat i - center) * d in
      (x * Math_sin M theta0) / c in
    mkDelays (map tau (seq 0 N))
             (map (fun i => 2 * Math_PI * frequencyHz cfg * tau i) (seq 0 N)) in
  match focusDepth cfg with
  | None => angleOnly
  | Some focusDepth =>
      if focusDepth =? 0 then angleOnly
      else
        let xF := focusDepth * Math_sin M theta0 in
        let zF := focusDepth * Math_cos M theta0 in
        let rRef := sqrt ((0 - xF) * (0 - xF) + zF * zF) in
        let tau := fun i : nat =>
          let x := (ofNat i - center) * d in
          let r := sqrt ((x - xF) * (x - xF) + zF * zF) in
          (r - rRef) / c in
        mkDelays (map tau (seq 0 N))
                 (map (fun i => 2 * Math_PI * frequencyHz cfg * tau i)
                      (seq 0 N))
  end.

End WithMath.

(** Three elements at half a wavelength, 5 MHz, 1540 m/s, steered to 0
    degrees and focused at [1e200] m. *)
Definition farFocus : Config :=
  mkProfileConfig 3%nat 0.5 "wavelength"%string 5000000 1540 0
                  "hamming"%string None (Some 1e200) None.

(** The same array focused at 3 cm. *)
Definition nearFocus : Config :=
  mkProfileConfig 3%nat 0.5 "wavelength"%string 5000000 1540 0
                  "hamming"%string None (Some 0.03) None.

(** Three elements 0.3 mm apart focused at 3 cm, with a wave speed of 0,
    which the data model excludes. *)
Definition zeroSpeed : Config :=
  mkProfileConfig 3%nat 0.0003 "meters"%string 5000000 0 0
                  "hamming"%string None (Some 0.03) None.

End Doubles.

(** * Specification-side definitions

    Definitions that follow the words of the specification, to be compared
    with the embedded code. *)

Module SpecSide.
Import Dynamic.

(** "shape [samples][elements]" *)
Definition hasShape (matrix : SampleMatrix) (samples elements : nat) : Prop :=
  List.length matrix = samples /\
  Forall (fun row => List.length row = elements) matrix.

(** [matrix[s][e]] of a matrix read inside its shape. *)
Definition stored (matrix : SampleMatrix) (s e : nat) : R :=
  nth e (nth s matrix []) 0.

(** The sum of a finite list of numbers. *)
Definition sumR (l : list R) : R := fold_right Rplus 0 l.

(** "[out[s] = sum over e of matrix[s][e]]" *)
Definition plainSum (matrix : SampleMatrix) (elements s : nat) : R :=
  fold_right Rplus 0 (map (fun e => stored matrix s e) (seq 0 elements)).

(** "[out[s] = sum over e of weights[e]*matrix[s][e]]" *)
Definition apodizedSum (weights : list R) (matrix : SampleMatrix)
    (elements s : nat) : R :=
  fold_right Rplus 0
    (map (fun e => nth e weights 0 * stored matrix s e) (seq 0 elements)).

(** The largest absolute value of a non-empty vector is [m]. *)
Definition maxAbsIs (w : list R) (m : R) : Prop :=
  Forall (fun v => Rabs v <= m) w /\ Exists (fun v => Rabs v = m) w.

(** *** The printed text of the CSV layer *)

Fixpoint allChars (P : ascii -> bool) (s : string) : bool :=
  match s with
  | EmptyString => true
  | String c r => P c && allChars P r
  end.

Definition noSpace (s : string) : bool :=
  allChars (fun c => negb (Csv.isSpace c)) s.

Definition noComma (s : string) : bool :=
  allChars (fun c => negb (Ascii.eqb c ",")) s.

Definition noBreak (s : string) : bool :=
  allChars (fun c => negb (Ascii.eqb c Csv.LF) && negb (Ascii.eqb c Csv.CR)) s.

(** A printed value that can stand in a CSV cell: not empty, and free of
    white space, line breaks and commas.  The texts that ECMAScript's
    [Number::toString] produces are of this kind. *)
Definition isCell (s : string) : bool :=
  negb (String.eqb s "") && noSpace s && noComma s.

(** The keys that [toCsv] writes: cells that begin neither a comment nor
    the data header row. *)
Definition isKey (s : string) : bool :=
  match s with
  | EmptyString => false
  | String c _ =>
      negb (Ascii.eqb c "#") && negb (Ascii.eqb c "i") && noSpace s && noComma s
  end.

(** A number at its written precision: printed, then read back. *)
Definition reread {number : Type} {JN : Csv.JsNumber number} (x : number)
  : number :=
  Csv.Number (Csv.toString x).

(** The values of the TypeScript types [SpacingUnit] and [WindowType]. *)
Definition isSpacingUnit (s : string) : Prop :=
  In s ["wavelength"; "meters"]%string.

Definition isWindowType (s : string) : Prop :=
  In s ["rectangular"; "hamming"; "triangular"; "chebyshev"; "custom"]%string.

(** A line that sets the key [k] in [parseCsvConfig]: trimmed, it is [k],
    a comma, and a value. *)
Definition setsKey (k line : string) : bool :=
  Csv.startsWith (Csv.trim line) (k ++ ",")%string.

(** *** Bounds on matrices and scan lines *)

(** Every entry of the matrix is at most [B] in absolute value. *)
Definition boundedBy (B : R) (matrix : SampleMatrix) : Prop :=
  Forall (Forall (fun v => Rabs v <= B)) matrix.

(** A scan-line vector of [samples] numbers (no NaN), each at most [B] in
    absolute value. *)
Definition numbersWithin (B : R) (samples : nat) (out : ScanlineVector)
  : Prop :=
  List.length out = samples
  /\ Forall (fun v => exists r, v = Num r /\ Rabs r <= B) out.

(** *** The lines that [parseCsvConfig] tells apart *)

(** The keys that [parseCsvConfig] looks up. *)
Definition configKeys : list string :=
  ["elements"; "spacing"; "spacingUnit"; "frequencyHz"; "waveSpeed";
   "steerAngleDeg"; "windowType"; "focusDepth"; "chebyshevSidelobeDb"]%string.

(** A line that [parseCsvConfig] takes for the data header row. *)
Definition isHeaderRow (line : string) : bool :=
  Csv.startsWith (Csv.trim line) Csv.dataHeader.

(** *** Configurations of ordinary size

    The documented invariants of the configurations (positive spacing,
    frequency, speeds and time step), within magnitudes at which no
    binary64 operation of the code overflows; and the Chebyshev sidelobe
    levels below the 3083 dB from which [acosh] squares its argument to
    [Infinity]. *)

Definition ordinarySize (x : R) : Prop := 1e-30 <= x <= 1e30.

Definition ordinaryCount (n : nat) : Prop := (Z.of_nat n <= 1000000)%Z.

Definition ordinarySidelobe (chebDb : R) : Prop := chebDb <= 3000.

Definition ordinaryProfile (cfg : Types.ProfileConfig nat R) : Prop :=
  ordinaryCount (Types.elements cfg)
  /\ ordinarySize (Types.spacing cfg)
  /\ ordinarySize (Types.frequencyHz cfg)
  /\ ordinarySize (Types.waveSpeed cfg)
  /\ Rabs (Types.steerAngleDeg cfg) <= 1e30.

(** The same configuration under linear scanning. *)
Definition asLinear (cfg : DynamicBeamformingConfig)
  : DynamicBeamformingConfig :=
  mkDynamicConfig (timeStep cfg) (propagationSpeed cfg)
    (mkScanning (numScanLines (scanning cfg)) linear (range (scanning cfg))
                (samples (scanning cfg)))
    (array cfg).

Definition ordinaryDynamic (cfg : DynamicBeamformingConfig) : Prop :=
  ordinarySize (timeStep cfg)
  /\ ordinarySize (propagationSpeed cfg)
  /\ ordinaryCount (elements (array cfg))
  /\ ordinarySize (elementSpacing (array cfg))
  /\ Rabs (fst (range (scanning cfg))) <= 1e30
  /\ Rabs (snd (range (scanning cfg))) <= 1e30.

End SpecSide.

(** * Properties of the dynamic beamformers and generators *)

Module DynamicProps.
Import Js Dynamic SpecSide.

Lemma forEach_returns {A B : Type} (f : A -> outcome B) (g : A -> B)
    (l : list A) :
  (forall a, In a l -> f a = Returns (g a)) ->
  forEach f l = Returns (map g l).
Proof.
  induction l as [|a t IH]; intros Hf; simpl.
  - reflexivity.
  - rewrite (Hf a (or_introl eq_refl)).
    rewrite IH by (intros b Hb; apply Hf; right; exact Hb).
    reflexivity.
Qed.

Lemma read_in_range (row : list R) (e : nat) :
  (e < List.length row)%nat -> read row e = Num (nth e row 0).
Proof.
  intros He. unfold read.
  destruct (nth_error row e) as [v|] eqn:E.
  - rewrite (nth_error_nth _ _ 0 E). reflexivity.
  - apply nth_error_None in E. lia.
Qed.

(** A loop that adds one number per index is, on numbers, the sum of the
    terms. *)
Lemma accumulate_numbers (term : nat -> jsnum) (val : nat -> R)
    (l : list nat) (a : R) :
  (forall e, In e l -> term e = Num (val e)) ->
  fold_left (fun acc e => jadd acc (term e)) l (Num a)
  = Num (a + fold_right Rplus 0 (map val l)).
Proof.
  revert a. induction l as [|e t IH]; intros a Hterm; simpl.
  - f_equal. lra.
  - rewrite (Hterm e (or_introl eq_refl)). simpl.
    rewrite IH by (intros x Hx; apply Hterm; right; exact Hx).
    f_equal. lra.
Qed.

Lemma hasShape_row (matrix : SampleMatrix) (samples elements s : nat) :
  hasShape matrix samples elements -> (s < samples)%nat ->
  exists row, nth_error matrix s = Some row /\
              nth s matrix [] = row /\ List.length row = elements.
Proof.
  intros [Hlen Hrows] Hs.
  destruct (nth_error matrix s) as [row|] eqn:E.
  - exists row. split; [reflexivity|]. split.
    + apply nth_error_nth. exact E.
    + rewrite Forall_forall in Hrows. apply Hrows.
      eapply nth_error_In. exact E.
  - apply nth_error_None in E. lia.
Qed.

Lemma Int_part_plus_frac (z : Z) (f : R) :
  0 <= f < 1 -> Int_part (IZR z + f) = z.
Proof.
  intros Hf.
  destruct (Int_part_frac_part_spec (IZR z + f) z f Hf eq_refl) as [H _].
  symmetry. exact H.
Qed.

End DynamicProps.

(** * Properties of the window functions *)

Module WindowProps.
Import Js Windows.

Lemma upd_length (l : list R) (i : nat) (v : R) :
  List.length (upd l i v) = List.length l.
Proof.
  revert i. induction l as [|h t IH]; intros [|i]; simpl; auto.
Qed.

Lemma symmetrize_length (N : nat) (wc : list R) :
  List.length (symmetrize N wc) = List.length wc.
Proof.
  unfold symmetrize. generalize (seq 0 (N / 2)). intros idx. revert wc.
  induction idx as [|i t IH]; intros wc; simpl.
  - reflexivity.
  - rewrite IH. rewrite !upd_length. reflexivity.
Qed.

Lemma rectangularWindow_length (N : nat) :
  List.length (rectangularWindow N) = N.
Proof. unfold rectangularWindow. rewrite length_map, length_seq. reflexivity. Qed.

Lemma hammingWindow_length (N : nat) :
  (1 <= N)%nat -> List.length (hammingWindow N) = N.
Proof.
  intros HN. unfold hammingWindow.
  destruct (N <=? 1)%nat eqn:E.
  - apply Nat.leb_le in E. simpl. lia.
  - rewrite length_map, length_seq. reflexivity.
Qed.

Lemma triangularWindow_length (N : nat) :
  (1 <= N)%nat -> List.length (triangularWindow N) = N.
Proof.
  intros HN. unfold triangularWindow.
  destruct (N <=? 1)%nat eqn:E.
  - apply Nat.leb_le in E. simpl. lia.
  - rewrite length_map, length_seq. reflexivity.
Qed.

Lemma chebyshevWindow_length (N : nat) (db : R) :
  (1 <= N)%nat -> List.length (chebyshevWindow N db) = N.
Proof.
  intros HN. unfold chebyshevWindow.
  destruct (N <=? 1)%nat eqn:E.
  - apply Nat.leb_le in E. simpl. lia.
  - destruct (Rle_dec _ _).
    + apply repeat_length.
    + rewrite symmetrize_length, length_map, length_seq. reflexivity.
Qed.

Lemma makeWindow_length (type : string) (N : nat) (chebDb : R) :
  (1 <= N)%nat -> List.length (makeWindow type N chebDb) = N.
Proof.
  intros HN. unfold makeWindow.
  repeat match goal with |- context [if ?b then _ else _] => destruct b end;
    auto using rectangularWindow_length, hammingWindow_length,
               triangularWindow_length, chebyshevWindow_length.
Qed.

End WindowProps.

(** * The claims about the dynamic subsystem *)

Import Js Dynamic SpecSide DynamicProps.

(** C9: for both point-source generators (transmit delay ignored, and
    transmit plus receive), every generator configuration, every dynamic
    beamforming configuration and any two scan-line indices [i] and [j],
    [generateScanline(i, cfg)] and [generateScanline(j, cfg)] are the same
    sample matrix. *)
Theorem generateScanline_ignores_scanlineIndex :
  forall (config : PointSourceGeneratorConfig)
         (cfg : DynamicBeamformingConfig) (i j : nat),
    ReceiveOnly.createPointSourceGenerator config i cfg
    = ReceiveOnly.createPointSourceGenerator config j cfg
    /\ TransmitReceive.createPointSourceGenerator config i cfg
       = TransmitReceive.createPointSourceGenerator config j cfg.
Proof.
  intros config cfg i j. split; reflexivity.
Qed.

(** C3: on a sample matrix of shape [samples][elements] and a configuration
    whose scanning type is not "phased", the delay-and-sum beamformer
    returns, without throwing, exactly what the plain sum beamformer
    returns, a vector of [samples] entries; and the apodized delay-and-sum
    beamformer returns, without throwing, the vector of [samples] entries
    [out[s] = sum over e of weights[e]*matrix[s][e]], with [weights] the
    window of the beamformer's options. *)
Theorem delay_beamformers_fall_back_when_not_phased :
  forall (matrix : SampleMatrix) (scanlineIndex : nat)
         (cfg : DynamicBeamformingConfig) (opts : ApodizedOptions.t),
    let samples := samples (scanning cfg) in
    let elements := Dynamic.elements (array cfg) in
    let weights :=
      Windows.makeWindow
        (orElse (ApodizedOptions.windowType opts) "hamming"%string) elements
        (orElse (ApodizedOptions.chebyshevSidelobeDb opts) 30) in
    hasShape matrix samples elements ->
    type (scanning cfg) <> phased ->
    createDelayAndSumBeamformer matrix scanlineIndex cfg
    = createSumBeamformer matrix scanlineIndex cfg
    /\ createSumBeamformer matrix scanlineIndex cfg
       = Returns (map (fun s => Num (plainSum matrix elements s))
                      (seq 0 samples))
    /\ createDelayAndSumApodizedBeamformer opts matrix scanlineIndex cfg
       = Returns (map (fun s => Num (apodizedSum weights matrix elements s))
                      (seq 0 samples))
    /\ List.length (map (fun s => Num (plainSum matrix elements s))
                        (seq 0 samples)) = samples
    /\ List.length (map (fun s => Num (apodizedSum weights matrix elements s))
                        (seq 0 samples)) = samples.
Proof.
  intros matrix scanlineIndex cfg opts samples elements weights Hshape Hty.
  assert (Hlin : type (scanning cfg) = linear).
  { destruct (type (scanning cfg)); [reflexivity | contradiction]. }
  split; [|split; [|split; [|split]]].
  - unfold createDelayAndSumBeamformer, createSumBeamformer.
    rewrite Hlin. reflexivity.
  - unfold createSumBeamformer. fold samples elements.
    apply forEach_returns with
      (g := fun s => Num (plainSum matrix elements s)).
    intros s Hs. apply in_seq in Hs.
    destruct (hasShape_row matrix samples elements s Hshape)
      as (row & Hnth & Hrow & Hlen); [lia|].
    rewrite Hnth. f_equal.
    rewrite accumulate_numbers
      with (val := fun e => stored matrix s e).
    + unfold plainSum. f_equal. lra.
    + intros e He. apply in_seq in He. unfold stored. rewrite Hrow.
      apply read_in_range. lia.
  - unfold createDelayAndSumApodizedBeamformer. rewrite Hlin.
    fold samples elements weights.
    apply forEach_returns with
      (g := fun s => Num (apodizedSum weights matrix elements s)).
    intros s Hs. apply in_seq in Hs.
    destruct (hasShape_row matrix samples elements s Hshape)
      as (row & Hnth & Hrow & Hlen); [lia|].
    rewrite Hnth. f_equal.
    rewrite accumulate_numbers
      with (val := fun e => nth e weights 0 * stored matrix s e).
    + unfold apodizedSum. f_equal. lra.
    + intros e He. apply in_seq in He. unfold stored. rewrite Hrow.
      rewrite !read_in_range.
      * simpl. f_equal. lra.
      * unfold weights. rewrite WindowProps.makeWindow_length; lia.
      * lia.
  - rewrite length_map, length_seq. reflexivity.
  - rewrite length_map, length_seq. reflexivity.
Qed.

(** The fallback on a 2-by-2 matrix under linear scanning. *)
Lemma delay_beamformers_fall_back_witness :
  createDelayAndSumBeamformer [[1; 2]; [3; 4]] 0%nat
    (mkDynamicConfig 1 1540 (mkScanning 1 linear (0, 0) 2) (mkArray 2 1))
  = createSumBeamformer [[1; 2]; [3; 4]] 0%nat
      (mkDynamicConfig 1 1540 (mkScanning 1 linear (0, 0) 2) (mkArray 2 1)).
Proof.
  refine (proj1 (delay_beamformers_fall_back_when_not_phased
                   [[1; 2]; [3; 4]] 0%nat
                   (mkDynamicConfig 1 1540 (mkScanning 1 linear (0, 0) 2)
                                    (mkArray 2 1))
                   ApodizedOptions.empty _ _)).
  - split; [reflexivity | repeat constructor].
  - simpl. discriminate.
Defined.

(** C4: [sampleRowLinear] at the fractional sample index [s0 + frac], with
    [s0] the floor and [0 <= frac < 1], on a matrix of [samples] rows and an
    element index in range: 0 when [s0] is outside [0, samples); the stored
    [matrix[s0][e]] when [frac <= 1e-12]; the stored [matrix[s0][e]] when
    [s0 + 1] is out of bounds; otherwise the interpolation
    [matrix[s0][e]*(1-frac) + matrix[s0+1][e]*frac].  In particular an
    integer index in range gives the stored value, and the index
    [samples - 1 + 0.5] gives the last stored value. *)
Theorem sampleRowLinear_interpolation_rule :
  forall (matrix : SampleMatrix) (samples elements e : nat) (s0 : Z)
         (frac : R),
    hasShape matrix samples elements ->
    (e < elements)%nat ->
    0 <= frac < 1 ->
    let idx := IZR s0 + frac in
    let value (s : Z) := stored matrix (Z.to_nat s) e in
    ((s0 < 0 \/ Z.of_nat samples <= s0)%Z ->
       sampleRowLinear matrix e idx = Num 0)
    /\ ((0 <= s0 < Z.of_nat samples)%Z -> frac <= 1e-12 ->
          sampleRowLinear matrix e idx = Num (value s0))
    /\ ((0 <= s0 < Z.of_nat samples)%Z -> (Z.of_nat samples <= s0 + 1)%Z ->
          sampleRowLinear matrix e idx = Num (value s0))
    /\ ((0 <= s0)%Z -> (s0 + 1 < Z.of_nat samples)%Z -> 1e-12 < frac ->
          sampleRowLinear matrix e idx
          = Num (value s0 * (1 - frac) + value (s0 + 1)%Z * frac))
    /\ ((0 <= s0 < Z.of_nat samples)%Z ->
          sampleRowLinear matrix e (IZR s0) = Num (value s0))
    /\ ((1 <= samples)%nat ->
          sampleRowLinear matrix e (INR samples - 1 + 0.5)
          = Num (value (Z.of_nat samples - 1)%Z)).
Proof.
  intros matrix samples elements e s0 frac Hshape He Hfrac idx value.
  assert (Hlen : List.length matrix = samples) by apply Hshape.
  assert (Hread : forall s : Z, (0 <= s < Z.of_nat samples)%Z ->
            read (nth (Z.to_nat s) matrix []) e = Num (value s)).
  { intros s Hs.
    destruct (hasShape_row matrix samples elements (Z.to_nat s)
                Hshape) as (row & _ & Hrow & Hl); [lia|].
    unfold value, stored. rewrite Hrow.
    apply read_in_range. lia. }
  assert (Hgen : forall (z : Z) (f : R), 0 <= f < 1 ->
    sampleRowLinear matrix e (IZR z + f)
    = if ((z <? 0) || (Z.of_nat samples <=? z))%Z then Num 0
      else if Rle_dec f 1e-12 then read (nth (Z.to_nat z) matrix []) e
      else if ((z + 1 <? 0) || (Z.of_nat samples <=? z + 1))%Z
           then read (nth (Z.to_nat z) matrix []) e
      else jadd (jmul (read (nth (Z.to_nat z) matrix []) e) (Num (1 - f)))
                (jmul (read (nth (Z.to_nat (z + 1)) matrix []) e) (Num f))).
  { intros z f Hf. unfold sampleRowLinear.
    rewrite (Int_part_plus_frac z f Hf), Hlen.
    replace (IZR z + f - IZR z) with f by lra. reflexivity. }
  assert (Hint : forall z : Z, (0 <= z < Z.of_nat samples)%Z ->
            sampleRowLinear matrix e (IZR z) = Num (value z)).
  { intros z Hz. replace (IZR z) with (IZR z + 0) by lra.
    rewrite Hgen by lra.
    replace ((z <? 0) || (Z.of_nat samples <=? z))%Z with false
      by (symmetry; apply orb_false_iff; split;
          [apply Z.ltb_ge | apply Z.leb_gt]; lia).
    destruct (Rle_dec 0 1e-12) as [_|Hn]; [|exfalso; apply Hn; lra].
    apply Hread. exact Hz. }
  repeat split.
  - intros Hout. unfold idx. rewrite Hgen by exact Hfrac.
    replace ((s0 <? 0) || (Z.of_nat samples <=? s0))%Z with true;
      [reflexivity|].
    symmetry. apply orb_true_iff.
    destruct Hout; [left; apply Z.ltb_lt | right; apply Z.leb_le]; lia.
  - intros Hin Hsmall. unfold idx. rewrite Hgen by exact Hfrac.
    replace ((s0 <? 0) || (Z.of_nat samples <=? s0))%Z with false
      by (symmetry; apply orb_false_iff; split;
          [apply Z.ltb_ge | apply Z.leb_gt]; lia).
    destruct (Rle_dec frac 1e-12) as [_|Hn]; [|contradiction].
    apply Hread. exact Hin.
  - intros Hin Hnext. unfold idx. rewrite Hgen by exact Hfrac.
    replace ((s0 <? 0) || (Z.of_nat samples <=? s0))%Z with false
      by (symmetry; apply orb_false_iff; split;
          [apply Z.ltb_ge | apply Z.leb_gt]; lia).
    replace ((s0 + 1 <? 0) || (Z.of_nat samples <=? s0 + 1))%Z with true
      by (symmetry; apply orb_true_iff; right; apply Z.leb_le; lia).
    destruct (Rle_dec frac 1e-12); apply Hread; exact Hin.
  - intros Hlo Hhi Hbig. unfold idx. rewrite Hgen by exact Hfrac.
    replace ((s0 <? 0) || (Z.of_nat samples <=? s0))%Z with false
      by (symmetry; apply orb_false_iff; split;
          [apply Z.ltb_ge | apply Z.leb_gt]; lia).
    replace ((s0 + 1 <? 0) || (Z.of_nat samples <=? s0 + 1))%Z with false
      by (symmetry; apply orb_false_iff; split;
          [apply Z.ltb_ge | apply Z.leb_gt]; lia).
    destruct (Rle_dec frac 1e-12) as [Hle|_]; [lra|].
    rewrite !Hread by lia. reflexivity.
  - exact (Hint s0).
  - intros Hs.
    replace (INR samples - 1 + 0.5)
      with (IZR (Z.of_nat samples - 1) + 0.5)
      by (rewrite minus_IZR, <- INR_IZR_INZ; lra).
    rewrite Hgen by lra.
    replace ((Z.of_nat samples - 1 <? 0)
             || (Z.of_nat samples <=? Z.of_nat samples - 1))%Z with false
      by (symmetry; apply orb_false_iff; split;
          [apply Z.ltb_ge | apply Z.leb_gt]; lia).
    replace ((Z.of_nat samples - 1 + 1 <? 0)
             || (Z.of_nat samples <=? Z.of_nat samples - 1 + 1))%Z with true
      by (symmetry; apply orb_true_iff; right; apply Z.leb_le; lia).
    destruct (Rle_dec 0.5 1e-12); apply Hread; lia.
Qed.

(** Half-way between the two rows of a 2-by-2 matrix, second element. *)
Lemma sampleRowLinear_interpolation_witness :
  sampleRowLinear [[1; 2]; [3; 4]] 1 (IZR 0 + 0.5)
  = Num (stored [[1; 2]; [3; 4]] (Z.to_nat 0) 1 * (1 - 0.5)
         + stored [[1; 2]; [3; 4]] (Z.to_nat (0 + 1)) 1 * 0.5).
Proof.
  refine (proj1 (proj2 (proj2 (proj2
            (sampleRowLinear_interpolation_rule
               [[1; 2]; [3; 4]] 2 2 1 0%Z 0.5 _ _ _)))) _ _ _).
  - split; [reflexivity | repeat constructor].
  - lia.
  - lra.
  - lia.
  - simpl. lia.
  - lra.
Defined.

(** * Properties of the profile computations *)

Module ProfileProps.
Import Js Types Windows Beamforming SpecSide WindowProps.

Lemma fold_xmax_Finite (l : list R) (a : R) :
  fold_left xmax l (Finite a) = Finite (fold_left Rmax l a).
Proof.
  revert a. induction l as [|v t IH]; intros a; simpl.
  - reflexivity.
  - apply IH.
Qed.

Lemma fold_Rmax_spec (l : list R) (a : R) :
  a <= fold_left Rmax l a
  /\ Forall (fun v => v <= fold_left Rmax l a) l
  /\ (fold_left Rmax l a = a \/ In (fold_left Rmax l a) l).
Proof.
  revert a. induction l as [|v t IH]; intros a; simpl.
  - split; [lra|]. split; [constructor | left; reflexivity].
  - destruct (IH (Rmax a v)) as (Hge & Hall & Hin).
    pose proof (Rmax_l a v). pose proof (Rmax_r a v).
    split; [lra|]. split.
    + constructor; [lra | exact Hall].
    + destruct Hin as [Heq|Hin].
      * rewrite Heq. unfold Rmax. destruct (Rle_dec a v); auto.
      * right. right. exact Hin.
Qed.

Lemma maxAbsIs_unique (w : list R) (m m' : R) :
  maxAbsIs w m -> maxAbsIs w m' -> m = m'.
Proof.
  intros [Ha Hb] [Ha' Hb'].
  rewrite Forall_forall in Ha, Ha'.
  apply Exists_exists in Hb. destruct Hb as (v & Hv & Ev).
  apply Exists_exists in Hb'. destruct Hb' as (v' & Hv' & Ev').
  pose proof (Ha v' Hv'). pose proof (Ha' v Hv). lra.
Qed.

Lemma Math_max_abs (w : list R) :
  w <> [] -> exists m, Math_max (map Rabs w) = Finite m /\ maxAbsIs w m.
Proof.
  destruct w as [|v t]; [congruence|]. intros _.
  unfold Math_max. simpl. rewrite fold_xmax_Finite.
  set (m := fold_left Rmax (map Rabs t) (Rabs v)).
  destruct (fold_Rmax_spec (map Rabs t) (Rabs v)) as (Hge & Hall & Hin).
  fold m in Hge, Hall, Hin.
  exists m. split; [reflexivity|]. split.
  - constructor; [exact Hge|].
    rewrite Forall_forall in Hall. apply Forall_forall.
    intros x Hx. apply Hall. apply in_map. exact Hx.
  - destruct Hin as [Heq|Hin].
    + apply Exists_cons_hd. symmetry. exact Heq.
    + apply Exists_cons_tl. apply in_map_iff in Hin.
      destruct Hin as (x & Ex & Hx). apply Exists_exists.
      exists x. split; [exact Hx | exact Ex].
Qed.

Lemma maxAbsIs_nonempty (w : list R) (m : R) : maxAbsIs w m -> w <> [].
Proof.
  intros [_ Hex] ->. inversion Hex.
Qed.

(** The closing step of [computeWeights] on a vector whose largest
    absolute value is positive. *)
Lemma normalizeMax_positive (w : list R) (m : R) :
  maxAbsIs w m -> 0 < m ->
  normalizeMax w = map (fun v => v / m) w /\ maxAbsIs (normalizeMax w) 1.
Proof.
  intros Hmax Hpos.
  destruct (Math_max_abs w (maxAbsIs_nonempty w m Hmax)) as (m' & Hm' & Hmax').
  assert (m' = m) by (eapply maxAbsIs_unique; eassumption). subst m'.
  assert (Heq : normalizeMax w = map (fun v => v / m) w).
  { unfold normalizeMax. rewrite Hm'.
    destruct (Rlt_dec 0 m); [reflexivity | contradiction]. }
  split; [exact Heq|]. rewrite Heq.
  destruct Hmax as [Hall Hex]. split.
  - rewrite Forall_forall in Hall. apply Forall_forall.
    intros x Hx. apply in_map_iff in Hx. destruct Hx as (v & <- & Hv).
    unfold Rdiv. rewrite Rabs_mult, (Rabs_right (/ m)).
    + apply Rmult_le_reg_r with m; [exact Hpos|].
      rewrite Rmult_assoc, Rinv_l by lra. specialize (Hall v Hv). lra.
    + left. apply Rinv_0_lt_compat. exact Hpos.
  - apply Exists_exists in Hex. destruct Hex as (v & Hv & Ev).
    apply Exists_exists. exists (v / m). split.
    + apply in_map_iff. exists v. split; [reflexivity | exact Hv].
    + unfold Rdiv. rewrite Rabs_mult, (Rabs_right (/ m)).
      * rewrite Ev. apply Rinv_r. lra.
      * left. apply Rinv_0_lt_compat. exact Hpos.
Qed.

(** The closing step leaves an all-zero vector as it is. *)
Lemma normalizeMax_all_zero (w : list R) :
  Forall (fun v => v = 0) w -> normalizeMax w = w.
Proof.
  intros Hz. unfold normalizeMax.
  destruct w as [|v t]; [reflexivity|].
  destruct (Math_max_abs (v :: t)) as (m & Hm & Hall & Hex); [discriminate|].
  rewrite Hm.
  apply Exists_exists in Hex. destruct Hex as (x & Hx & Ex).
  rewrite Forall_forall in Hz. rewrite (Hz x Hx), Rabs_R0 in Ex. subst m.
  destruct (Rlt_dec 0 0); [lra | reflexivity].
Qed.

(** A vector with a non-zero entry is normalised to largest absolute
    value 1. *)
Lemma normalizeMax_nonzero (w : list R) :
  Exists (fun v => v <> 0) w -> maxAbsIs (normalizeMax w) 1.
Proof.
  intros Hnz.
  assert (Hne : w <> []) by (intros ->; inversion Hnz).
  destruct (Math_max_abs w Hne) as (m & _ & Hmax).
  apply (normalizeMax_positive w m Hmax).
  apply Exists_exists in Hnz. destruct Hnz as (v & Hv & Nv).
  destruct Hmax as [Hall _]. rewrite Forall_forall in Hall.
  specialize (Hall v Hv). pose proof (Rabs_pos_lt v Nv). lra.
Qed.

Lemma normalizeMax_length (w : list R) :
  List.length (normalizeMax w) = List.length w.
Proof.
  unfold normalizeMax. destruct (Math_max (map Rabs w)); [reflexivity|].
  destruct (Rlt_dec 0 r); [apply length_map | reflexivity].
Qed.

Lemma nth_error_map_seq {A : Type} (f : nat -> A) (N k : nat) :
  (k < N)%nat -> nth_error (map f (seq 0 N)) k = Some (f k).
Proof.
  intros Hk. apply map_nth_error. rewrite nth_error_seq.
  destruct (k <? N)%nat eqn:E; [reflexivity|].
  apply Nat.ltb_ge in E. lia.
Qed.

(** Every Hamming weight is at least 0.08. *)
Lemma hammingWindow_positive (N : nat) :
  Forall (fun v => 0.08 <= v) (hammingWindow N).
Proof.
  unfold hammingWindow. destruct (N <=? 1)%nat.
  - repeat constructor. lra.
  - apply Forall_forall. intros v Hv. apply in_map_iff in Hv.
    destruct Hv as (n & <- & _).
    pose proof (COS_bound (2 * PI * INR n / INR (N - 1))) as [_ Hc]. lra.
Qed.

Lemma hammingWindow_nonzero (N : nat) :
  Exists (fun v => v <> 0) (hammingWindow N).
Proof.
  pose proof (hammingWindow_positive N) as Hp.
  destruct (hammingWindow N) as [|v t] eqn:E.
  - unfold hammingWindow in E.
    destruct (N <=? 1)%nat eqn:E1; [discriminate|].
    apply Nat.leb_gt in E1.
    apply (f_equal (@List.length R)) in E.
    rewrite length_map, length_seq in E. simpl in E. lia.
  - inversion Hp; subst. apply Exists_cons_hd. lra.
Qed.

Lemma rectangularWindow_nonzero (N : nat) :
  (1 <= N)%nat -> Exists (fun v => v <> 0) (rectangularWindow N).
Proof.
  intros HN. unfold rectangularWindow.
  destruct N as [|N]; [lia|]. simpl. apply Exists_cons_hd. lra.
Qed.

(** For three elements or more, the triangular weight of element 1 is
    [2/(N-1)]. *)
Lemma triangularWindow_nonzero (N : nat) :
  (1 <= N)%nat -> N <> 2%nat -> Exists (fun v => v <> 0) (triangularWindow N).
Proof.
  intros HN H2. unfold triangularWindow.
  destruct (N <=? 1)%nat eqn:E.
  - apply Exists_cons_hd. lra.
  - apply Nat.leb_gt in E.
    apply Exists_exists.
    exists (1 - Rabs ((INR 1 - INR (N - 1) / 2) / (INR (N - 1) / 2))).
    split.
    + apply in_map_iff. exists 1%nat. split; [reflexivity|].
      apply in_seq. lia.
    + assert (HM : 2 <= INR (N - 1)).
      { replace 2 with (INR 2) by (simpl; lra). apply le_INR. lia. }
      simpl (INR 1).
      rewrite Rabs_left1.
      * intros Hc.
        assert (Hq : (1 - INR (N - 1) / 2) / (INR (N - 1) / 2)
                     = 2 / INR (N - 1) - 1) by (field; lra).
        rewrite Hq in Hc.
        assert (0 < 2 / INR (N - 1))
          by (apply Rdiv_lt_0_compat; lra).
        lra.
      * assert (Hq : (1 - INR (N - 1) / 2) / (INR (N - 1) / 2)
                     = (1 - INR (N - 1) / 2) * / (INR (N - 1) / 2))
          by reflexivity.
        rewrite Hq.
        assert (0 < / (INR (N - 1) / 2))
          by (apply Rinv_0_lt_compat; lra).
        nra.
Qed.

Lemma triangularWindow_two : triangularWindow 2 = [0; 0].
Proof.
  unfold triangularWindow. simpl.
  f_equal; [|f_equal].
  - replace ((0 - 1 / 2) / (1 / 2)) with (-1) by field.
    rewrite Rabs_left by lra. lra.
  - replace ((1 - 1 / 2) / (1 / 2)) with 1 by field.
    rewrite Rabs_right by lra. lra.
Qed.

Lemma hammingWindow_two : hammingWindow 2 = [0.08; 0.08].
Proof.
  unfold hammingWindow. simpl.
  replace (2 * PI * 0 / 1) with 0 by field.
  replace (2 * PI * 1 / 1) with (2 * PI) by field.
  rewrite cos_0, cos_2PI. f_equal; [lra | f_equal; lra].
Qed.

End ProfileProps.

(** * The Dolph-Chebyshev window has a positive weight *)

Module ChebyshevProps.
Import Js Windows SpecSide WindowProps ProfileProps.

Lemma sumR_app (a b : list R) : sumR (a ++ b) = sumR a + sumR b.
Proof.
  unfold sumR. induction a as [|x a IH]; simpl; [lra|]. rewrite IH. lra.
Qed.

Lemma fold_left_add (f : nat -> R) (l : list nat) (a : R) :
  fold_left (fun s k => s + f k) l a = a + sumR (map f l).
Proof.
  revert a. induction l as [|k t IH]; intros a; simpl.
  - unfold sumR. simpl. lra.
  - rewrite IH. unfold sumR. simpl. lra.
Qed.

Lemma sumR_map_plus {A : Type} (f g : A -> R) (l : list A) :
  sumR (map (fun n => f n + g n) l) = sumR (map f l) + sumR (map g l).
Proof.
  unfold sumR. induction l as [|x t IH]; simpl; [lra|]. rewrite IH. lra.
Qed.

Lemma sumR_map_scale {A : Type} (c : R) (f : A -> R) (l : list A) :
  sumR (map (fun n => c * f n) l) = c * sumR (map f l).
Proof.
  unfold sumR. induction l as [|x t IH]; simpl; [lra|]. rewrite IH. lra.
Qed.

Lemma sumR_map_const {A : Type} (c : R) (l : list A) :
  sumR (map (fun _ => c) l) = INR (List.length l) * c.
Proof.
  unfold sumR. induction l as [|x t IH]; [simpl; lra|].
  cbn [map fold_right List.length]. rewrite IH, S_INR. lra.
Qed.

Lemma sumR_map_ext {A : Type} (f g : A -> R) (l : list A) :
  (forall x, In x l -> f x = g x) -> sumR (map f l) = sumR (map g l).
Proof.
  intros H. f_equal. apply map_ext_in. exact H.
Qed.

Lemma sumR_swap {A B : Type} (F : A -> B -> R) (ks : list A) (ns : list B) :
  sumR (map (fun n => sumR (map (fun k => F k n) ks)) ns)
  = sumR (map (fun k => sumR (map (fun n => F k n) ns)) ks).
Proof.
  induction ks as [|k t IH].
  - transitivity (sumR (map (fun _ : B => 0) ns)); [reflexivity|].
    rewrite sumR_map_const. unfold sumR. simpl. lra.
  - transitivity
      (sumR (map (fun n => F k n + sumR (map (fun k0 => F k0 n) t)) ns));
      [reflexivity|].
    rewrite sumR_map_plus, IH. reflexivity.
Qed.

(** Lagrange's identity for a sum of cosines in arithmetic progression. *)
Lemma cos_sum_telescope (theta : R) (m : nat) :
  2 * sin (theta / 2) * sumR (map (fun n => cos (INR n * theta)) (seq 0 m))
  = sin ((INR m - 1 / 2) * theta) + sin (theta / 2).
Proof.
  induction m as [|m IH].
  - simpl. unfold sumR. simpl.
    replace ((0 - 1 / 2) * theta) with (- (theta / 2)) by field.
    rewrite sin_neg. lra.
  - rewrite seq_S, map_app, sumR_app, Rmult_plus_distr_l, IH.
    simpl (0 + m)%nat. unfold sumR at 1. simpl map. simpl fold_right.
    rewrite S_INR.
    replace ((INR m + 1 - 1 / 2) * theta) with (theta / 2 + INR m * theta)
      by field.
    replace ((INR m - 1 / 2) * theta) with (INR m * theta - theta / 2)
      by field.
    rewrite sin_plus, sin_minus. lra.
Qed.

(** The cosines of the multiples of [2*PI*k/N] add up to 0 over a period. *)
Lemma cos_sum_period (N k : nat) :
  (0 < k < N)%nat ->
  sumR (map (fun n => cos (2 * PI * INR k * INR n / INR N)) (seq 0 N)) = 0.
Proof.
  intros Hk.
  assert (HN : 0 < INR N) by (apply lt_0_INR; lia).
  assert (Hk0 : 0 < INR k) by (apply lt_0_INR; lia).
  assert (HkN : INR k < INR N) by (apply lt_INR; lia).
  set (theta := 2 * PI * INR k / INR N).
  rewrite (sumR_map_ext _ (fun n => cos (INR n * theta))).
  2:{ intros n _. f_equal. unfold theta. field. lra. }
  pose proof (cos_sum_telescope theta N) as Ht.
  replace ((INR N - 1 / 2) * theta) with (- (theta / 2) + 2 * INR k * PI) in Ht
    by (unfold theta; field; lra).
  rewrite sin_period, sin_neg in Ht.
  assert (Hs : 0 < sin (theta / 2)).
  { pose proof PI_RGT_0.
    apply sin_gt_0.
    - unfold theta. apply Rdiv_lt_0_compat; [|lra].
      apply Rdiv_lt_0_compat; [nra | lra].
    - unfold theta.
      replace (2 * PI * INR k / INR N / 2) with (PI * (INR k / INR N))
        by (field; lra).
      assert (INR k / INR N < 1).
      { apply Rmult_lt_reg_r with (INR N); [lra|].
        unfold Rdiv. rewrite Rmult_assoc, Rinv_l by lra. lra. }
      nra. }
  nra.
Qed.


Lemma idctSample_unfold (N : nat) (Y : list R) (n : nat) :
  idctSample N Y n
  = (nth 0 Y 0
     + sumR (map (fun k => 2 * nth k Y 0
                           * cos (2 * PI * INR k * INR n / INR N))
                 (seq 1 (N / 2 - 1)))
     + (if Nat.even N then nth (N / 2) Y 0 * cos (PI * INR n) else 0))
    * / INR N.
Proof.
  unfold idctSample. rewrite fold_left_add.
  destruct (Nat.even N); unfold Rdiv; f_equal; lra.
Qed.

(** The samples of the inverse cosine transform add up to [Y[0]]. *)
Lemma idctSample_sum (N : nat) (Y : list R) :
  (2 <= N)%nat -> sumR (map (idctSample N Y) (seq 0 N)) = nth 0 Y 0.
Proof.
  intros HN.
  assert (HNR : 0 < INR N) by (apply lt_0_INR; lia).
  rewrite (sumR_map_ext _ _ _ (fun n _ => idctSample_unfold N Y n)).
  rewrite (sumR_map_ext _
             (fun n => / INR N *
                (nth 0 Y 0
                 + sumR (map (fun k => 2 * nth k Y 0
                                       * cos (2 * PI * INR k * INR n / INR N))
                             (seq 1 (N / 2 - 1)))
                 + (if Nat.even N then nth (N / 2) Y 0 * cos (PI * INR n)
                    else 0))))
    by (intros; apply Rmult_comm).
  rewrite sumR_map_scale, !sumR_map_plus.
  rewrite sumR_map_const, length_seq.
  rewrite (sumR_swap
             (fun k n => 2 * nth k Y 0 * cos (2 * PI * INR k * INR n / INR N))).
  rewrite (sumR_map_ext _ (fun _ => 0)).
  2:{ intros k Hk. apply in_seq in Hk.
      rewrite sumR_map_scale, cos_sum_period; [lra|].
      pose proof (Nat.div_lt N 2). lia. }
  rewrite sumR_map_const.
  assert (Hhalf :
    sumR (map (fun n => if Nat.even N
                        then nth (N / 2) Y 0 * cos (PI * INR n) else 0)
              (seq 0 N)) = 0).
  { destruct (Nat.even N) eqn:E.
    - rewrite sumR_map_scale.
      apply Nat.even_spec in E. destruct E as [h Eh].
      assert (Hdiv : (N / 2 = h)%nat)
        by (subst N; rewrite Nat.mul_comm; apply Nat.div_mul; lia).
      rewrite (sumR_map_ext _
                 (fun n => cos (2 * PI * INR (N / 2) * INR n / INR N))).
      + rewrite cos_sum_period; [lra | lia].
      + intros n _. f_equal. rewrite Hdiv. subst N.
        rewrite mult_INR in *. simpl INR in *. field. lra.
    - rewrite sumR_map_const. lra. }
  rewrite Hhalf. field. lra.
Qed.

Lemma sumR_pos_exists (l : list R) :
  0 < sumR l -> Exists (fun v => 0 < v) l.
Proof.
  unfold sumR. induction l as [|x t IH]; simpl; intros H; [lra|].
  destruct (Rlt_dec 0 x) as [Hx|Hx].
  - apply Exists_cons_hd. exact Hx.
  - apply Exists_cons_tl. apply IH. lra.
Qed.

Lemma cosh_pos (x : R) : 0 < cosh x.
Proof.
  unfold cosh. pose proof (exp_pos x). pose proof (exp_pos (- x)). lra.
Qed.

Lemma cosh_ge_1 (x : R) : 1 <= cosh x.
Proof.
  unfold cosh. rewrite exp_Ropp. pose proof (exp_pos x) as Hp.
  assert (H : 2 <= exp x + / exp x).
  { apply Rmult_le_reg_r with (exp x); [exact Hp|].
    rewrite Rmult_plus_distr_r, Rinv_l by lra.
    pose proof (Rle_0_sqr (exp x - 1)) as Hsq. unfold Rsqr in Hsq. lra. }
  lra.
Qed.

Lemma acos_1 : acos 1 = 0.
Proof.
  rewrite <- cos_0. apply acos_cos. pose proof PI_RGT_0. lra.
Qed.

Lemma Tm_pos (M : nat) (b : R) : 1 <= b -> 0 < Tm M b.
Proof.
  intros Hb. unfold Tm.
  destruct (Rle_dec (Rabs b) (1 + 1e-12)).
  - rewrite (Rmin_left 1 b Hb), Rmax_right by lra.
    rewrite acos_1, Rmult_0_r, cos_0. lra.
  - destruct (Rlt_dec b 0); [lra|]. apply cosh_pos.
Qed.

Lemma nth_map_R {A : Type} (f : A -> R) (l : list A) (n : nat) (d : A) :
  (n < List.length l)%nat -> nth n (map f l) 0 = f (nth n l d).
Proof.
  intros Hn. rewrite (nth_indep _ 0 (f d)) by (rewrite length_map; exact Hn).
  apply map_nth.
Qed.

Lemma nth_upd (l : list R) (i k : nat) (v : R) :
  nth k (upd l i v) 0
  = if ((k =? i) && (i <? List.length l))%nat then v else nth k l 0.
Proof.
  revert i k. induction l as [|h t IH]; intros i k.
  - simpl. rewrite andb_false_r. reflexivity.
  - destruct i as [|i], k as [|k]; simpl; try reflexivity.
    rewrite IH. reflexivity.
Qed.

Lemma Forall_upd (P : R -> Prop) (l : list R) (i : nat) (v : R) :
  Forall P l -> P v -> Forall P (upd l i v).
Proof.
  revert i. induction l as [|h t IH]; intros i Hl Hv; simpl.
  - constructor.
  - inversion Hl; subst. destruct i; constructor; auto.
Qed.

Lemma Forall_nth_nonneg (l : list R) (k : nat) :
  Forall (fun v => 0 <= v) l -> 0 <= nth k l 0.
Proof.
  intros H. destruct (Nat.lt_ge_cases k (List.length l)) as [Hk|Hk].
  - rewrite Forall_forall in H. apply H. apply nth_In. exact Hk.
  - rewrite nth_overflow by exact Hk. lra.
Qed.

(** Averaging mirrored pairs keeps a non-negative vector non-negative and
    a positive entry positive. *)
Lemma symmetrize_keeps_positive (N : nat) (wc : list R) (i0 : nat) :
  Forall (fun v => 0 <= v) wc -> 0 < nth i0 wc 0 ->
  Forall (fun v => 0 <= v) (symmetrize N wc) /\ 0 < nth i0 (symmetrize N wc) 0.
Proof.
  unfold symmetrize. generalize (seq 0 (N / 2)). intros idx. revert wc.
  induction idx as [|i t IH]; intros wc Hall Hpos; simpl.
  - auto.
  - pose proof (Forall_nth_nonneg wc i Hall) as Hi.
    pose proof (Forall_nth_nonneg wc (N - 1 - i) Hall) as Hj.
    apply IH.
    + apply Forall_upd; [apply Forall_upd|]; [exact Hall | lra | lra].
    + rewrite !nth_upd.
      destruct ((i0 =? i) && _)%nat eqn:E1.
      * apply andb_true_iff in E1. destruct E1 as [E1 _].
        apply Nat.eqb_eq in E1. subst i0. lra.
      * destruct ((i0 =? N - 1 - i) && _)%nat eqn:E2; [|exact Hpos].
        apply andb_true_iff in E2. destruct E2 as [E2 _].
        apply Nat.eqb_eq in E2. subst i0. lra.
Qed.

(** The Dolph-Chebyshev window has a positive weight. *)
Lemma chebyshevWindow_positive_entry (N : nat) (db : R) :
  (1 <= N)%nat -> Exists (fun v => 0 < v) (chebyshevWindow N db).
Proof.
  intros HN. unfold chebyshevWindow.
  destruct (N <=? 1)%nat eqn:E1; [apply Exists_cons_hd; lra|].
  apply Nat.leb_gt in E1.
  destruct (Rle_dec _ 1) as [_|HA].
  - destruct N as [|N]; [lia|]. simpl. apply Exists_cons_hd. lra.
  - set (M := (N - 1)%nat).
    set (beta := cosh (acosh (Rpower 10 (db / 20)) / INR M)).
    set (TMbeta := cosh (INR M * acosh beta)).
    set (Y := map (fun k => Tm M (beta * cos (PI * INR k / INR N)) / TMbeta)
                  (seq 0 N)).
    set (w := map (idctSample N Y) (seq 0 N)).
    set (inv := match Math_max (map Rabs w) with
                | Finite maxVal => if Rlt_dec 0 maxVal then 1 / maxVal else 1
                | NegInfinity => 1
                end).
    set (w2 := map (fun v => if Rlt_dec v 0 then 0 else v)
                   (map (fun v => v * inv) w)).
    assert (HY0 : 0 < nth 0 Y 0).
    { unfold Y. destruct N as [|N]; [lia|]. cbn [seq map nth].
      replace (PI * INR 0 / INR (S N)) with 0 by (simpl INR; unfold Rdiv; ring).
      rewrite cos_0, Rmult_1_r.
      apply Rdiv_lt_0_compat; [|apply cosh_pos].
      apply Tm_pos. apply cosh_ge_1. }
    assert (Hinv : 0 < inv).
    { unfold inv. destruct (Math_max (map Rabs w)); [lra|].
      destruct (Rlt_dec 0 r); [|lra].
      apply Rdiv_lt_0_compat; lra. }
    assert (Hw : Exists (fun v => 0 < v) w).
    { apply sumR_pos_exists. unfold w. rewrite idctSample_sum by lia.
      exact HY0. }
    assert (Hw2len : List.length w2 = N).
    { unfold w2, w. rewrite !length_map, length_seq. reflexivity. }
    assert (Hw2all : Forall (fun v => 0 <= v) w2).
    { unfold w2. apply Forall_forall. intros x Hx.
      apply in_map_iff in Hx. destruct Hx as (y & <- & _).
      destruct (Rlt_dec y 0); lra. }
    assert (Hw2 : exists n, (n < N)%nat /\ 0 < nth n w2 0).
    { apply Exists_exists in Hw. destruct Hw as (v & Hv & Hpos).
      destruct (In_nth w v 0 Hv) as (n & Hn & En).
      assert (Hn' : (n < N)%nat)
        by (unfold w in Hn; rewrite length_map, length_seq in Hn; exact Hn).
      exists n. split; [exact Hn'|].
      unfold w2.
      rewrite (nth_map_R _ _ n 0) by (rewrite length_map; exact Hn).
      rewrite (nth_map_R _ _ n 0) by exact Hn.
      rewrite En.
      assert (0 < v * inv) by (apply Rmult_lt_0_compat; assumption).
      destruct (Rlt_dec (v * inv) 0); lra. }
    destruct Hw2 as (n & Hn & Hpos).
    set (shift := (N / 2)%nat).
    set (wc := map (fun i => nth ((i + shift) mod N) w2 0) (seq 0 N)).
    assert (Hshift : (shift < N)%nat) by (apply Nat.div_lt; lia).
    set (i0 := ((n + N - shift) mod N)%nat).
    assert (Hi0 : (i0 < N)%nat) by (apply Nat.mod_upper_bound; lia).
    assert (Hback : ((i0 + shift) mod N = n)%nat).
    { unfold i0. rewrite Nat.Div0.add_mod_idemp_l.
      replace (n + N - shift + shift)%nat with (n + 1 * N)%nat by lia.
      rewrite Nat.Div0.mod_add. apply Nat.mod_small. exact Hn. }
    assert (Hwcall : Forall (fun v => 0 <= v) wc).
    { unfold wc. apply Forall_forall. intros x Hx.
      apply in_map_iff in Hx. destruct Hx as (i & <- & _).
      apply Forall_nth_nonneg. exact Hw2all. }
    assert (Hwcpos : 0 < nth i0 wc 0).
    { unfold wc.
      rewrite (nth_map_R _ _ i0 0%nat) by (rewrite length_seq; exact Hi0).
      rewrite seq_nth by exact Hi0.
      simpl (0 + i0)%nat. rewrite Hback. exact Hpos. }
    destruct (symmetrize_keeps_positive N wc i0 Hwcall Hwcpos) as [_ Hfinal].
    apply Exists_exists. exists (nth i0 (symmetrize N wc) 0).
    split; [|exact Hfinal].
    apply nth_In. rewrite symmetrize_length. unfold wc.
    rewrite length_map, length_seq. exact Hi0.
Qed.

End ChebyshevProps.

(** * The claims about the static profile engine *)

Import Types Windows Beamforming ProfileProps WindowProps.

(** C1, as stated, fails: [makeWindow] does not normalise.  The Hamming
    window of two elements is [0.08, 0.08]: its largest absolute value is
    not 1, and it is not all-zero either. *)
Lemma makeWindow_hamming_two_not_unit_max :
  ~ (maxAbsIs (makeWindow "hamming" 2 30) 1
     \/ Forall (fun v => v = 0) (makeWindow "hamming" 2 30)).
Proof.
  unfold makeWindow. simpl. rewrite hammingWindow_two.
  intros [[_ Hex] | Hz].
  - apply Exists_exists in Hex. destruct Hex as (v & Hv & Ev).
    assert (v = 0.08) by (simpl in Hv; intuition lra). subst v.
    rewrite Rabs_right in Ev by lra. lra.
  - inversion Hz; subst. lra.
Qed.

(** C1, amended: for every window type among rectangular, hamming,
    triangular and chebyshev and every N among 1, 2, 8 and 64, the weights
    returned by [computeWeights], which re-normalises the output of
    [makeWindow(type, N)], are N in number and have largest absolute value
    1, except for triangular with N = 2, where [makeWindow] returns the
    all-zero [0, 0] and [computeWeights] leaves it unchanged. *)
Theorem computeWeights_unit_max :
  forall cfg : Config,
    In (windowType cfg) ["rectangular"; "hamming"; "triangular"; "chebyshev"]%string ->
    In (elements cfg) [1; 2; 8; 64]%nat ->
    let raw := makeWindow (windowType cfg) (elements cfg)
                          (orElse (chebyshevSidelobeDb cfg) 30) in
    List.length (computeWeights cfg) = elements cfg
    /\ (~ (windowType cfg = "triangular"%string /\ elements cfg = 2%nat) ->
        maxAbsIs (computeWeights cfg) 1)
    /\ (windowType cfg = "triangular"%string -> elements cfg = 2%nat ->
        raw = [0; 0] /\ computeWeights cfg = [0; 0]).
Proof.
  intros cfg Hty HN raw.
  assert (H1 : (1 <= elements cfg)%nat) by (simpl in HN; lia).
  assert (Hcw : computeWeights cfg = normalizeMax raw).
  { unfold computeWeights. fold raw.
    replace (String.eqb (windowType cfg) "custom") with false; [reflexivity|].
    symmetry. apply String.eqb_neq. intros Hc. rewrite Hc in Hty.
    simpl in Hty. intuition discriminate. }
  rewrite Hcw.
  split; [|split].
  - rewrite normalizeMax_length. apply makeWindow_length. exact H1.
  - intros Hcase. apply normalizeMax_nonzero. unfold raw, makeWindow.
    simpl in Hty. destruct Hty as [E | [E | [E | [E | []]]]];
      rewrite <- E in *; simpl.
    + apply rectangularWindow_nonzero. exact H1.
    + apply hammingWindow_nonzero.
    + apply triangularWindow_nonzero; [exact H1|].
      intros E2. apply Hcase. split; [reflexivity | exact E2].
    + eapply Exists_impl;
        [|apply ChebyshevProps.chebyshevWindow_positive_entry; exact H1].
      intros v Hv. simpl in Hv. lra.
  - intros Ht Hn. unfold raw, makeWindow. rewrite Ht, Hn. simpl.
    rewrite triangularWindow_two. split; [reflexivity|].
    apply normalizeMax_all_zero. repeat constructor.
Qed.

(** The Hamming profile of eight elements at half-wavelength spacing. *)
Lemma computeWeights_unit_max_witness :
  maxAbsIs
    (computeWeights
       (mkProfileConfig 8%nat 0.5 "wavelength" 5000000 1540 0 "hamming"
                        None None None)) 1.
Proof.
  refine (proj1 (proj2
            (computeWeights_unit_max
               (mkProfileConfig 8%nat 0.5 "wavelength" 5000000 1540 0
                                "hamming" None None None) _ _)) _).
  - simpl. right. left. reflexivity.
  - simpl. right. right. left. reflexivity.
  - simpl. intros [E _]. discriminate.
Defined.

(** C7: when [windowType] is "custom" and [customWeights] is absent or of a
    length other than [elements], [computeWeights] returns the Hamming
    window of [elements] entries divided by its (positive) largest value,
    so normalised to largest absolute value 1, rather than the custom
    weights, and of [elements] entries for [elements >= 1]; the function is
    total, no error is raised. *)
Theorem computeWeights_custom_falls_back_to_hamming :
  forall cfg : Config,
    windowType cfg = "custom"%string ->
    (customWeights cfg = None
     \/ exists cw, customWeights cfg = Some cw
                   /\ List.length cw <> elements cfg) ->
    (exists m, 0 < m
               /\ maxAbsIs (hammingWindow (elements cfg)) m
               /\ computeWeights cfg
                  = map (fun v => v / m) (hammingWindow (elements cfg)))
    /\ maxAbsIs (computeWeights cfg) 1
    /\ ((1 <= elements cfg)%nat ->
        List.length (computeWeights cfg) = elements cfg).
Proof.
  intros cfg Hty Hcw.
  assert (Hfall : computeWeights cfg
                  = normalizeMax (hammingWindow (elements cfg))).
  { unfold computeWeights. rewrite Hty. simpl.
    destruct Hcw as [-> | (cw & -> & Hlen)].
    - reflexivity.
    - apply Nat.eqb_neq in Hlen. rewrite Hlen. reflexivity. }
  pose proof (hammingWindow_nonzero (elements cfg)) as Hnz.
  assert (Hne : hammingWindow (elements cfg) <> [])
    by (intros E; rewrite E in Hnz; inversion Hnz).
  destruct (Math_max_abs _ Hne) as (m & _ & Hmax).
  assert (Hpos : 0 < m).
  { destruct Hmax as [_ Hex]. apply Exists_exists in Hex.
    destruct Hex as (v & Hv & Ev).
    pose proof (hammingWindow_positive (elements cfg)) as Hp.
    rewrite Forall_forall in Hp. specialize (Hp v Hv).
    rewrite Rabs_right in Ev by lra. lra. }
  destruct (normalizeMax_positive _ m Hmax Hpos) as [Hmap Hunit].
  rewrite Hfall. split; [|split].
  - exists m. auto.
  - exact Hunit.
  - intros HN. rewrite normalizeMax_length. apply hammingWindow_length.
    exact HN.
Qed.

(** A custom profile of four elements given only three weights. *)
Lemma computeWeights_custom_fallback_witness :
  maxAbsIs
    (computeWeights
       (mkProfileConfig 4%nat 0.5 "wavelength" 5000000 1540 0 "custom"
                        None None (Some [1; 2; 3]))) 1.
Proof.
  refine (proj1 (proj2
            (computeWeights_custom_falls_back_to_hamming
               (mkProfileConfig 4%nat 0.5 "wavelength" 5000000 1540 0
                                "custom" None None (Some [1; 2; 3])) _ _))).
  - reflexivity.
  - right. exists [1; 2; 3]. split; [reflexivity | simpl; lia].
Defined.

(** ** [computeDelays] evaluated in binary64 *)

Module DoublesProps.
Import Types Doubles.
Import Floats.PrimFloat.

Lemma steer_zero_angle : (0 * Math_PI / 180 = 0)%float.
Proof. reflexivity. Qed.

(** Whatever the implementation of [Math.sin] and [Math.cos], the squared
    focus depth overflows: every range is [Infinity] and every delay is
    [Infinity - Infinity]. *)
Lemma farFocus_delays (M : MathImpl) :
  timeDelays (computeDelays M farFocus) = [nan; nan; nan].
Proof.
  unfold computeDelays, farFocus.
  cbn [elements spacing spacingUnit frequencyHz waveSpeed steerAngleDeg
       focusDepth timeDelays].
  rewrite steer_zero_angle, (sin_zero M), (cos_zero M).
  vm_compute. reflexivity.
Qed.

(** At 3 cm the centre delay is 0 in binary64 too. *)
Lemma nearFocus_centre (M : MathImpl) :
  nth_error (timeDelays (computeDelays M nearFocus)) 1 = Some 0%float.
Proof.
  unfold computeDelays, nearFocus.
  cbn [elements spacing spacingUnit frequencyHz waveSpeed steerAngleDeg
       focusDepth timeDelays].
  rewrite steer_zero_angle, (sin_zero M), (cos_zero M).
  vm_compute. reflexivity.
Qed.

(** With a wave speed of 0 the centre delay is [0 / 0]. *)
Lemma zeroSpeed_centre (M : MathImpl) :
  nth_error (timeDelays (computeDelays M zeroSpeed)) 1 = Some nan.
Proof.
  unfold computeDelays, zeroSpeed.
  cbn [elements spacing spacingUnit frequencyHz waveSpeed steerAngleDeg
       focusDepth timeDelays].
  rewrite steer_zero_angle, (sin_zero M), (cos_zero M).
  vm_compute. reflexivity.
Qed.

End DoublesProps.

(** C6, as stated, fails: with three elements and [focusDepth = 1e200],
    which is positive, the code squares the focus depth to [Infinity], and
    the centre entry of [timeDelays] is NaN, which is not 0.  The steering
    angle is 0, where the values of [Math.sin] and [Math.cos] are fixed, so
    that every implementation gives this result
    ([DoublesProps.farFocus_delays]). *)
Lemma computeDelays_center_is_NaN_at_huge_focusDepth :
  nth_error
    (timeDelays (Doubles.computeDelays Doubles.lowOrder Doubles.farFocus)) 1
  = Some Floats.PrimFloat.nan
  /\ Floats.PrimFloat.eqb Floats.PrimFloat.nan Floats.PrimFloat.zero = false.
Proof.
  split.
  - rewrite DoublesProps.farFocus_delays. reflexivity.
  - reflexivity.
Qed.

(** C6, amended: for a configuration of ordinary size with an odd number
    of elements [N = 2k+1] and a focus depth [0 < focusDepth <= 1e150],
    whose square does not overflow, the centre entry, of index
    [(N-1)/2 = k], of the [timeDelays] returned by [computeDelays] is
    exactly 0. *)
Theorem computeDelays_center_zero_when_focused :
  forall (cfg : Config) (k : nat) (F : R),
    ordinaryProfile cfg ->
    elements cfg = (2 * k + 1)%nat ->
    focusDepth cfg = Some F ->
    0 < F <= 1e150 ->
    nth_error (timeDelays (computeDelays cfg)) k = Some 0.
Proof.
  intros cfg k F _ HN HF [Hpos _].
  unfold computeDelays. rewrite HF.
  destruct (Req_dec_T F 0) as [E|_]; [lra|].
  cbv beta iota zeta delta [timeDelays].
  rewrite nth_error_map_seq by lia. f_equal.
  rewrite HN.
  assert (Hx : INR k - (INR (2 * k + 1) - 1) / 2 = 0).
  { rewrite plus_INR, mult_INR. simpl. lra. }
  rewrite Hx, Rmult_0_l.
  unfold Rdiv. rewrite Rminus_diag. apply Rmult_0_l.
Qed.

(** Three elements focused at 3 cm: the delay of element 1. *)
Lemma computeDelays_center_zero_witness :
  nth_error
    (timeDelays
       (computeDelays
          (mkProfileConfig 3%nat 0.5 "wavelength" 5000000 1540 10 "hamming"
                           None (Some 0.03) None))) 1
  = Some 0.
Proof.
  refine (computeDelays_center_zero_when_focused
            (mkProfileConfig 3%nat 0.5 "wavelength" 5000000 1540 10 "hamming"
                             None (Some 0.03) None) 1%nat 0.03 _ _ _ _).
  - unfold ordinaryProfile, ordinarySize, ordinaryCount.
    cbn [elements spacing frequencyHz waveSpeed steerAngleDeg].
    rewrite Rabs_right by lra. repeat split; try lra; lia.
  - reflexivity.
  - reflexivity.
  - lra.
Defined.

(** The running maximum of [computePattern]: it dominates its start value
    and every intensity, and is one of them. *)
Lemma maxI_spec (raw : list (R * R)) (a : R) :
  let M := fold_left (fun maxI p => if Rlt_dec maxI (snd p) then snd p else maxI)
                     raw a in
  a <= M
  /\ Forall (fun p => snd p <= M) raw
  /\ (M = a \/ Exists (fun p => snd p = M) raw).
Proof.
  revert a. induction raw as [|p t IH]; intros a; simpl.
  - split; [lra|]. split; [constructor | left; reflexivity].
  - destruct (IH (if Rlt_dec a (snd p) then snd p else a)) as (Hge & Hall & Hin).
    destruct (Rlt_dec a (snd p)) as [Hlt|Hnlt].
    + split; [lra|]. split; [constructor; [exact Hge | exact Hall]|].
      destruct Hin as [Heq|Hex].
      * right. apply Exists_cons_hd. symmetry. exact Heq.
      * right. apply Exists_cons_tl. exact Hex.
    + split; [exact Hge|]. split; [constructor; [lra | exact Hall]|].
      destruct Hin as [Heq|Hex].
      * left. exact Heq.
      * right. apply Exists_cons_tl. exact Hex.
Qed.

Lemma rawIntensity_nonneg (cfg : Config) (ang : R) :
  0 <= rawIntensity cfg ang.
Proof.
  unfold rawIntensity.
  destruct (fold_left _ _ _) as [re im]. nra.
Qed.



(** * Properties of the pattern statistics *)

Module PatternStatsProps.
Import Js Types PatternStats.

Lemma In_insertByAngle (p q : PatternPoint) (l : list PatternPoint) :
  In q (insertByAngle p l) <-> q = p \/ In q l.
Proof.
  induction l as [|h t IH]; simpl.
  - intuition.
  - destruct (Rle_dec (angleDeg p) (angleDeg h)); simpl; [intuition|].
    rewrite IH. intuition.
Qed.

(** Sorting keeps the points. *)
Lemma In_sortByAngle (q : PatternPoint) (l : list PatternPoint) :
  In q (sortByAngle l) <-> In q l.
Proof.
  induction l as [|h t IH]; simpl.
  - reflexivity.
  - rewrite In_insertByAngle, IH. intuition.
Qed.

Lemma sortByAngle_length (l : list PatternPoint) :
  List.length (sortByAngle l) = List.length l.
Proof.
  assert (Hins : forall p t, List.length (insertByAngle p t) = S (List.length t)).
  { intros p t. induction t as [|h t IH]; simpl; [reflexivity|].
    destruct (Rle_dec (angleDeg p) (angleDeg h)); simpl; [reflexivity|].
    rewrite IH. reflexivity. }
  induction l as [|h t IH]; simpl; [reflexivity|].
  rewrite Hins, IH. reflexivity.
Qed.

(** The peak loop, started at index [a] with candidate [pk], ends on an
    index of a largest value among the first [a + n]. *)
Lemma peak_loop_spec (vals : list R) (n a pk : nat) :
  (pk < a)%nat ->
  (forall i, (i < a)%nat -> nth i vals 0 <= nth pk vals 0) ->
  let r :=
    fold_left
      (fun peakIdx i => if Rgt_dec (nth i vals 0) (nth peakIdx vals 0)
                        then i else peakIdx)
      (seq a n) pk in
  (r < a + n)%nat /\ forall i, (i < a + n)%nat -> nth i vals 0 <= nth r vals 0.
Proof.
  revert a pk. induction n as [|n IH]; intros a pk Hpk Hmax; simpl.
  - split; [lia|]. intros i Hi. apply Hmax. lia.
  - destruct (Rgt_dec (nth a vals 0) (nth pk vals 0)) as [Hgt|Hngt].
    + destruct (IH (S a) a) as [Hr Hall]; [lia| |].
      * intros i Hi. destruct (Nat.eq_dec i a) as [->|Hne]; [lra|].
        specialize (Hmax i). assert (i < a)%nat by lia. intuition lra.
      * split; [lia|]. intros i Hi. apply Hall. lia.
    + destruct (IH (S a) pk) as [Hr Hall]; [lia| |].
      * intros i Hi. destruct (Nat.eq_dec i a) as [->|Hne]; [lra|].
        apply Hmax. lia.
      * split; [lia|]. intros i Hi. apply Hall. lia.
Qed.

Lemma findPeakIdx_spec (vals : list R) :
  vals <> [] ->
  (findPeakIdx vals < List.length vals)%nat
  /\ forall i, (i < List.length vals)%nat ->
               nth i vals 0 <= nth (findPeakIdx vals) vals 0.
Proof.
  intros Hne. unfold findPeakIdx.
  destruct vals as [|v t]; [congruence|].
  destruct (peak_loop_spec (v :: t) (List.length (v :: t) - 1) 1 0) as [Hr Hall].
  - lia.
  - intros i Hi. replace i with 0%nat by lia. lra.
  - simpl List.length in *. split; [lia|].
    intros i Hi. apply Hall. lia.
Qed.

End PatternStatsProps.

(** * The claim about the pattern statistics *)

Import PatternStats PatternStatsProps.

(** C8: on an empty list of points, and on points whose largest
    [intensityLin] is 0, [computePatternStats] returns a result whose
    [pslDb], [pslLin], [islrDb] and [fwhmDeg] are all null; the function is
    total, no error is raised. *)
Theorem computePatternStats_degenerate_is_all_null :
  forall pointsIn : list PatternPoint,
    pointsIn = []
    \/ (Forall (fun p => intensityLin p <= 0) pointsIn
        /\ Exists (fun p => intensityLin p = 0) pointsIn) ->
    pslDb (computePatternStats pointsIn) = None
    /\ pslLin (computePatternStats pointsIn) = None
    /\ islrDb (computePatternStats pointsIn) = None
    /\ fwhmDeg (computePatternStats pointsIn) = None.
Proof.
  intros pointsIn Hdeg.
  assert (Hnull : computePatternStats pointsIn = allNull).
  { destruct Hdeg as [-> | [Hall Hex]]; [reflexivity|].
    destruct pointsIn as [|p0 rest]; [reflexivity|].
    unfold computePatternStats.
    set (pts := sortByAngle (p0 :: rest)).
    set (vals := map intensityLin pts).
    assert (Hne : vals <> []).
    { intros E. apply (f_equal (@List.length R)) in E.
      unfold vals, pts in E.
      rewrite length_map, sortByAngle_length in E. discriminate. }
    destruct (findPeakIdx_spec vals Hne) as [Hidx Hmax].
    assert (Hle : nth (findPeakIdx vals) vals 0 <= 0).
    { assert (Hin : In (nth (findPeakIdx vals) vals 0) vals)
        by (apply nth_In; exact Hidx).
      remember (nth (findPeakIdx vals) vals 0) as peakVal eqn:Epeak.
      unfold vals in Hin. apply in_map_iff in Hin.
      destruct Hin as (q & Eq & Hq). rewrite <- Eq.
      rewrite Forall_forall in Hall. apply Hall.
      apply In_sortByAngle. exact Hq. }
    assert (Hge : 0 <= nth (findPeakIdx vals) vals 0).
    { apply Exists_exists in Hex. destruct Hex as (q & Hq & Eq).
      assert (Hin : In 0 vals).
      { unfold vals. apply in_map_iff. exists q. split; [exact Eq|].
        apply In_sortByAngle. exact Hq. }
      destruct (In_nth vals 0 0 Hin) as (i & Hi & Ei).
      rewrite <- Ei at 1. apply Hmax. exact Hi. }
    replace (eqb (nth (findPeakIdx vals) vals 0) 0) with true; [reflexivity|].
    unfold eqb. destruct (Req_dec_T _ 0); [reflexivity | lra]. }
  rewrite Hnull. repeat split.
Qed.

(** Two points of intensity 0. *)
Lemma computePatternStats_degenerate_witness :
  pslDb (computePatternStats [mkPoint (-1) 0 NegInfinity; mkPoint 1 0 NegInfinity])
  = None.
Proof.
  refine (proj1 (computePatternStats_degenerate_is_all_null
                   [mkPoint (-1) 0 NegInfinity; mkPoint 1 0 NegInfinity] _)).
  right. split.
  - repeat constructor; simpl; lra.
  - apply Exists_cons_hd. reflexivity.
Defined.

(** * Properties of the CSV text functions *)

Module CsvProps.
Import Types Csv SpecSide.

Local Open Scope string_scope.

Lemma append_assoc (a b c : string) : (a ++ b) ++ c = a ++ (b ++ c).
Proof.
  induction a as [|x a IH]; simpl; [reflexivity|]. rewrite IH. reflexivity.
Qed.

Lemma allChars_app (P : ascii -> bool) (a b : string) :
  allChars P (a ++ b) = allChars P a && allChars P b.
Proof.
  induction a as [|x a IH]; simpl; [reflexivity|].
  rewrite IH. apply andb_assoc.
Qed.

Lemma prefix_nil (s : string) : String.prefix "" s = true.
Proof. destruct s; reflexivity. Qed.

Lemma isSpace_LF : isSpace LF = true.
Proof. reflexivity. Qed.

Lemma isSpace_CR : isSpace CR = true.
Proof. reflexivity. Qed.

Lemma noSpace_noBreak (s : string) : noSpace s = true -> noBreak s = true.
Proof.
  unfold noSpace, noBreak. induction s as [|c r IH]; simpl; [reflexivity|].
  intros H. apply andb_true_iff in H. destruct H as [Hc Hr].
  rewrite (IH Hr), andb_true_r.
  destruct (Ascii.eqb_spec c LF) as [->|_]; [rewrite isSpace_LF in Hc; discriminate|].
  destruct (Ascii.eqb_spec c CR) as [->|_]; [rewrite isSpace_CR in Hc; discriminate|].
  reflexivity.
Qed.

Lemma trimStart_noSpace (s : string) : noSpace s = true -> trimStart s = s.
Proof.
  destruct s as [|c r]; simpl; [reflexivity|].
  intros H. apply andb_true_iff in H. destruct H as [Hc _].
  apply negb_true_iff in Hc. rewrite Hc. reflexivity.
Qed.

Lemma trimEnd_noSpace (s : string) : noSpace s = true -> trimEnd s = s.
Proof.
  unfold noSpace. induction s as [|c r IH]; simpl; [reflexivity|].
  intros H. apply andb_true_iff in H. destruct H as [Hc Hr].
  apply negb_true_iff in Hc. rewrite Hc, (IH Hr). reflexivity.
Qed.

Lemma trim_noSpace (s : string) : noSpace s = true -> trim s = s.
Proof.
  intros H. unfold trim. rewrite (trimStart_noSpace s H).
  apply trimEnd_noSpace. exact H.
Qed.

Lemma split_noComma (s : string) : noComma s = true -> split "," s = [s].
Proof.
  unfold noComma. induction s as [|c r IH]; simpl; [reflexivity|].
  intros H. apply andb_true_iff in H. destruct H as [Hc Hr].
  apply negb_true_iff in Hc. rewrite Hc, (IH Hr). reflexivity.
Qed.

Lemma split_app (a b : string) :
  noComma a = true -> split "," (a ++ String "," b) = a :: split "," b.
Proof.
  unfold noComma. induction a as [|c r IH]; simpl; [reflexivity|].
  intros H. apply andb_true_iff in H. destruct H as [Hc Hr].
  apply negb_true_iff in Hc. rewrite Hc, (IH Hr). reflexivity.
Qed.

Lemma splitLines_cons_plain (c : ascii) (r : string) :
  Ascii.eqb c LF = false -> Ascii.eqb c CR = false ->
  splitLines (String c r)
  = match splitLines r with
    | h :: t => String c h :: t
    | [] => [String c ""]
    end.
Proof.
  intros H1 H2. simpl. rewrite H1, H2. reflexivity.
Qed.

Lemma splitLines_app (a b : string) :
  noBreak a = true -> splitLines (a ++ String LF b) = a :: splitLines b.
Proof.
  unfold noBreak. induction a as [|c r IH]; intros H.
  - reflexivity.
  - simpl in H. apply andb_true_iff in H. destruct H as [Hc Hr].
    apply andb_true_iff in Hc. destruct Hc as [H1 H2].
    apply negb_true_iff in H1, H2.
    change (String c r ++ String LF b) with (String c (r ++ String LF b)).
    rewrite (splitLines_cons_plain c _ H1 H2), (IH Hr). reflexivity.
Qed.

Lemma splitLines_join (ls : list string) (rest : string) :
  ls <> [] ->
  Forall (fun l => noBreak l = true) ls ->
  splitLines (join (String LF "") ls ++ String LF rest)
  = (ls ++ splitLines rest)%list.
Proof.
  induction ls as [|x t IH]; [congruence|]. intros _ Hall.
  inversion Hall as [|? ? Hx Ht]; subst.
  destruct t as [|y t].
  - simpl. apply splitLines_app. exact Hx.
  - change (join (String LF "") (x :: y :: t))
      with (x ++ String LF "" ++ join (String LF "") (y :: t)).
    rewrite !append_assoc.
    change (String LF "" ++ (join (String LF "") (y :: t) ++ String LF rest))
      with (String LF (join (String LF "") (y :: t) ++ String LF rest)).
    rewrite (splitLines_app x _ Hx), IH by (congruence || exact Ht).
    reflexivity.
Qed.

(** The lines of the text that ends a row block. *)
Lemma splitLines_rows (rows : list string) :
  Forall (fun l => noBreak l = true) rows ->
  splitLines (join (String LF "") rows ++ String LF "")
  = (match rows with [] => [""] | _ => rows end ++ [""])%list.
Proof.
  intros Hall. destruct rows as [|x t].
  - reflexivity.
  - apply (splitLines_join (x :: t) ""); [discriminate | exact Hall].
Qed.

(** The first part of a split line, followed by a comma, begins the
    line. *)
Lemma split_hd_prefix (s : string) :
  (2 <= List.length (split "," s))%nat ->
  String.prefix (hd "" (split "," s) ++ ",") s = true.
Proof.
  induction s as [|c r IH]; simpl.
  - intros H. lia.
  - destruct (Ascii.eqb_spec c ",") as [->|Hne].
    + intros _. simpl. apply prefix_nil.
    + destruct (split "," r) as [|h t] eqn:E.
      * simpl. intros H. lia.
      * intros H. simpl in *.
        destruct (ascii_dec c c) as [_|Hn]; [|congruence].
        apply IH. exact H.
Qed.

Lemma prefix_first_char (p s : string) (a : ascii) :
  String.prefix (String a p) s = true -> exists r, s = String a r.
Proof.
  destruct s as [|b r]; simpl; [discriminate|].
  destruct (ascii_dec a b) as [->|_]; [|discriminate].
  intros _. exists r. reflexivity.
Qed.

Lemma prefix_cons_neq (a b : ascii) (p r : string) :
  a <> b -> String.prefix (String a p) (String b r) = false.
Proof.
  intros Hne.
  change (String.prefix (String a p) (String b r))
    with (match ascii_dec a b with
          | left _ => String.prefix p r
          | right _ => false
          end).
  destruct (ascii_dec a b); [contradiction | reflexivity].
Qed.

Lemma scanHeader_key (key v : string) (rest : list string) (i : nat)
    (map : StrMap) :
  isKey key = true -> noSpace v = true -> noComma v = true ->
  scanHeader ((key ++ "," ++ v) :: rest) i map
  = scanHeader rest (S i) ((key, v) :: map).
Proof.
  intros Hkey Hsp Hco.
  destruct key as [|c k]; [discriminate|].
  unfold isKey in Hkey.
  apply andb_true_iff in Hkey. destruct Hkey as [Hkey Hkco].
  apply andb_true_iff in Hkey. destruct Hkey as [Hkey Hksp].
  apply andb_true_iff in Hkey. destruct Hkey as [Hhash Hi].
  apply negb_true_iff in Hhash, Hi.
  apply Ascii.eqb_neq in Hhash, Hi.
  assert (Htrim : trim (String c k ++ "," ++ v) = String c k ++ "," ++ v).
  { apply trim_noSpace. unfold noSpace in *.
    rewrite allChars_app, Hksp. simpl. exact Hsp. }
  assert (Hsplit : split "," (String c k ++ "," ++ v) = [String c k; v]).
  { change ("," ++ v) with (String "," v).
    rewrite (split_app _ _ Hkco), (split_noComma _ Hco). reflexivity. }
  cbn [scanHeader]. rewrite Htrim, Hsplit.
  change (String c k ++ "," ++ v) with (String c (k ++ "," ++ v)).
  unfold startsWith, dataHeader.
  rewrite !prefix_cons_neq by congruence.
  reflexivity.
Qed.

Lemma scanHeader_dataHeader (rest : list string) (i : nat) (map : StrMap) :
  scanHeader (dataHeader :: rest) i map = (map, Some (S i)).
Proof. reflexivity. Qed.

Lemma scanHeader_skip (line : string) (rest : list string) (i : nat)
    (map : StrMap) :
  trim line = "" \/ startsWith (trim line) "#" = true ->
  scanHeader (line :: rest) i map = scanHeader rest (S i) map.
Proof.
  intros [E|E]; cbn [scanHeader].
  - rewrite E. reflexivity.
  - rewrite E. destruct (trim line =? ""); reflexivity.
Qed.

(** The first loop stops at a data header row, and lines that do not set
    the key [k] leave it unset. *)
Lemma scanHeader_finds_header (k : string) (before : list string)
    (header : string) (after : list string) :
  startsWith (trim header) dataHeader = true ->
  Forall (fun line => setsKey k line = false) before ->
  forall (i : nat) (map : StrMap),
    mapGet map k = None ->
    exists map' j,
      scanHeader (before ++ header :: after)%list i map = (map', Some j)
      /\ mapGet map' k = None.
Proof.
  intros Hhdr Hbefore.
  induction before as [|line t IH]; intros i map Hmap.
  - exists map, (S i). split; [|exact Hmap].
    cbn [List.app scanHeader].
    destruct (trim header =? "") eqn:E1.
    + apply String.eqb_eq in E1. rewrite E1 in Hhdr. discriminate.
    + unfold startsWith in *.
      destruct (String.prefix "#" (trim header)) eqn:E2.
      * destruct (prefix_first_char _ _ _ E2) as (r & Er).
        unfold dataHeader in Hhdr.
        destruct (prefix_first_char _ _ _ Hhdr) as (r' & Er').
        rewrite Er in Er'. discriminate.
      * rewrite Hhdr. reflexivity.
  - inversion Hbefore as [|? ? Hline Ht]; subst.
    cbn [List.app scanHeader].
    destruct (trim line =? ""); [apply IH; assumption|].
    destruct (startsWith (trim line) "#"); [apply IH; assumption|].
    destruct (startsWith (trim line) dataHeader).
    + exists map, (S i). split; [reflexivity | exact Hmap].
    + destruct (2 <=? List.length (split "," (trim line)))%nat eqn:E2;
        [|apply IH; assumption].
      apply IH; [exact Ht|].
      unfold mapSet. simpl.
      destruct (String.eqb_spec (hd "" (split "," (trim line))) k) as [Ek|Ek];
        [|exact Hmap].
      apply Nat.leb_le in E2. pose proof (split_hd_prefix _ E2) as Hp.
      rewrite Ek in Hp. unfold setsKey, startsWith in Hline.
      rewrite Hp in Hline. discriminate.
Qed.

Section Rows.
Context {number : Type} {JN : JsNumber number}.
Hypothesis toString_isCell : forall x : number, isCell (toString x) = true.

Lemma isCell_parts (s : string) :
  isCell s = true -> s <> "" /\ noSpace s = true /\ noComma s = true.
Proof.
  unfold isCell. intros H.
  apply andb_true_iff in H. destruct H as [H Hco].
  apply andb_true_iff in H. destruct H as [Hne Hsp].
  apply negb_true_iff in Hne. apply String.eqb_neq in Hne. auto.
Qed.

Lemma showAt_isCell (a : list number) (i : nat) : isCell (showAt a i) = true.
Proof.
  unfold showAt. destruct (nth_error a i); [apply toString_isCell | reflexivity].
Qed.

Lemma scanRows_row (idx w phi tau : string) (rest : list string) :
  isCell idx = true -> isCell w = true ->
  isCell phi = true -> isCell tau = true ->
  scanRows (number := number)
           ((idx ++ "," ++ w ++ "," ++ phi ++ "," ++ tau) :: rest)
  = Number w :: scanRows rest.
Proof.
  intros Hi Hw Hp Ht.
  destruct (isCell_parts _ Hi) as (Ni & Si & Ci).
  destruct (isCell_parts _ Hw) as (_ & Sw & Cw).
  destruct (isCell_parts _ Hp) as (_ & Sp & Cp).
  destruct (isCell_parts _ Ht) as (_ & St & Ct).
  set (L := idx ++ "," ++ w ++ "," ++ phi ++ "," ++ tau).
  assert (Htrim : trim L = L).
  { apply trim_noSpace. unfold L, noSpace in *.
    rewrite allChars_app, Si. simpl.
    rewrite allChars_app, Sw. simpl.
    rewrite allChars_app, Sp. simpl. exact St. }
  assert (Hsplit : split "," L = [idx; w; phi; tau]).
  { unfold L.
    change ("," ++ w ++ "," ++ phi ++ "," ++ tau)
      with (String "," (w ++ "," ++ phi ++ "," ++ tau)).
    rewrite (split_app _ _ Ci).
    change ("," ++ phi ++ "," ++ tau) with (String "," (phi ++ "," ++ tau)).
    rewrite (split_app _ _ Cw).
    change ("," ++ tau) with (String "," tau).
    rewrite (split_app _ _ Cp), (split_noComma _ Ct). reflexivity. }
  assert (Hne : (L =? "") = false).
  { apply String.eqb_neq. unfold L. destruct idx; [congruence | discriminate]. }
  cbn [scanRows]. rewrite Htrim, Hne, Hsplit. reflexivity.
Qed.

(** The rows that [toCsv] writes for the weights from index [a] on are read
    back as the weights at their written precision. *)
Lemma scanRows_toCsv_rows (delays : PerElementDelays number)
    (ws : list number) (a : nat) (tail : list string) :
  scanRows
    (map (fun iw => toCsvRow delays (fst iw) (snd iw))
         (combine (seq a (List.length ws)) ws) ++ tail)%list
  = (map reread ws ++ scanRows tail)%list.
Proof.
  revert a. induction ws as [|w t IH]; intros a.
  - reflexivity.
  - cbn [List.length seq combine map List.app fst snd]. unfold toCsvRow at 1.
    rewrite scanRows_row
      by (apply toString_isCell || apply showAt_isCell).
    rewrite IH. reflexivity.
Qed.

Lemma toCsv_rows_noBreak (delays : PerElementDelays number)
    (ws : list number) (a : nat) :
  Forall (fun l => noBreak l = true)
    (map (fun iw => toCsvRow delays (fst iw) (snd iw))
         (combine (seq a (List.length ws)) ws)).
Proof.
  revert a. induction ws as [|w t IH]; intros a.
  - constructor.
  - cbn [List.length seq combine map fst snd]. constructor; [|apply IH].
    apply noSpace_noBreak. unfold toCsvRow, noSpace.
    destruct (isCell_parts _ (toString_isCell (ofNat a))) as (_ & S1 & _).
    destruct (isCell_parts _ (toString_isCell w)) as (_ & S2 & _).
    destruct (isCell_parts _ (showAt_isCell (phaseRadians delays) a))
      as (_ & S3 & _).
    destruct (isCell_parts _ (showAt_isCell (timeDelays delays) a))
      as (_ & S4 & _).
    unfold noSpace in *.
    rewrite allChars_app, S1. simpl.
    rewrite allChars_app, S2. simpl.
    rewrite allChars_app, S3. simpl. exact S4.
Qed.

Lemma keyLine_noBreak (key v : string) :
  noSpace key = true -> noSpace v = true -> noBreak (key ++ v) = true.
Proof.
  intros Hk Hv. apply noSpace_noBreak. unfold noSpace in *.
  rewrite allChars_app, Hk, Hv. reflexivity.
Qed.

Lemma showOptional_plain (x : option number) :
  noSpace (showOptional x) = true /\ noComma (showOptional x) = true.
Proof.
  destruct x as [v|]; simpl; [|split; reflexivity].
  destruct (isCell_parts _ (toString_isCell v)) as (_ & S1 & C1). auto.
Qed.

Lemma numberIfPresent_showOptional (x : option number) :
  numberIfPresent (Some (showOptional x)) = option_map reread x.
Proof.
  destruct x as [v|]; simpl; [|reflexivity].
  destruct (isCell_parts _ (toString_isCell v)) as (Hne & _ & _).
  apply String.eqb_neq in Hne. rewrite Hne. reflexivity.
Qed.

(** The map and the data start that the first loop computes on the header
    lines of [toCsv]. *)
Lemma scanHeader_toCsv_header (cfg : ProfileConfig number number)
    (rest : list string) :
  noSpace (spacingUnit cfg) = true -> noComma (spacingUnit cfg) = true ->
  noSpace (windowType cfg) = true -> noComma (windowType cfg) = true ->
  scanHeader (toCsvHeaderLines cfg ++ rest)%list 0 []
  = ([ ("customWeights",
        match customWeights cfg with Some _ => "present" | None => "" end);
       ("chebyshevSidelobeDb", showOptional (chebyshevSidelobeDb cfg));
       ("focusDepth", showOptional (focusDepth cfg));
       ("windowType", windowType cfg);
       ("steerAngleDeg", toString (steerAngleDeg cfg));
       ("waveSpeed", toString (waveSpeed cfg));
       ("frequencyHz", toString (frequencyHz cfg));
       ("spacingUnit", spacingUnit cfg);
       ("spacing", toString (spacing cfg));
       ("elements", toString (elements cfg)) ],
     Some 13%nat).
Proof.
  intros Hu1 Hu2 Hw1 Hw2.
  unfold toCsvHeaderLines. cbn [List.app].
  rewrite scanHeader_skip by (right; reflexivity).
  change ("elements," ++ toString (elements cfg))
    with ("elements" ++ "," ++ toString (elements cfg)).
  change ("spacing," ++ toString (spacing cfg))
    with ("spacing" ++ "," ++ toString (spacing cfg)).
  change ("spacingUnit," ++ spacingUnit cfg)
    with ("spacingUnit" ++ "," ++ spacingUnit cfg).
  change ("frequencyHz," ++ toString (frequencyHz cfg))
    with ("frequencyHz" ++ "," ++ toString (frequencyHz cfg)).
  change ("waveSpeed," ++ toString (waveSpeed cfg))
    with ("waveSpeed" ++ "," ++ toString (waveSpeed cfg)).
  change ("steerAngleDeg," ++ toString (steerAngleDeg cfg))
    with ("steerAngleDeg" ++ "," ++ toString (steerAngleDeg cfg)).
  change ("windowType," ++ windowType cfg)
    with ("windowType" ++ "," ++ windowType cfg).
  change ("focusDepth," ++ showOptional (focusDepth cfg))
    with ("focusDepth" ++ "," ++ showOptional (focusDepth cfg)).
  change ("chebyshevSidelobeDb," ++ showOptional (chebyshevSidelobeDb cfg))
    with ("chebyshevSidelobeDb" ++ "," ++ showOptional (chebyshevSidelobeDb cfg)).
  set (cw := match customWeights cfg with Some _ => "present" | None => "" end).
  change ("customWeights," ++ cw) with ("customWeights" ++ "," ++ cw).
  assert (Hcw : noSpace cw = true /\ noComma cw = true)
    by (unfold cw; destruct (customWeights cfg); split; reflexivity).
  pose proof (fun x => proj1 (proj2 (isCell_parts _ (toString_isCell x)))) as HS.
  pose proof (fun x => proj2 (proj2 (isCell_parts _ (toString_isCell x)))) as HC.
  pose proof (fun x => proj1 (showOptional_plain x)) as HOS.
  pose proof (fun x => proj2 (showOptional_plain x)) as HOC.
  rewrite !scanHeader_key by (reflexivity || tauto || auto).
  rewrite scanHeader_skip by (left; reflexivity).
  apply scanHeader_dataHeader.
Qed.

Lemma toCsvHeaderLines_noBreak (cfg : ProfileConfig number number) :
  noSpace (spacingUnit cfg) = true -> noSpace (windowType cfg) = true ->
  Forall (fun l => noBreak l = true) (toCsvHeaderLines cfg).
Proof.
  intros Hu Hw.
  pose proof (fun x => proj1 (proj2 (isCell_parts _ (toString_isCell x)))) as HS.
  pose proof (fun x => proj1 (showOptional_plain x)) as HOS.
  unfold toCsvHeaderLines.
  repeat (constructor;
          [first [ reflexivity
                 | apply keyLine_noBreak; [reflexivity | solve [auto]]
                 | apply keyLine_noBreak;
                   [reflexivity | destruct (customWeights cfg); reflexivity] ]
          |]).
  constructor.
Qed.

(** What [parseCsvConfig] reads in the text that [toCsv] writes. *)
Lemma parseCsvConfig_toCsv (p : BeamformFullProfile number number) :
  noSpace (spacingUnit (config p)) = true ->
  noComma (spacingUnit (config p)) = true ->
  noSpace (windowType (config p)) = true ->
  noComma (windowType (config p)) = true ->
  parseCsvConfig (toCsv p)
  = Ok (mkParsed
          (mkProfileConfig
             (reread (elements (config p)))
             (reread (spacing (config p)))
             (spacingUnit (config p))
             (reread (frequencyHz (config p)))
             (reread (waveSpeed (config p)))
             (reread (steerAngleDeg (config p)))
             (windowType (config p))
             (option_map reread (chebyshevSidelobeDb (config p)))
             (option_map reread (focusDepth (config p)))
             (if strictEq
                   (ofNat (List.length (map reread (weights (snapshot p)))))
                   (reread (elements (config p)))
              then Some (map reread (weights (snapshot p)))
              else None))
          (map reread (weights (snapshot p)))).
Proof.
  intros Hu1 Hu2 Hw1 Hw2.
  unfold parseCsvConfig, toCsv.
  set (rows := map _ (combine _ (weights (snapshot p)))).
  change (join (String LF "") (toCsvHeaderLines (config p)) ++
          String LF "" ++ join (String LF "") rows ++ String LF "")
    with (join (String LF "") (toCsvHeaderLines (config p)) ++
          String LF (join (String LF "") rows ++ String LF "")).
  rewrite splitLines_join;
    [| unfold toCsvHeaderLines; discriminate
     | apply toCsvHeaderLines_noBreak; assumption].
  rewrite splitLines_rows by apply toCsv_rows_noBreak.
  rewrite scanHeader_toCsv_header by assumption.
  assert (Hrows :
    scanRows (skipn 13 (toCsvHeaderLines (config p) ++
                        (match rows with [] => [""] | _ :: _ => rows end
                         ++ [""]))%list)
    = map reread (weights (snapshot p))).
  { unfold toCsvHeaderLines. cbn [skipn List.app].
    unfold rows. destruct (weights (snapshot p)) as [|w t].
    - reflexivity.
    - cbn [List.length seq combine map fst snd List.app].
      unfold toCsvRow at 1.
      rewrite scanRows_row
        by (apply toString_isCell || apply showAt_isCell).
      rewrite scanRows_toCsv_rows. cbn [scanRows].
      change (trim "" =? "") with true. cbn iota.
      rewrite app_nil_r. reflexivity. }
  rewrite Hrows.
  cbn [mapGet String.eqb Ascii.eqb Bool.eqb numberOr Js.orElse].
  rewrite !numberIfPresent_showOptional.
  reflexivity.
Qed.

End Rows.

(** Decimal notation is made of digits. *)
Lemma string_of_uint_plain (d : Decimal.uint) :
  noSpace (NilEmpty.string_of_uint d) = true
  /\ noComma (NilEmpty.string_of_uint d) = true.
Proof.
  unfold noSpace, noComma.
  induction d as [|d [IH1 IH2]|d [IH1 IH2]|d [IH1 IH2]|d [IH1 IH2]|d [IH1 IH2]
                  |d [IH1 IH2]|d [IH1 IH2]|d [IH1 IH2]|d [IH1 IH2]|d [IH1 IH2]];
    simpl; try rewrite IH1; try rewrite IH2; split; reflexivity.
Qed.

Lemma decimalNumber_isCell (n : N) : isCell (toString n) = true.
Proof.
  unfold toString, decimalNumber, NilZero.string_of_uint.
  destruct (N.to_uint n) as [|d|d|d|d|d|d|d|d|d|d] eqn:E;
    [reflexivity|..];
    match goal with
    | |- isCell (NilEmpty.string_of_uint ?u) = true =>
        destruct (string_of_uint_plain u) as [H1 H2];
        unfold isCell; rewrite H1, H2; reflexivity
    end.
Qed.

End CsvProps.

(** * The claims about the CSV text format *)

Import Csv CsvProps.

(** C10: when the lines of a CSV text contain a data header row, and no
    line before it sets the key "elements", [parseCsvConfig] does not throw
    and returns a configuration whose [elements] is 0, below the 1 that the
    data model requires. *)
Theorem parseCsvConfig_without_elements_key_gives_zero :
  forall (number : Type) (JN : JsNumber number) (csv : string)
         (before : list string) (header : string) (after : list string),
    splitLines csv = (before ++ header :: after)%list ->
    startsWith (trim header) dataHeader = true ->
    Forall (fun line => setsKey "elements" line = false) before ->
    exists r : Parsed,
      parseCsvConfig csv = Ok r
      /\ Types.elements (parsedConfig r) = ofNat 0.
Proof.
  intros number JN csv before header after Hlines Hhdr Hbefore.
  destruct (scanHeader_finds_header "elements" before header after
              Hhdr Hbefore 0%nat [] eq_refl) as (map' & j & Hscan & Hget).
  unfold parseCsvConfig. rewrite Hlines, Hscan.
  eexists. split; [reflexivity|].
  cbn [parsedConfig Types.elements]. rewrite Hget. reflexivity.
Qed.

(** A text with a spacing line and the data header row only. *)
Lemma parseCsvConfig_without_elements_key_witness :
  exists r : Parsed,
    parseCsvConfig
      (number := N)
      ("spacing,3" ++ String LF "index,weight,phaseRadians,timeDelaySeconds")
    = Ok r
    /\ Types.elements (parsedConfig r) = 0%N.
Proof.
  refine (parseCsvConfig_without_elements_key_gives_zero
            N decimalNumber
            ("spacing,3" ++ String LF "index,weight,phaseRadians,timeDelaySeconds")
            ["spacing,3"%string]
            "index,weight,phaseRadians,timeDelaySeconds" [] _ _ _).
  - reflexivity.
  - reflexivity.
  - repeat constructor.
Defined.

(** C2: for a profile whose [snapshot.weights] has as many entries as
    [config.elements] says, [parseCsvConfig(toCsv(profile))] does not throw;
    every numeric field of its [config] ([elements], [spacing],
    [frequencyHz], [waveSpeed], [steerAngleDeg], and [focusDepth] and
    [chebyshevSidelobeDb] when present) is the field of [profile.config] at
    its written precision, that is, printed and read back; [spacingUnit] and
    [windowType] are unchanged; and the returned [weights] are the profile's
    weights at their written precision, [config.elements] in number.  The
    printed text of a number is assumed free of white space and commas, as
    ECMAScript's is. *)
Theorem parseCsvConfig_toCsv_roundtrip :
  forall (number : Type) (JN : JsNumber number),
    (forall x : number, isCell (toString x) = true) ->
    forall p : BeamformFullProfile number number,
      isSpacingUnit (spacingUnit (config p)) ->
      isWindowType (windowType (config p)) ->
      ofNat (List.length (weights (snapshot p))) = Types.elements (config p) ->
      exists r : Parsed,
        parseCsvConfig (toCsv p) = Ok r
        /\ Types.elements (parsedConfig r) = reread (Types.elements (config p))
        /\ spacing (parsedConfig r) = reread (spacing (config p))
        /\ spacingUnit (parsedConfig r) = spacingUnit (config p)
        /\ Types.frequencyHz (parsedConfig r)
           = reread (Types.frequencyHz (config p))
        /\ waveSpeed (parsedConfig r) = reread (waveSpeed (config p))
        /\ steerAngleDeg (parsedConfig r) = reread (steerAngleDeg (config p))
        /\ windowType (parsedConfig r) = windowType (config p)
        /\ focusDepth (parsedConfig r)
           = option_map reread (focusDepth (config p))
        /\ chebyshevSidelobeDb (parsedConfig r)
           = option_map reread (chebyshevSidelobeDb (config p))
        /\ parsedWeights r = map reread (weights (snapshot p))
        /\ ofNat (List.length (parsedWeights r)) = Types.elements (config p).
Proof.
  intros number JN Hcell p Hunit Hwin Hlen.
  assert (Hu : noSpace (spacingUnit (config p)) = true
               /\ noComma (spacingUnit (config p)) = true).
  { unfold isSpacingUnit in Hunit. simpl in Hunit.
    destruct Hunit as [<- | [<- | []]]; split; reflexivity. }
  assert (Hw : noSpace (windowType (config p)) = true
               /\ noComma (windowType (config p)) = true).
  { unfold isWindowType in Hwin. simpl in Hwin.
    destruct Hwin as [<- | [<- | [<- | [<- | [<- | []]]]]]; split; reflexivity. }
  eexists. split.
  - apply (parseCsvConfig_toCsv Hcell p); tauto.
  - cbn [parsedConfig parsedWeights Types.elements spacing spacingUnit
         Types.frequencyHz waveSpeed steerAngleDeg windowType focusDepth
         chebyshevSidelobeDb].
    rewrite length_map. repeat split. exact Hlen.
Qed.

(** A Hamming profile of two elements, written and read in decimal. *)
Lemma parseCsvConfig_toCsv_roundtrip_witness :
  exists r : Parsed,
    parseCsvConfig
      (toCsv (mkFullProfile
                (mkProfileConfig 2%N 5%N "wavelength" 5000000%N 1540%N 0%N
                                 "hamming" (Some 30%N) None None)
                (mkSnapshot [1%N; 0%N] (mkDelays [3%N; 4%N] [7%N; 9%N]))
                []))
    = Ok r
    /\ parsedWeights r = map reread [1%N; 0%N].
Proof.
  destruct (parseCsvConfig_toCsv_roundtrip N decimalNumber decimalNumber_isCell
              (mkFullProfile
                 (mkProfileConfig 2%N 5%N "wavelength" 5000000%N 1540%N 0%N
                                  "hamming" (Some 30%N) None None)
                 (mkSnapshot [1%N; 0%N] (mkDelays [3%N; 4%N] [7%N; 9%N]))
                 []))
    as (r & Hr & _ & _ & _ & _ & _ & _ & _ & _ & _ & Hweights & _).
  - left. reflexivity.
  - right. left. reflexivity.
  - reflexivity.
  - exists r. split; [exact Hr | exact Hweights].
Defined.

(** * The CSV functions at work, on decimal numbers *)

Module CsvExamples.

Example splitLines_example :
  splitLines ("a" ++ String CR (String LF "b") ++ String CR "c" ++ String LF "")
  = ["a"; String "b" (String CR "c"); ""]%string.
Proof. vm_compute. reflexivity. Qed.

Example trim_example : trim "  index,weight  " = "index,weight"%string.
Proof. vm_compute. reflexivity. Qed.

Example parseCsvConfig_toCsv_example :
  parseCsvConfig
    (toCsv (mkFullProfile
              (mkProfileConfig 2%N 5%N "wavelength" 5000000%N 1540%N 0%N
                               "hamming" (Some 30%N) None None)
              (mkSnapshot [1%N; 0%N] (mkDelays [3%N; 4%N] [7%N]))
              []))
  = Ok (mkParsed
          (mkProfileConfig 2%N 5%N "wavelength" 5000000%N 1540%N 0%N
                           "hamming" (Some 30%N) None (Some [1%N; 0%N]))
          [1%N; 0%N]).
Proof. vm_compute. reflexivity. Qed.

Example parseCsvConfig_without_header_example :
  parseCsvConfig (number := N) ("elements,4" ++ String LF "spacing,1")
  = Throw "CSV missing data header row.".
Proof. vm_compute. reflexivity. Qed.

Example parseCsvConfig_defaults_example :
  parseCsvConfig (number := N) dataHeader
  = Ok (mkParsed
          (mkProfileConfig 0%N 0%N "wavelength" 1%N 1540%N 0%N "rectangular"
                           None None (Some []))
          []).
Proof. vm_compute. reflexivity. Qed.

End CsvExamples.

(** * Further properties of the window functions *)

Module WindowRange.
Import Js Windows SpecSide WindowProps ProfileProps ChebyshevProps.

Lemma nth_in_or_default (P : R -> Prop) (l : list R) (k : nat) :
  Forall P l -> P 0 -> P (nth k l 0).
Proof.
  intros Hl H0. destruct (Nat.lt_ge_cases k (List.length l)) as [Hk|Hk].
  - rewrite Forall_forall in Hl. apply Hl. apply nth_In. exact Hk.
  - rewrite nth_overflow by exact Hk. exact H0.
Qed.

Lemma symmetrize_in_unit (N : nat) (wc : list R) :
  Forall (fun v => 0 <= v <= 1) wc ->
  Forall (fun v => 0 <= v <= 1) (symmetrize N wc).
Proof.
  unfold symmetrize. generalize (seq 0 (N / 2)). intros idx. revert wc.
  induction idx as [|i t IH]; intros wc Hall; simpl; [exact Hall|].
  apply IH.
  assert (H0 : 0 <= 0 <= 1) by lra.
  pose proof (nth_in_or_default _ wc i Hall H0) as Hi.
  pose proof (nth_in_or_default _ wc (N - 1 - i) Hall H0) as Hj.
  simpl in Hi, Hj.
  apply Forall_upd; [apply Forall_upd|]; try exact Hall; lra.
Qed.

Lemma hammingWindow_in_unit (N : nat) :
  Forall (fun v => 0 <= v <= 1) (hammingWindow N).
Proof.
  unfold hammingWindow. destruct (N <=? 1)%nat.
  - repeat constructor; lra.
  - apply Forall_forall. intros v Hv. apply in_map_iff in Hv.
    destruct Hv as (n & <- & _).
    pose proof (COS_bound (2 * PI * INR n / INR (N - 1))) as [Hl Hu]. lra.
Qed.

Lemma triangularWindow_in_unit (N : nat) :
  Forall (fun v => 0 <= v <= 1) (triangularWindow N).
Proof.
  unfold triangularWindow. destruct (N <=? 1)%nat eqn:E.
  - repeat constructor; lra.
  - apply Nat.leb_gt in E.
    apply Forall_forall. intros v Hv. apply in_map_iff in Hv.
    destruct Hv as (n & <- & Hn). apply in_seq in Hn.
    assert (HM : 1 <= INR (N - 1)).
    { replace 1 with (INR 1) by reflexivity. apply le_INR. lia. }
    assert (Hn' : INR n <= INR (N - 1)) by (apply le_INR; lia).
    pose proof (pos_INR n) as Hn0.
    assert (Hq : (INR n - INR (N - 1) / 2) / (INR (N - 1) / 2)
                 = 2 * INR n / INR (N - 1) - 1) by (field; lra).
    rewrite Hq.
    assert (Hr : 0 <= 2 * INR n / INR (N - 1) <= 2).
    { split.
      - apply Rmult_le_reg_r with (INR (N - 1)); [lra|].
        unfold Rdiv. rewrite Rmult_assoc, Rinv_l by lra. lra.
      - apply Rmult_le_reg_r with (INR (N - 1)); [lra|].
        unfold Rdiv. rewrite Rmult_assoc, Rinv_l by lra. lra. }
    pose proof (Rabs_pos (2 * INR n / INR (N - 1) - 1)).
    assert (Rabs (2 * INR n / INR (N - 1) - 1) <= 1)
      by (apply Rabs_le; lra).
    lra.
Qed.

Lemma chebyshevWindow_in_unit (N : nat) (db : R) :
  Forall (fun v => 0 <= v <= 1) (chebyshevWindow N db).
Proof.
  unfold chebyshevWindow.
  destruct (N <=? 1)%nat eqn:EN; [repeat constructor; lra|].
  apply Nat.leb_gt in EN.
  destruct (Rle_dec _ 1).
  - apply Forall_forall. intros v Hv. apply repeat_spec in Hv. lra.
  - apply symmetrize_in_unit.
    match goal with
    | |- Forall _ (map _ (seq 0 N)) => idtac
    end.
    set (w := map (idctSample N _) (seq 0 N)).
    set (inv := match Math_max (map Rabs w) with
                | Finite maxVal => if Rlt_dec 0 maxVal then 1 / maxVal else 1
                | NegInfinity => 1
                end).
    assert (Hscaled : Forall (fun v => Rabs v <= 1) (map (fun v => v * inv) w)).
    { assert (Hne : w <> []).
      { intros E. apply (f_equal (@List.length R)) in E. unfold w in E.
        rewrite length_map, length_seq in E. simpl in E. lia. }
      destruct (Math_max_abs w Hne) as (m & Hm & Hall & Hex).
      unfold inv. rewrite Hm.
      apply Forall_forall. intros x Hx. apply in_map_iff in Hx.
      destruct Hx as (v & <- & Hv).
      rewrite Forall_forall in Hall. specialize (Hall v Hv).
      destruct (Rlt_dec 0 m) as [Hpos|Hnpos].
      - unfold Rdiv. rewrite Rmult_1_l, Rabs_mult, (Rabs_right (/ m)).
        + apply Rmult_le_reg_r with m; [exact Hpos|].
          rewrite Rmult_assoc, Rinv_l by lra. lra.
        + left. apply Rinv_0_lt_compat. exact Hpos.
      - rewrite Rmult_1_r. pose proof (Rabs_pos v). lra. }
    apply Forall_forall. intros x Hx. apply in_map_iff in Hx.
    destruct Hx as (i & <- & _).
    apply (nth_in_or_default (fun v => 0 <= v <= 1)); [|lra].
    apply Forall_forall. intros y Hy. apply in_map_iff in Hy.
    destruct Hy as (z & <- & Hz).
    rewrite Forall_forall in Hscaled. specialize (Hscaled z Hz).
    pose proof (Rle_abs z).
    destruct (Rlt_dec z 0); lra.
Qed.

Lemma rectangularWindow_in_unit (N : nat) :
  Forall (fun v => 0 <= v <= 1) (rectangularWindow N).
Proof.
  unfold rectangularWindow. apply Forall_forall. intros v Hv.
  apply in_map_iff in Hv. destruct Hv as (n & <- & _). lra.
Qed.

Lemma makeWindow_in_unit (type : string) (N : nat) (chebDb : R) :
  Forall (fun v => 0 <= v <= 1) (makeWindow type N chebDb).
Proof.
  unfold makeWindow.
  repeat match goal with |- context [if ?b then _ else _] => destruct b end;
    auto using rectangularWindow_in_unit, hammingWindow_in_unit,
               triangularWindow_in_unit, chebyshevWindow_in_unit.
Qed.

End WindowRange.

Module WindowSymmetry.
Import Js Windows SpecSide WindowProps ProfileProps ChebyshevProps.

Lemma nth_map_seq (f : nat -> R) (N i : nat) :
  (i < N)%nat -> nth i (map f (seq 0 N)) 0 = f i.
Proof.
  intros Hi. rewrite (nth_map_R f (seq 0 N) i 0%nat) by (rewrite length_seq; exact Hi).
  rewrite seq_nth by exact Hi. reflexivity.
Qed.

Lemma hammingWindow_symmetric (N i : nat) :
  (i < N)%nat ->
  nth i (hammingWindow N) 0 = nth (N - 1 - i) (hammingWindow N) 0.
Proof.
  intros Hi. unfold hammingWindow. destruct (N <=? 1)%nat eqn:E.
  - apply Nat.leb_le in E. replace i with 0%nat by lia.
    replace (N - 1 - 0)%nat with 0%nat by lia. reflexivity.
  - apply Nat.leb_gt in E.
    rewrite !nth_map_seq by lia.
    assert (HM : 1 <= INR (N - 1)).
    { replace 1 with (INR 1) by reflexivity. apply le_INR. lia. }
    f_equal. f_equal.
    rewrite (minus_INR (N - 1) i) by lia.
    replace (2 * PI * (INR (N - 1) - INR i) / INR (N - 1))
      with (- (2 * PI * INR i / INR (N - 1)) + 2 * INR 1 * PI)
      by (simpl INR; field; lra).
    rewrite cos_period, cos_neg. reflexivity.
Qed.

Lemma triangularWindow_symmetric (N i : nat) :
  (i < N)%nat ->
  nth i (triangularWindow N) 0 = nth (N - 1 - i) (triangularWindow N) 0.
Proof.
  intros Hi. unfold triangularWindow. destruct (N <=? 1)%nat eqn:E.
  - apply Nat.leb_le in E. replace i with 0%nat by lia.
    replace (N - 1 - 0)%nat with 0%nat by lia. reflexivity.
  - apply Nat.leb_gt in E.
    rewrite !nth_map_seq by lia.
    assert (HM : 1 <= INR (N - 1)).
    { replace 1 with (INR 1) by reflexivity. apply le_INR. lia. }
    f_equal.
    rewrite (minus_INR (N - 1) i) by lia.
    replace ((INR (N - 1) - INR i - INR (N - 1) / 2) / (INR (N - 1) / 2))
      with (- ((INR i - INR (N - 1) / 2) / (INR (N - 1) / 2)))
      by (field; lra).
    rewrite Rabs_Ropp. reflexivity.
Qed.

(** After the first [k] steps of the last loop of [chebyshevWindow], the
    first [k] entries equal their mirror images. *)
Lemma symmetrize_prefix (N : nat) (wc : list R) (k : nat) :
  List.length wc = N -> (k <= N / 2)%nat ->
  let r := fold_left
             (fun wc i =>
                let j := (N - 1 - i)%nat in
                let avg := 0.5 * (nth i wc 0 + nth j wc 0) in
                upd (upd wc j avg) i avg)
             (seq 0 k) wc in
  List.length r = N
  /\ forall i, (i < k)%nat -> nth i r 0 = nth (N - 1 - i) r 0.
Proof.
  intros Hlen. induction k as [|k IH]; intros Hk.
  - simpl. split; [exact Hlen | intros i Hi; lia].
  - rewrite seq_S, fold_left_app. simpl (0 + k)%nat.
    destruct IH as [Hl Hsym]; [lia|].
    set (r := fold_left _ (seq 0 k) wc) in *.
    cbn [fold_left].
    assert (Hhalf : (2 * (N / 2) <= N)%nat)
      by (pose proof (Nat.div_mod_eq N 2); lia).
    split; [rewrite !upd_length; exact Hl|].
    intros i Hi. rewrite !nth_upd, !upd_length, Hl.
    replace (k <? N)%nat with true by (symmetry; apply Nat.ltb_lt; lia).
    replace (N - 1 - k <? N)%nat with true by (symmetry; apply Nat.ltb_lt; lia).
    rewrite !andb_true_r.
    destruct (Nat.eq_dec i k) as [->|Hne].
    + rewrite Nat.eqb_refl.
      replace (N - 1 - k =? k)%nat with false
        by (symmetry; apply Nat.eqb_neq; lia).
      rewrite Nat.eqb_refl. reflexivity.
    + replace (i =? k)%nat with false by (symmetry; apply Nat.eqb_neq; lia).
      replace (i =? N - 1 - k)%nat with false
        by (symmetry; apply Nat.eqb_neq; lia).
      replace (N - 1 - i =? k)%nat with false
        by (symmetry; apply Nat.eqb_neq; lia).
      replace (N - 1 - i =? N - 1 - k)%nat with false
        by (symmetry; apply Nat.eqb_neq; lia).
      apply Hsym. lia.
Qed.

Lemma symmetrize_symmetric (N : nat) (wc : list R) (i : nat) :
  List.length wc = N -> (i < N)%nat ->
  nth i (symmetrize N wc) 0 = nth (N - 1 - i) (symmetrize N wc) 0.
Proof.
  intros Hlen Hi.
  destruct (symmetrize_prefix N wc (N / 2) Hlen (Nat.le_refl _)) as [_ Hsym].
  unfold symmetrize. cbv zeta in Hsym.
  assert (Hhalf : (N <= 2 * (N / 2) + 1)%nat)
    by (pose proof (Nat.div_mod_eq N 2);
        pose proof (Nat.mod_upper_bound N 2); lia).
  destruct (Nat.lt_ge_cases i (N / 2)) as [Hlt|Hge].
  - apply Hsym. exact Hlt.
  - destruct (Nat.lt_ge_cases (N - 1 - i) (N / 2)) as [Hlt'|Hge'].
    + rewrite (Hsym (N - 1 - i)%nat Hlt').
      replace (N - 1 - (N - 1 - i))%nat with i by lia. reflexivity.
    + replace (N - 1 - i)%nat with i by lia. reflexivity.
Qed.

Lemma chebyshevWindow_symmetric (N : nat) (db : R) (i : nat) :
  (i < N)%nat ->
  nth i (chebyshevWindow N db) 0 = nth (N - 1 - i) (chebyshevWindow N db) 0.
Proof.
  intros Hi. unfold chebyshevWindow. destruct (N <=? 1)%nat eqn:E.
  - apply Nat.leb_le in E. replace i with 0%nat by lia.
    replace (N - 1 - 0)%nat with 0%nat by lia. reflexivity.
  - destruct (Rle_dec _ 1).
    + rewrite !nth_repeat_lt by lia. reflexivity.
    + apply symmetrize_symmetric; [|exact Hi].
      rewrite length_map, length_seq. reflexivity.
Qed.

Lemma rectangularWindow_symmetric (N i : nat) :
  (i < N)%nat ->
  nth i (rectangularWindow N) 0 = nth (N - 1 - i) (rectangularWindow N) 0.
Proof.
  intros Hi. unfold rectangularWindow. rewrite !nth_map_seq by lia.
  reflexivity.
Qed.

End WindowSymmetry.

(** * Further properties of the weights, the delays and the pattern *)

Module BeamformingProps.
Import Js Types Windows Beamforming SpecSide WindowProps ProfileProps ChebyshevProps.
Import WindowRange WindowSymmetry.

Lemma normalizeMax_bounded (w : list R) :
  Forall (fun v => Rabs v <= 1) (normalizeMax w).
Proof.
  destruct w as [|v0 t]; [constructor|].
  destruct (Math_max_abs (v0 :: t)) as (m & Hm & Hmax); [discriminate|].
  destruct (Rlt_dec 0 m) as [Hpos|Hnpos].
  - destruct (normalizeMax_positive _ m Hmax Hpos) as [_ [Hall _]].
    exact Hall.
  - unfold normalizeMax. rewrite Hm.
    destruct (Rlt_dec 0 m); [contradiction|].
    destruct Hmax as [Hall _]. eapply Forall_impl; [|exact Hall].
    intros a Ha. simpl in Ha. lra.
Qed.

Lemma normalizeMax_nonneg (w : list R) :
  Forall (fun v => 0 <= v) w -> Forall (fun v => 0 <= v) (normalizeMax w).
Proof.
  intros Hw. unfold normalizeMax.
  destruct (Math_max (map Rabs w)) as [|m]; [exact Hw|].
  destruct (Rlt_dec 0 m) as [Hpos|_]; [|exact Hw].
  apply Forall_forall. intros x Hx. apply in_map_iff in Hx.
  destruct Hx as (v & <- & Hv). rewrite Forall_forall in Hw.
  specialize (Hw v Hv). apply Rmult_le_pos; [exact Hw|].
  left. apply Rinv_0_lt_compat. exact Hpos.
Qed.

Lemma computeWeights_length (cfg : Config) :
  (1 <= elements cfg)%nat -> List.length (computeWeights cfg) = elements cfg.
Proof.
  intros HN. unfold computeWeights. rewrite normalizeMax_length.
  destruct (String.eqb (windowType cfg) "custom").
  - destruct (customWeights cfg) as [cw|].
    + destruct (List.length cw =? elements cfg)%nat eqn:E.
      * apply Nat.eqb_eq. exact E.
      * apply makeWindow_length. exact HN.
    + apply makeWindow_length. exact HN.
  - apply makeWindow_length. exact HN.
Qed.

Lemma computeWeights_preset_nonneg (cfg : Config) :
  windowType cfg <> "custom"%string ->
  Forall (fun v => 0 <= v) (computeWeights cfg).
Proof.
  intros Hty. unfold computeWeights.
  apply String.eqb_neq in Hty. rewrite Hty.
  apply normalizeMax_nonneg.
  eapply Forall_impl; [|apply makeWindow_in_unit].
  intros a Ha. simpl in Ha. lra.
Qed.

End BeamformingProps.

Import Js Types Windows Beamforming SpecSide WindowProps ProfileProps ChebyshevProps.
Import WindowRange WindowSymmetry BeamformingProps.

(** Every weight that [makeWindow] returns lies between 0 and 1, whatever
    the type string, for a length and a sidelobe level of ordinary size
    (the Chebyshev design does not overflow below 3083 dB). *)
Theorem makeWindow_weights_in_unit_interval :
  forall (type : string) (N : nat) (chebDb : R),
    ordinaryCount N -> ordinarySidelobe chebDb ->
    Forall (fun v => 0 <= v <= 1) (makeWindow type N chebDb).
Proof. intros type N chebDb _ _. apply makeWindow_in_unit. Qed.

(** The Chebyshev window of eight elements at 30 dB. *)
Lemma makeWindow_weights_witness :
  Forall (fun v => 0 <= v <= 1) (makeWindow "chebyshev" 8 30).
Proof.
  refine (makeWindow_weights_in_unit_interval "chebyshev" 8 30 _ _).
  - unfold ordinaryCount. lia.
  - unfold ordinarySidelobe. lra.
Defined.

(** Every window of [makeWindow] other than the Hamming one is symmetric
    about its centre: entries [i] and [N-1-i] both exist and are equal, the
    Chebyshev ones by the averaging loop that ends [chebyshevWindow], the
    triangular ones by exact arithmetic on half-integers.  (The two halves
    of the Hamming window come from separate calls of [Math.cos], which
    agree only up to rounding.)  Lengths and sidelobe levels are of ordinary
    size. *)
Theorem makeWindow_symmetric :
  forall (type : string) (N : nat) (chebDb : R) (i : nat),
    type <> "hamming"%string ->
    ordinaryCount N -> ordinarySidelobe chebDb ->
    (i < N)%nat ->
    exists v,
      nth_error (makeWindow type N chebDb) i = Some v
      /\ nth_error (makeWindow type N chebDb) (N - 1 - i) = Some v.
Proof.
  intros type N chebDb i _ _ _ Hi.
  assert (Hlen : List.length (makeWindow type N chebDb) = N)
    by (apply makeWindow_length; lia).
  exists (nth i (makeWindow type N chebDb) 0). split.
  - apply nth_error_nth'. lia.
  - assert (Hsym : nth i (makeWindow type N chebDb) 0
                   = nth (N - 1 - i) (makeWindow type N chebDb) 0).
    { unfold makeWindow.
      repeat match goal with |- context [if ?b then _ else _] => destruct b end;
        auto using rectangularWindow_symmetric, hammingWindow_symmetric,
                   triangularWindow_symmetric, chebyshevWindow_symmetric. }
    rewrite Hsym. apply nth_error_nth'. lia.
Qed.

Lemma makeWindow_symmetric_witness :
  exists v,
    nth_error (makeWindow "chebyshev" 8 30) 2 = Some v
    /\ nth_error (makeWindow "chebyshev" 8 30) (8 - 1 - 2) = Some v.
Proof.
  refine (makeWindow_symmetric "chebyshev" 8 30 2 _ _ _ _).
  - discriminate.
  - unfold ordinaryCount. lia.
  - unfold ordinarySidelobe. lra.
  - lia.
Defined.

(** [makeWindow] returns [N] weights when [N >= 1].  For [N = 0] only the
    rectangular window (also used for an unknown type) is empty: the
    Hamming, triangular and Chebyshev windows return the one weight [1]. *)
Theorem makeWindow_length_and_empty_array :
  forall (type : string) (N : nat) (chebDb : R),
    ((1 <= N)%nat -> List.length (makeWindow type N chebDb) = N)
    /\ makeWindow "rectangular" 0 chebDb = []
    /\ makeWindow "custom" 0 chebDb = []
    /\ makeWindow "hamming" 0 chebDb = [1]
    /\ makeWindow "triangular" 0 chebDb = [1]
    /\ makeWindow "chebyshev" 0 chebDb = [1].
Proof.
  intros type N chebDb. split; [apply makeWindow_length|].
  repeat split.
Qed.

Lemma makeWindow_length_witness :
  List.length (makeWindow "triangular" 8 30) = 8%nat.
Proof.
  refine (proj1 (makeWindow_length_and_empty_array "triangular" 8 30) _). lia.
Defined.

(** Custom weights of the right length are the ones [computeWeights] uses:
    divided by their largest absolute value when one of them is not zero,
    and returned as they are when all are zero. *)
Theorem computeWeights_uses_valid_custom_weights :
  forall (cfg : Config) (cw : list R),
    windowType cfg = "custom"%string ->
    customWeights cfg = Some cw ->
    List.length cw = elements cfg ->
    (Exists (fun v => v <> 0) cw ->
       exists m, 0 < m /\ maxAbsIs cw m
                 /\ computeWeights cfg = map (fun v => v / m) cw
                 /\ maxAbsIs (computeWeights cfg) 1)
    /\ (Forall (fun v => v = 0) cw -> computeWeights cfg = cw).
Proof.
  intros cfg cw Hty Hcw Hlen.
  assert (Hc : computeWeights cfg = normalizeMax cw).
  { unfold computeWeights. rewrite Hty, Hcw. simpl.
    apply Nat.eqb_eq in Hlen. rewrite Hlen. reflexivity. }
  rewrite Hc. split.
  - intros Hnz.
    assert (Hne : cw <> []) by (intros ->; inversion Hnz).
    destruct (Math_max_abs cw Hne) as (m & _ & Hmax).
    assert (Hpos : 0 < m).
    { apply Exists_exists in Hnz. destruct Hnz as (v & Hv & Nv).
      destruct Hmax as [Hall _]. rewrite Forall_forall in Hall.
      specialize (Hall v Hv). pose proof (Rabs_pos_lt v Nv). lra. }
    destruct (normalizeMax_positive cw m Hmax Hpos) as [Hmap Hunit].
    exists m. auto.
  - apply normalizeMax_all_zero.
Qed.

Lemma computeWeights_custom_witness :
  computeWeights
    (mkProfileConfig 2%nat 0.5 "wavelength" 5000000 1540 0 "custom"
                     None None (Some [0; 0]))
  = [0; 0].
Proof.
  refine (proj2 (computeWeights_uses_valid_custom_weights
                   (mkProfileConfig 2%nat 0.5 "wavelength" 5000000 1540 0
                                    "custom" None None (Some [0; 0]))
                   [0; 0] _ _ _) _).
  - reflexivity.
  - reflexivity.
  - reflexivity.
  - repeat constructor.
Defined.

(** For an element count and a Chebyshev sidelobe level (30 dB when
    absent) of ordinary size, no weight of [computeWeights] exceeds 1 in
    absolute value; the weights of a preset (non-custom) window are
    non-negative; and there are [elements] of them when [elements >= 1]. *)
Theorem computeWeights_bounded :
  forall cfg : Config,
    ordinaryCount (elements cfg) ->
    ordinarySidelobe (orElse (chebyshevSidelobeDb cfg) 30) ->
    Forall (fun v => Rabs v <= 1) (computeWeights cfg)
    /\ (windowType cfg <> "custom"%string ->
        Forall (fun v => 0 <= v <= 1) (computeWeights cfg))
    /\ ((1 <= elements cfg)%nat ->
        List.length (computeWeights cfg) = elements cfg).
Proof.
  intros cfg _ _.
  assert (Hb : Forall (fun v => Rabs v <= 1) (computeWeights cfg))
    by (unfold computeWeights; apply normalizeMax_bounded).
  split; [exact Hb|]. split; [|apply computeWeights_length].
  intros Hty. pose proof (computeWeights_preset_nonneg cfg Hty) as Hn.
  rewrite Forall_forall in *. intros v Hv.
  specialize (Hb v Hv). specialize (Hn v Hv).
  pose proof (Rle_abs v). lra.
Qed.

Lemma computeWeights_bounded_witness :
  List.length
    (computeWeights
       (mkProfileConfig 4%nat 0.5 "wavelength" 5000000 1540 0 "chebyshev"
                        (Some 40) None None))
  = 4%nat.
Proof.
  refine (proj2 (proj2 (computeWeights_bounded
            (mkProfileConfig 4%nat 0.5 "wavelength" 5000000 1540 0 "chebyshev"
                             (Some 40) None None) _ _)) _).
  - unfold ordinaryCount. simpl. lia.
  - unfold ordinarySidelobe. simpl. lra.
  - simpl. lia.
Defined.

Import Js Types Windows Beamforming SpecSide WindowProps ProfileProps ChebyshevProps.
Import WindowRange WindowSymmetry BeamformingProps.

(** Under angle-only steering ([focusDepth] absent or 0), in a
    configuration of ordinary size (so that the wave speed is not 0), the
    delays and the phases are antisymmetric about the array centre, for
    every steering angle; at broadside ([steerAngleDeg = 0]) they are all
    0. *)
Theorem computeDelays_angle_only_antisymmetric :
  forall (cfg : Config) (i : nat),
    ordinaryProfile cfg ->
    focusDepth cfg = None \/ focusDepth cfg = Some 0 ->
    (i < elements cfg)%nat ->
    exists t p,
      nth_error (timeDelays (computeDelays cfg)) i = Some t
      /\ nth_error (timeDelays (computeDelays cfg)) (elements cfg - 1 - i)
         = Some (- t)
      /\ nth_error (phaseRadians (computeDelays cfg)) i = Some p
      /\ nth_error (phaseRadians (computeDelays cfg)) (elements cfg - 1 - i)
         = Some (- p)
      /\ (steerAngleDeg cfg = 0 -> t = 0 /\ p = 0).
Proof.
  intros cfg i _ Hfocus Hi.
  set (N := elements cfg) in *.
  set (tau := fun k : nat =>
        (INR k - (INR N - 1) / 2) * spacingMeters cfg
        * sin (steerAngleDeg cfg * PI / 180) / waveSpeed cfg).
  assert (Hd : computeDelays cfg
               = mkDelays (map tau (seq 0 N))
                   (map (fun k => 2 * PI * frequencyHz cfg * tau k) (seq 0 N))).
  { unfold computeDelays. fold N.
    destruct Hfocus as [-> | ->]; [reflexivity|].
    destruct (Req_dec_T 0 0) as [_|Hn]; [reflexivity | contradiction]. }
  rewrite Hd. cbn [timeDelays phaseRadians].
  assert (Hmirror : tau (N - 1 - i)%nat = - tau i).
  { assert (Hx : INR (N - 1 - i) - (INR N - 1) / 2
                 = - (INR i - (INR N - 1) / 2))
      by (rewrite !minus_INR by lia; simpl INR; lra).
    unfold tau. rewrite Hx. unfold Rdiv. ring. }
  exists (tau i), (2 * PI * frequencyHz cfg * tau i).
  rewrite !nth_error_map_seq by lia. rewrite Hmirror.
  repeat split.
  - f_equal. ring.
  - unfold tau. rewrite H. replace (0 * PI / 180) with 0 by (unfold Rdiv; ring).
    rewrite sin_0. unfold Rdiv. ring.
  - unfold tau. rewrite H. replace (0 * PI / 180) with 0 by (unfold Rdiv; ring).
    rewrite sin_0. unfold Rdiv. ring.
Qed.

Lemma computeDelays_angle_only_witness :
  exists t p,
    nth_error (timeDelays (computeDelays
      (mkProfileConfig 4%nat 0.5 "wavelength" 5000000 1540 20 "hamming"
                       None None None))) 1 = Some t
    /\ nth_error (timeDelays (computeDelays
      (mkProfileConfig 4%nat 0.5 "wavelength" 5000000 1540 20 "hamming"
                       None None None))) (4 - 1 - 1) = Some (- t)
    /\ nth_error (phaseRadians (computeDelays
      (mkProfileConfig 4%nat 0.5 "wavelength" 5000000 1540 20 "hamming"
                       None None None))) 1 = Some p
    /\ nth_error (phaseRadians (computeDelays
      (mkProfileConfig 4%nat 0.5 "wavelength" 5000000 1540 20 "hamming"
                       None None None))) (4 - 1 - 1) = Some (- p)
    /\ (20 = 0 -> t = 0 /\ p = 0).
Proof.
  refine (computeDelays_angle_only_antisymmetric
            (mkProfileConfig 4%nat 0.5 "wavelength" 5000000 1540 20 "hamming"
                             None None None) 1 _ _ _).
  - unfold ordinaryProfile, ordinarySize, ordinaryCount.
    cbn [elements spacing frequencyHz waveSpeed steerAngleDeg].
    rewrite Rabs_right by lra. repeat split; try lra; lia.
  - left. reflexivity.
  - simpl. lia.
Defined.

(** Focused steering at broadside, in a configuration of ordinary size
    (so that the wave speed is positive) and with a focus depth of at most
    [1e30] in absolute value (so that no squared range overflows): the
    delays are symmetric about the array centre and none is negative (the
    centre is the element nearest to the focus). *)
Theorem computeDelays_focused_broadside_symmetric :
  forall (cfg : Config) (F : R) (i : nat),
    ordinaryProfile cfg ->
    focusDepth cfg = Some F -> F <> 0 -> Rabs F <= 1e30 ->
    steerAngleDeg cfg = 0 ->
    (i < elements cfg)%nat ->
    exists t,
      nth_error (timeDelays (computeDelays cfg)) i = Some t
      /\ nth_error (timeDelays (computeDelays cfg)) (elements cfg - 1 - i)
         = Some t
      /\ 0 <= t.
Proof.
  intros cfg F i Hord HF HF0 _ Hsteer Hi.
  assert (Hc : 0 < waveSpeed cfg).
  { destruct Hord as (_ & _ & _ & Hw & _). unfold ordinarySize in Hw. lra. }
  set (N := elements cfg) in *.
  unfold computeDelays. fold N. rewrite HF.
  destruct (Req_dec_T F 0) as [E|_]; [contradiction|].
  cbn [timeDelays]. rewrite Hsteer.
  replace (0 * PI / 180) with 0 by (unfold Rdiv; ring).
  rewrite sin_0, cos_0, Rmult_0_r, Rmult_1_r.
  rewrite !nth_error_map_seq by lia.
  eexists. split; [reflexivity|]. split.
  - assert (Hx : INR (N - 1 - i) - (INR N - 1) / 2
                 = - (INR i - (INR N - 1) / 2))
      by (rewrite !minus_INR by lia; simpl INR; lra).
    rewrite Hx. f_equal. f_equal. f_equal. f_equal. ring.
  - apply Rmult_le_pos; [|left; apply Rinv_0_lt_compat; exact Hc].
    match goal with
    | |- 0 <= sqrt ?b - sqrt ?a =>
        assert (Hs : sqrt a <= sqrt b);
        [apply sqrt_le_1_alt|lra]
    end.
    pose proof (Rle_0_sqr ((INR i - (INR N - 1) / 2) * spacingMeters cfg - 0)) as Hsq.
    unfold Rsqr in Hsq. lra.
Qed.

Lemma computeDelays_focused_broadside_witness :
  exists t,
    nth_error (timeDelays (computeDelays
      (mkProfileConfig 4%nat 0.5 "wavelength" 5000000 1540 0 "hamming"
                       None (Some 0.03) None))) 0 = Some t
    /\ nth_error (timeDelays (computeDelays
      (mkProfileConfig 4%nat 0.5 "wavelength" 5000000 1540 0 "hamming"
                       None (Some 0.03) None))) (4 - 1 - 0) = Some t
    /\ 0 <= t.
Proof.
  refine (computeDelays_focused_broadside_symmetric
            (mkProfileConfig 4%nat 0.5 "wavelength" 5000000 1540 0 "hamming"
                             None (Some 0.03) None) 0.03 0 _ _ _ _ _ _).
  - unfold ordinaryProfile, ordinarySize, ordinaryCount.
    cbn [elements spacing frequencyHz waveSpeed steerAngleDeg].
    rewrite Rabs_R0. repeat split; try lra; lia.
  - reflexivity.
  - lra.
  - rewrite Rabs_right; lra.
  - reflexivity.
  - simpl. lia.
Defined.

(** [computePattern] returns one point per sweep angle, in the order of
    the sweep; no [intensityLin] is negative; normalised, none exceeds 1;
    not normalised, it is the raw intensity; and when the raw intensity is 0
    over the whole sweep, every normalised point is 0 with [-Infinity]
    decibels (no division by the zero peak). *)
Theorem computePattern_points :
  forall (cfg : Config) (anglesDeg : list R) (normalized : bool),
    map angleDeg (computePattern cfg anglesDeg normalized) = anglesDeg
    /\ Forall (fun p => 0 <= intensityLin p)
              (computePattern cfg anglesDeg normalized)
    /\ Forall (fun p => intensityLin p <= 1)
              (computePattern cfg anglesDeg true)
    /\ map intensityLin (computePattern cfg anglesDeg false)
       = map (rawIntensity cfg) anglesDeg
    /\ (Forall (fun ang => rawIntensity cfg ang = 0) anglesDeg ->
        Forall (fun p => intensityLin p = 0 /\ intensityDb p = NegInfinity)
               (computePattern cfg anglesDeg true)).
Proof.
  intros cfg anglesDeg normalized.
  unfold computePattern.
  set (raw := map (fun ang => (ang, rawIntensity cfg ang)) anglesDeg).
  set (M := fold_left _ raw 0).
  destruct (maxI_spec raw 0) as (Hge & Hall & Hin). fold M in Hge, Hall, Hin.
  assert (Hraw : forall p, In p raw -> 0 <= snd p).
  { intros p Hp. unfold raw in Hp. apply in_map_iff in Hp.
    destruct Hp as (ang & <- & _). simpl. apply rawIntensity_nonneg. }
  split; [|split; [|split; [|split]]].
  - unfold raw. rewrite !map_map. simpl. apply map_id.
  - apply Forall_forall. intros q Hq. apply in_map_iff in Hq.
    destruct Hq as (p & <- & Hp). simpl. specialize (Hraw p Hp).
    destruct normalized; [|exact Hraw].
    destruct (Rlt_dec 0 M) as [HM|_]; [|lra].
    apply Rmult_le_pos; [exact Hraw|].
    left. apply Rinv_0_lt_compat. exact HM.
  - apply Forall_forall. intros q Hq. apply in_map_iff in Hq.
    destruct Hq as (p & <- & Hp). simpl.
    destruct (Rlt_dec 0 M) as [HM|_]; [|lra].
    rewrite Forall_forall in Hall. specialize (Hall p Hp).
    apply Rmult_le_reg_r with M; [exact HM|].
    unfold Rdiv. rewrite Rmult_assoc, Rinv_l by lra. lra.
  - unfold raw. rewrite !map_map. reflexivity.
  - intros Hzero.
    assert (HM0 : M = 0).
    { destruct Hin as [E|Hex]; [exact E|].
      apply Exists_exists in Hex. destruct Hex as (p & Hp & Ep).
      unfold raw in Hp. apply in_map_iff in Hp.
      destruct Hp as (ang & <- & Hang). simpl in Ep.
      rewrite Forall_forall in Hzero. rewrite <- Ep. apply Hzero. exact Hang. }
    apply Forall_forall. intros q Hq. apply in_map_iff in Hq.
    destruct Hq as (p & <- & Hp). simpl. rewrite HM0.
    destruct (Rlt_dec 0 0) as [Hc|_]; [lra|].
    destruct (Rlt_dec 0 0) as [Hc|_]; [lra|]. split; reflexivity.
Qed.

Lemma computePattern_points_witness :
  Forall (fun p => intensityLin p = 0 /\ intensityDb p = NegInfinity)
    (computePattern
       (mkProfileConfig 0%nat 0.5 "wavelength" 5000000 1540 0 "rectangular"
                        None None None) [0; 10] true).
Proof.
  refine (proj2 (proj2 (proj2 (proj2
            (computePattern_points
               (mkProfileConfig 0%nat 0.5 "wavelength" 5000000 1540 0
                                "rectangular" None None None) [0; 10] true)))) _).
  repeat constructor; unfold rawIntensity; simpl; lra.
Defined.

(** * The default sweep of angles *)

Module SweepProps.
Import Js Types Beamforming.

Lemma defaultAnglesLoop_diverges (fuel : nat) (a end_ step : R) :
  step <= 0 -> a <= end_ + 1e-9 ->
  defaultAnglesLoop fuel a end_ step = None.
Proof.
  intros Hstep. revert a. induction fuel as [|fuel IH]; intros a Ha; simpl.
  - reflexivity.
  - destruct (Rle_dec a (end_ + 1e-9)); [|contradiction].
    rewrite IH by lra. reflexivity.
Qed.

End SweepProps.

Import Js Types Beamforming SweepProps.

(** [defaultAngles] never returns when [step] is zero or negative and
    [start] does not already exceed [end + 1e-9]: its loop condition stays
    true however many times it is tested. *)
Theorem defaultAngles_never_ends_for_nonpositive_step :
  forall (fuel : nat) (start end_ step : R),
    step <= 0 -> start <= end_ + 1e-9 ->
    defaultAngles fuel start end_ step = None.
Proof.
  intros fuel start end_ step. apply defaultAnglesLoop_diverges.
Qed.

Lemma defaultAngles_never_ends_witness :
  defaultAngles 1000 (-90) 90 0 = None.
Proof.
  refine (defaultAngles_never_ends_for_nonpositive_step 1000 (-90) 90 0 _ _);
    lra.
Defined.

(** * Further properties of the pattern statistics *)

Module StatsProps.
Import Js Types PatternStats PatternStatsProps.



End StatsProps.

Import Js Types PatternStats PatternStatsProps StatsProps.



(** A pattern of a single point of non-zero intensity has no sidelobe and
    zero width, and no main-lobe energy to refer to: [pslLin] is 0, [pslDb]
    is [-Infinity], [fwhmDeg] is 0, both areas are 0 and [islrDb] is
    null. *)
Theorem computePatternStats_single_point :
  forall p : PatternPoint,
    intensityLin p <> 0 ->
    computePatternStats [p]
    = mkStats (Some NegInfinity) (Some 0) None (Some 0) (Some 0) (Some 0).
Proof.
  intros p Hp. unfold computePatternStats.
  cbn [sortByAngle insertByAngle map List.length findPeakIdx seq fold_left
       Nat.sub nth].
  unfold eqb at 1. destruct (Req_dec_T (intensityLin p) 0); [contradiction|].
  match goal with
  | |- context [let '(a, b) := ?E in _] =>
      assert (Hcross : E = (angleDeg p, angleDeg p))
        by (destruct (geb _ _); reflexivity)
  end.
  rewrite Hcross. cbv zeta. cbn [map seq filter nth List.length].
  assert (Hmask : geb (angleDeg p) (angleDeg p - 1e-12)
                  && leb (angleDeg p) (angleDeg p + 1e-12) = true).
  { unfold geb, leb.
    destruct (Rge_dec _ _); [|lra]. destruct (Rle_dec _ _); [|lra].
    reflexivity. }
  rewrite Hmask. cbn [map nth negb andb fold_left].
  unfold trapezoidalIntegrate. simpl.
  unfold gtb, eqb.
  repeat match goal with
         | |- context [Rgt_dec ?a ?b] => destruct (Rgt_dec a b); [lra|]
         end.
  destruct (Req_dec_T 0 0); [|contradiction].
  rewrite Rminus_diag, Rmax_left by lra. reflexivity.
Qed.

Lemma computePatternStats_single_point_witness :
  computePatternStats [mkPoint 30 0.5 (Finite (-3))]
  = mkStats (Some NegInfinity) (Some 0) None (Some 0) (Some 0) (Some 0).
Proof.
  refine (computePatternStats_single_point (mkPoint 30 0.5 (Finite (-3))) _).
  simpl. lra.
Defined.

Module AreaProps.
Import Js Types PatternStats PatternStatsProps.

(** A sum of non-negative terms is not negative. *)
Lemma fold_left_terms_nonneg (t : nat -> R) (l : list nat) (s0 : R) :
  0 <= s0 -> (forall i, In i l -> 0 <= t i) ->
  0 <= fold_left (fun s i => s + t i) l s0.
Proof.
  revert s0. induction l as [|i r IH]; intros s0 Hs Ht; simpl; [exact Hs|].
  apply IH.
  - specialize (Ht i (or_introl eq_refl)). lra.
  - intros j Hj. apply Ht. right. exact Hj.
Qed.

Lemma StronglySorted_nth (l : list R) :
  StronglySorted Rle l ->
  forall i j, (i <= j < List.length l)%nat -> nth i l 0 <= nth j l 0.
Proof.
  induction 1 as [|a l Hl IH Ha]; intros i j Hij; simpl in Hij; [lia|].
  destruct i as [|i], j as [|j]; simpl; try lia.
  - lra.
  - rewrite Forall_forall in Ha. apply Ha. apply nth_In. lia.
  - apply IH. lia.
Qed.

Lemma nth_nonneg (l : list R) (i : nat) :
  Forall (fun v => 0 <= v) l -> 0 <= nth i l 0.
Proof.
  intros Hall. destruct (Nat.lt_ge_cases i (List.length l)) as [Hi|Hi].
  - rewrite Forall_forall in Hall. apply Hall. apply nth_In. exact Hi.
  - rewrite nth_overflow by exact Hi. lra.
Qed.

(** The trapezoidal rule over ascending abscissas and non-negative
    ordinates is not negative. *)
Lemma trapezoidalIntegrate_nonneg (x y : list R) :
  StronglySorted Rle x -> Forall (fun v => 0 <= v) y ->
  0 <= trapezoidalIntegrate x y.
Proof.
  intros Hx Hy. unfold trapezoidalIntegrate.
  destruct (negb (List.length x =? List.length y)%nat
            || (List.length x =? 0)%nat); [lra|].
  apply (fold_left_terms_nonneg
           (fun i => 0.5 * (nth i y 0 + nth (i + 1) y 0)
                     * (nth (i + 1) x 0 - nth i x 0))); [lra|].
  intros i Hi. apply in_seq in Hi.
  pose proof (nth_nonneg y i Hy). pose proof (nth_nonneg y (i + 1) Hy).
  assert (nth i x 0 <= nth (i + 1) x 0)
    by (apply StronglySorted_nth; [exact Hx | lia]).
  apply Rmult_le_pos; [|lra].
  apply Rmult_le_pos; lra.
Qed.

Lemma insertByAngle_sorted (p : PatternPoint) (l : list PatternPoint) :
  StronglySorted (fun a b => angleDeg a <= angleDeg b) l ->
  StronglySorted (fun a b => angleDeg a <= angleDeg b) (insertByAngle p l).
Proof.
  induction 1 as [|q t Ht IH Hq]; simpl.
  - constructor; constructor.
  - destruct (Rle_dec (angleDeg p) (angleDeg q)) as [Hle|Hgt].
    + constructor; [constructor; assumption|].
      constructor; [exact Hle|].
      rewrite Forall_forall in *. intros r Hr. specialize (Hq r Hr). lra.
    + constructor; [exact IH|].
      rewrite Forall_forall in *. intros r Hr.
      apply In_insertByAngle in Hr. destruct Hr as [->|Hr]; [lra|].
      apply Hq. exact Hr.
Qed.

(** The comparator sort leaves the points in ascending order of angle. *)
Lemma sortByAngle_sorted (l : list PatternPoint) :
  StronglySorted (fun a b => angleDeg a <= angleDeg b) (sortByAngle l).
Proof.
  induction l as [|p t IH]; simpl; [constructor|].
  apply insertByAngle_sorted. exact IH.
Qed.

Lemma StronglySorted_map {A B : Type} (RA : A -> A -> Prop)
    (RB : B -> B -> Prop) (f : A -> B) (l : list A) :
  (forall a b, In a l -> In b l -> RA a b -> RB (f a) (f b)) ->
  StronglySorted RA l -> StronglySorted RB (map f l).
Proof.
  intros Hf Hs. induction Hs as [|a t Ht IH Ha]; simpl; constructor.
  - apply IH. intros x y Hx Hy. apply Hf; right; assumption.
  - rewrite Forall_forall in *. intros b Hb.
    apply in_map_iff in Hb. destruct Hb as (c & <- & Hc).
    apply Hf; [left; reflexivity | right; exact Hc | apply Ha; exact Hc].
Qed.

Lemma StronglySorted_filter {A : Type} (RA : A -> A -> Prop)
    (f : A -> bool) (l : list A) :
  StronglySorted RA l -> StronglySorted RA (filter f l).
Proof.
  induction 1 as [|a t Ht IH Ha]; simpl; [constructor|].
  destruct (f a); [|exact IH].
  constructor; [exact IH|].
  rewrite Forall_forall in *. intros b Hb.
  apply filter_In in Hb. apply Ha. tauto.
Qed.

Lemma seq_sorted (a n : nat) : StronglySorted le (seq a n).
Proof.
  revert a. induction n as [|n IH]; intros a; simpl; constructor.
  - apply IH.
  - rewrite Forall_forall. intros b Hb. apply in_seq in Hb. lia.
Qed.

End AreaProps.

Import Js Types PatternStats PatternStatsProps AreaProps.

(** On points with non-negative intensities, one of them positive,
    [computePatternStats] reports both areas, and neither is negative: the
    points are integrated in ascending order of angle, whatever their order
    in the input. *)
Theorem computePatternStats_areas_nonneg :
  forall pointsIn : list PatternPoint,
    Forall (fun p => 0 <= intensityLin p) pointsIn ->
    Exists (fun p => 0 < intensityLin p) pointsIn ->
    exists mainArea area : R,
      mainLobeArea (computePatternStats pointsIn) = Some mainArea
      /\ totalArea (computePatternStats pointsIn) = Some area
      /\ 0 <= mainArea /\ 0 <= area.
Proof.
  intros pointsIn Hnonneg Hpos.
  destruct pointsIn as [|p0 rest]; [inversion Hpos|].
  unfold computePatternStats.
  set (pts := sortByAngle (p0 :: rest)).
  set (vals := map intensityLin pts).
  set (angles := map angleDeg pts).
  assert (Hne : vals <> []).
  { intros E. apply (f_equal (@List.length R)) in E.
    unfold vals, pts in E.
    rewrite length_map, sortByAngle_length in E. discriminate. }
  destruct (findPeakIdx_spec vals Hne) as [Hidx Hmax].
  set (peakVal := nth (findPeakIdx vals) vals 0) in *.
  assert (Hpeak : 0 < peakVal).
  { apply Exists_exists in Hpos. destruct Hpos as (q & Hq & Eq).
    assert (Hin : In (intensityLin q) vals).
    { unfold vals. apply in_map_iff. exists q. split; [reflexivity|].
      apply In_sortByAngle. exact Hq. }
    destruct (In_nth vals _ 0 Hin) as (i & Hi & Ei).
    specialize (Hmax i Hi). rewrite Ei in Hmax. lra. }
  replace (eqb peakVal 0) with false
    by (unfold eqb; destruct (Req_dec_T peakVal 0); [lra | reflexivity]).
  match goal with
  | |- context [let '(a, b) := ?E in _] => destruct E as [leftCross rightCross]
  end.
  set (inMain := fun i : nat => nth i _ false).
  cbn [mainLobeArea totalArea].
  assert (Hvals : Forall (fun v => 0 <= v) vals).
  { unfold vals, pts. rewrite Forall_forall in *. intros v Hv.
    apply in_map_iff in Hv. destruct Hv as (q & <- & Hq).
    apply Hnonneg. apply In_sortByAngle. exact Hq. }
  assert (Hangles : StronglySorted Rle angles).
  { unfold angles, pts.
    apply (StronglySorted_map (fun a b => angleDeg a <= angleDeg b));
      [auto | apply sortByAngle_sorted]. }
  assert (Hlen : List.length angles = List.length vals)
    by (unfold angles, vals; rewrite !length_map; reflexivity).
  eexists. eexists. split; [reflexivity|]. split; [reflexivity|]. split.
  - apply trapezoidalIntegrate_nonneg.
    + apply (StronglySorted_map le).
      * intros a b Ha Hb Hab.
        apply filter_In in Hb. destruct Hb as [Hb _]. apply in_seq in Hb.
        apply StronglySorted_nth; [exact Hangles | lia].
      * apply StronglySorted_filter. apply seq_sorted.
    + rewrite Forall_forall. intros v Hv.
      apply in_map_iff in Hv. destruct Hv as (i & <- & _).
      apply nth_nonneg. exact Hvals.
  - apply trapezoidalIntegrate_nonneg; assumption.
Qed.

(** Three points given out of order, with a sidelobe. *)
Lemma computePatternStats_areas_nonneg_witness :
  exists mainArea area : R,
    mainLobeArea
      (computePatternStats
         [mkPoint 10 0.25 (Finite (-6)); mkPoint (-10) 0 NegInfinity;
          mkPoint 0 1 (Finite 0)])
    = Some mainArea
    /\ totalArea
         (computePatternStats
            [mkPoint 10 0.25 (Finite (-6)); mkPoint (-10) 0 NegInfinity;
             mkPoint 0 1 (Finite 0)])
       = Some area
    /\ 0 <= mainArea /\ 0 <= area.
Proof.
  refine (computePatternStats_areas_nonneg
            [mkPoint 10 0.25 (Finite (-6)); mkPoint (-10) 0 NegInfinity;
             mkPoint 0 1 (Finite 0)] _ _).
  - repeat constructor; simpl; lra.
  - apply Exists_cons_hd. simpl. lra.
Defined.

(** * Bounds on what the beamformers return *)

Module MatrixBounds.
Import Js Dynamic SpecSide DynamicProps.

Lemma Rabs_le_bounds (a b : R) : Rabs a <= b -> - b <= a <= b.
Proof.
  intros H. pose proof (Rle_abs a). pose proof (Rle_abs (- a)) as H2.
  rewrite Rabs_Ropp in H2. lra.
Qed.

Lemma forEach_throws {A B : Type} (f : A -> outcome B) (l : list A) (a : A) :
  In a l -> f a = TypeError -> forEach f l = TypeError.
Proof.
  induction l as [|x t IH]; intros Hin Hf; [contradiction|].
  simpl. destruct Hin as [->|Hin].
  - rewrite Hf. reflexivity.
  - destruct (f x); [|reflexivity]. rewrite (IH Hin Hf). reflexivity.
Qed.

Lemma stored_bounded (B : R) (matrix : SampleMatrix) (s e : nat) :
  0 <= B -> boundedBy B matrix -> Rabs (stored matrix s e) <= B.
Proof.
  intros HB Hb. unfold stored.
  destruct (Nat.lt_ge_cases s (List.length matrix)) as [Hs|Hs].
  - assert (Hrow : Forall (fun v => Rabs v <= B) (nth s matrix [])).
    { unfold boundedBy in Hb. rewrite Forall_forall in Hb. apply Hb.
      apply nth_In. exact Hs. }
    destruct (Nat.lt_ge_cases e (List.length (nth s matrix []))) as [He|He].
    + rewrite Forall_forall in Hrow. apply Hrow. apply nth_In. exact He.
    + rewrite nth_overflow by exact He. rewrite Rabs_R0. exact HB.
  - rewrite (nth_overflow matrix) by exact Hs.
    destruct e; simpl; rewrite Rabs_R0; exact HB.
Qed.

(** A sum of [n] terms, each at most [B] in absolute value. *)
Lemma sum_bounded (f : nat -> R) (B : R) (l : list nat) :
  (forall e, In e l -> Rabs (f e) <= B) ->
  Rabs (fold_right Rplus 0 (map f l)) <= INR (List.length l) * B.
Proof.
  induction l as [|e t IH]; intros H.
  - simpl. rewrite Rabs_R0. lra.
  - cbn [map fold_right List.length]. rewrite S_INR.
    pose proof (Rabs_triang (f e) (fold_right Rplus 0 (map f t))) as Ht.
    specialize (IH (fun x Hx => H x (or_intror Hx))).
    specialize (H e (or_introl eq_refl)). lra.
Qed.

(** [sampleRowLinear] on a matrix read inside its shape is a number, and it
    does not overshoot the stored values. *)
Lemma sampleRowLinear_bounded (matrix : SampleMatrix) (samples elements e : nat)
    (idx B : R) :
  hasShape matrix samples elements -> (e < elements)%nat ->
  0 <= B -> boundedBy B matrix ->
  exists r, sampleRowLinear matrix e idx = Num r /\ Rabs r <= B.
Proof.
  intros Hshape He HB Hb.
  assert (Hlen : List.length matrix = samples) by apply Hshape.
  assert (Hread : forall s : Z, (0 <= s < Z.of_nat samples)%Z ->
            read (nth (Z.to_nat s) matrix []) e
            = Num (stored matrix (Z.to_nat s) e)).
  { intros s Hs.
    destruct (hasShape_row matrix samples elements (Z.to_nat s) Hshape)
      as (row & _ & Hrow & Hl); [lia|].
    unfold stored. rewrite Hrow. apply read_in_range. lia. }
  unfold sampleRowLinear. rewrite Hlen.
  set (s0 := Int_part idx).
  destruct (base_Int_part idx) as [Hf1 Hf2]. fold s0 in Hf1, Hf2.
  destruct ((s0 <? 0)%Z || (Z.of_nat samples <=? s0)%Z) eqn:E0.
  - exists 0. rewrite Rabs_R0. auto.
  - apply orb_false_iff in E0. destruct E0 as [E1 E2].
    apply Z.ltb_ge in E1. apply Z.leb_gt in E2.
    rewrite Hread by lia.
    pose proof (stored_bounded B matrix (Z.to_nat s0) e HB Hb) as Hb0.
    destruct (Rle_dec (idx - IZR s0) 1e-12); [eauto|].
    destruct ((s0 + 1 <? 0)%Z || (Z.of_nat samples <=? s0 + 1)%Z) eqn:E3;
      [eauto|].
    apply orb_false_iff in E3. destruct E3 as [E4 E5].
    apply Z.ltb_ge in E4. apply Z.leb_gt in E5.
    rewrite Hread by lia. simpl.
    pose proof (stored_bounded B matrix (Z.to_nat (s0 + 1)) e HB Hb) as Hb1.
    eexists. split; [reflexivity|].
    set (f := idx - IZR s0) in *.
    set (v0 := stored matrix (Z.to_nat s0) e) in *.
    set (v1 := stored matrix (Z.to_nat (s0 + 1)) e) in *.
    assert (Hf : 0 <= f <= 1) by (unfold f; lra).
    apply Rabs_le. 
    pose proof (Rabs_le_bounds v0 B Hb0) as [H0l H0u].
    pose proof (Rabs_le_bounds v1 B Hb1) as [H1l H1u].
    split; nra.
Qed.

End MatrixBounds.

Module BeamformerBounds.
Import Js Dynamic SpecSide DynamicProps MatrixBounds WindowProps WindowRange.

(** A loop that adds, per element, a number of absolute value at most [B]
    ends on a number of absolute value at most [elements * B]. *)
Lemma accumulate_bounded (term : nat -> jsnum) (elements : nat) (B : R) :
  (forall e, (e < elements)%nat -> exists r, term e = Num r /\ Rabs r <= B) ->
  exists r,
    fold_left (fun acc e => jadd acc (term e)) (seq 0 elements) (Num 0) = Num r
    /\ Rabs r <= INR elements * B.
Proof.
  intros Hterm.
  set (val := fun e => match term e with Num r => r | NaN => 0 end).
  assert (Hval : forall e, In e (seq 0 elements) -> term e = Num (val e)).
  { intros e He. apply in_seq in He.
    destruct (Hterm e) as (r & Er & _); [lia|].
    unfold val. rewrite Er. reflexivity. }
  rewrite (accumulate_numbers term val _ 0 Hval).
  eexists. split; [reflexivity|].
  rewrite Rplus_0_l.
  replace (INR elements) with (INR (List.length (seq 0 elements)))
    by (rewrite length_seq; reflexivity).
  apply sum_bounded. intros e He. apply in_seq in He.
  destruct (Hterm e) as (r & Er & Hr); [lia|].
  unfold val. rewrite Er. exact Hr.
Qed.

Lemma numbersWithin_map (g : nat -> jsnum) (samples : nat) (B : R) :
  (forall s, (s < samples)%nat -> exists r, g s = Num r /\ Rabs r <= B) ->
  numbersWithin B samples (map g (seq 0 samples)).
Proof.
  intros H. split.
  - rewrite length_map, length_seq. reflexivity.
  - apply Forall_forall. intros v Hv. apply in_map_iff in Hv.
    destruct Hv as (s & <- & Hs). apply in_seq in Hs. apply H. lia.
Qed.

Lemma read_bounded (matrix : SampleMatrix) (samples elements s e : nat) (B : R) :
  hasShape matrix samples elements -> 0 <= B -> boundedBy B matrix ->
  (s < samples)%nat -> (e < elements)%nat ->
  forall row, nth_error matrix s = Some row ->
  exists r, read row e = Num r /\ Rabs r <= B.
Proof.
  intros Hshape HB Hb Hs He row Hrow.
  destruct (hasShape_row matrix samples elements s Hshape Hs)
    as (row' & Hnth & Hrow' & Hlen).
  rewrite Hrow in Hnth. injection Hnth as <-.
  rewrite read_in_range by lia.
  eexists. split; [reflexivity|].
  rewrite <- Hrow'. apply (stored_bounded B matrix s e HB Hb).
Qed.

Lemma fallback_sum_bounded (matrix : SampleMatrix) (samples elements : nat)
    (B : R) :
  hasShape matrix samples elements -> 0 <= B -> boundedBy B matrix ->
  exists out,
    forEach
      (fun s =>
         match nth_error matrix s with
         | Some row =>
             Returns (fold_left (fun acc e => jadd acc (read row e))
                                (seq 0 elements) (Num 0))
         | None =>
             if (elements =? 0)%nat then Returns (Num 0) else TypeError
         end)
      (seq 0 samples) = Returns out
    /\ numbersWithin (INR elements * B) samples out.
Proof.
  intros Hshape HB Hb.
  set (g := fun s => fold_left (fun acc e => jadd acc (read (nth s matrix []) e))
                               (seq 0 elements) (Num 0)).
  exists (map g (seq 0 samples)). split.
  - apply forEach_returns. intros s Hs. apply in_seq in Hs.
    destruct (hasShape_row matrix samples elements s Hshape)
      as (row & Hnth & Hrow & _); [lia|].
    rewrite Hnth. unfold g. rewrite Hrow. reflexivity.
  - apply numbersWithin_map. intros s Hs. unfold g.
    apply accumulate_bounded. intros e He.
    destruct (hasShape_row matrix samples elements s Hshape Hs)
      as (row & Hnth & Hrow & _).
    rewrite Hrow.
    apply (read_bounded matrix samples elements s e B); assumption.
Qed.

Lemma weight_read (type : string) (elements e : nat) (cheb : R) :
  (e < elements)%nat ->
  exists w, read (Windows.makeWindow type elements cheb) e = Num w
            /\ 0 <= w <= 1.
Proof.
  intros He.
  rewrite read_in_range by (rewrite makeWindow_length; lia).
  eexists. split; [reflexivity|].
  pose proof (makeWindow_in_unit type elements cheb) as Hu.
  rewrite Forall_forall in Hu. apply Hu. apply nth_In.
  rewrite makeWindow_length; lia.
Qed.

Lemma weighted_bounded (w r B : R) :
  0 <= w <= 1 -> Rabs r <= B -> Rabs (w * r) <= B.
Proof.
  intros Hw Hr. rewrite Rabs_mult, (Rabs_right w) by lra.
  pose proof (Rabs_pos r). nra.
Qed.

(** Every matrix has a bound. *)
Lemma matrix_bounded (matrix : SampleMatrix) :
  exists B, 0 <= B /\ boundedBy B matrix.
Proof.
  assert (Hrow : forall row : list R,
            exists B, 0 <= B /\ Forall (fun v => Rabs v <= B) row).
  { induction row as [|v t (B & HB & Ht)].
    - exists 0. split; [lra | constructor].
    - exists (Rmax (Rabs v) B). split.
      + pose proof (Rmax_r (Rabs v) B). lra.
      + constructor; [apply Rmax_l|].
        eapply Forall_impl; [|exact Ht].
        intros a Ha. simpl in Ha. pose proof (Rmax_r (Rabs v) B). lra. }
  unfold boundedBy. induction matrix as [|row t (B & HB & Ht)].
  - exists 0. split; [lra | constructor].
  - destruct (Hrow row) as (B1 & HB1 & H1).
    exists (Rmax B1 B). split.
    + pose proof (Rmax_r B1 B). lra.
    + constructor.
      * eapply Forall_impl; [|exact H1].
        intros a Ha. simpl in Ha. pose proof (Rmax_l B1 B). lra.
      * eapply Forall_impl; [|exact Ht].
        intros r Hr. simpl in Hr. eapply Forall_impl; [|exact Hr].
        intros a Ha. simpl in Ha. pose proof (Rmax_r B1 B). lra.
Qed.

(** The three beamformers on a bounded matrix of the right shape. *)
Lemma beamformer_output_bounded :
  forall (matrix : SampleMatrix) (scanlineIndex : nat)
         (cfg : DynamicBeamformingConfig) (opts : ApodizedOptions.t) (B : R),
    hasShape matrix (samples (scanning cfg)) (Dynamic.elements (array cfg)) ->
    0 <= B -> boundedBy B matrix ->
    forall bf,
      In bf [createSumBeamformer; createDelayAndSumBeamformer;
             createDelayAndSumApodizedBeamformer opts] ->
      exists out,
        bf matrix scanlineIndex cfg = Returns out
        /\ numbersWithin (INR (Dynamic.elements (array cfg)) * B)
                         (samples (scanning cfg)) out.
Proof.
  intros matrix scanlineIndex cfg opts B Hshape HB Hb bf Hbf.
  set (samples := samples (scanning cfg)) in *.
  set (elements := Dynamic.elements (array cfg)) in *.
  simpl in Hbf. destruct Hbf as [<- | [<- | [<- | []]]].
  - unfold createSumBeamformer. fold samples elements.
    apply fallback_sum_bounded; assumption.
  - unfold createDelayAndSumBeamformer. fold samples elements.
    destruct (type (scanning cfg)).
    + apply fallback_sum_bounded; assumption.
    + eexists. split; [reflexivity|].
      apply numbersWithin_map. intros s Hs.
      apply accumulate_bounded. intros e He.
      apply (sampleRowLinear_bounded matrix samples elements); assumption.
  - unfold createDelayAndSumApodizedBeamformer. fold samples elements.
    set (wt := orElse (ApodizedOptions.windowType opts) "hamming"%string).
    set (cheb := orElse (ApodizedOptions.chebyshevSidelobeDb opts) 30).
    destruct (type (scanning cfg)).
    + set (g := fun s =>
             fold_left
               (fun acc e =>
                  jadd acc (jmul (read (nth s matrix []) e)
                                 (read (Windows.makeWindow wt elements cheb) e)))
               (seq 0 elements) (Num 0)).
      exists (map g (seq 0 samples)). split.
      * apply forEach_returns. intros s Hs. apply in_seq in Hs.
        destruct (hasShape_row matrix samples elements s Hshape)
          as (row & Hnth & Hrow & _); [lia|].
        rewrite Hnth. unfold g. rewrite Hrow. reflexivity.
      * apply numbersWithin_map. intros s Hs. unfold g.
        apply accumulate_bounded. intros e He.
        destruct (hasShape_row matrix samples elements s Hshape Hs)
          as (row & Hnth & Hrow & _).
        destruct (read_bounded matrix samples elements s e B Hshape HB Hb
                    Hs He row Hnth) as (r & Er & Hr).
        destruct (weight_read wt elements e cheb He) as (w & Ew & Hw).
        rewrite Hrow, Er, Ew. simpl.
        eexists. split; [reflexivity|].
        rewrite Rmult_comm. apply weighted_bounded; assumption.
    + eexists. split; [reflexivity|].
      apply numbersWithin_map. intros s Hs.
      apply accumulate_bounded. intros e He.
      destruct (sampleRowLinear_bounded matrix samples elements e
                  (INR s + nth e (shifts cfg scanlineIndex) 0) B
                  Hshape He HB Hb) as (r & Er & Hr).
      destruct (weight_read wt elements e cheb He) as (w & Ew & Hw).
      rewrite Er, Ew. simpl.
      eexists. split; [reflexivity|].
      apply weighted_bounded; assumption.
Qed.

End BeamformerBounds.

Import Js Dynamic SpecSide DynamicProps MatrixBounds BeamformerBounds.

(** On a matrix of shape [samples][elements], for a configuration and a
    scan-line index of ordinary size (the time step and the propagation
    speed are not 0, so that no shift is NaN), each of the three
    beamformers, under either scanning type, returns without throwing, and
    returns [samples] entries. *)
Theorem beamformers_return_on_shaped_matrix :
  forall (matrix : SampleMatrix) (scanlineIndex : nat)
         (cfg : DynamicBeamformingConfig) (opts : ApodizedOptions.t),
    hasShape matrix (samples (scanning cfg)) (Dynamic.elements (array cfg)) ->
    ordinaryDynamic cfg -> ordinaryCount scanlineIndex ->
    forall bf,
      In bf [createSumBeamformer; createDelayAndSumBeamformer;
             createDelayAndSumApodizedBeamformer opts] ->
      exists out,
        bf matrix scanlineIndex cfg = Returns out
        /\ List.length out = samples (scanning cfg).
Proof.
  intros matrix scanlineIndex cfg opts Hshape _ _ bf Hbf.
  destruct (matrix_bounded matrix) as (B & HB & Hb).
  destruct (beamformer_output_bounded matrix scanlineIndex cfg opts B
              Hshape HB Hb bf Hbf) as (out & Eout & Hlen & _).
  exists out. split; [exact Eout | exact Hlen].
Qed.

Lemma beamformers_return_witness :
  exists out,
    createDelayAndSumBeamformer [[1; -2]; [0.5; 2]] 0%nat
      (mkDynamicConfig 1 1540 (mkScanning 3 phased (-10, 10) 2) (mkArray 2 1))
    = Returns out
    /\ List.length out = 2%nat.
Proof.
  refine (beamformers_return_on_shaped_matrix
            [[1; -2]; [0.5; 2]] 0%nat
            (mkDynamicConfig 1 1540 (mkScanning 3 phased (-10, 10) 2)
                             (mkArray 2 1))
            ApodizedOptions.empty _ _ _ createDelayAndSumBeamformer _).
  - split; [reflexivity | repeat constructor].
  - unfold ordinaryDynamic, ordinarySize, ordinaryCount.
    cbn [timeStep propagationSpeed array scanning Dynamic.elements
         elementSpacing range fst snd].
    rewrite Rabs_left, Rabs_right by lra. repeat split; try lra; lia.
  - unfold ordinaryCount. lia.
  - right. left. reflexivity.
Defined.

Import Js Dynamic SpecSide DynamicProps MatrixBounds BeamformerBounds.

(** When the matrix has fewer rows than [samples] and the array has at
    least one element, the sum beamformer and the non-phased fallbacks of
    the two delay-and-sum beamformers throw (a read on an undefined row),
    whereas the phased paths, for a configuration and a scan-line index of
    ordinary size (no shift is NaN), return [samples] entries on every
    matrix: their interpolation reads a missing row as 0. *)
Theorem short_matrix_throws_except_when_phased :
  forall (matrix : SampleMatrix) (scanlineIndex : nat)
         (cfg : DynamicBeamformingConfig) (opts : ApodizedOptions.t),
    (List.length matrix < samples (scanning cfg))%nat ->
    (0 < Dynamic.elements (array cfg))%nat ->
    createSumBeamformer matrix scanlineIndex cfg = TypeError
    /\ (type (scanning cfg) = linear ->
        createDelayAndSumBeamformer matrix scanlineIndex cfg = TypeError
        /\ createDelayAndSumApodizedBeamformer opts matrix scanlineIndex cfg
           = TypeError)
    /\ (type (scanning cfg) = phased ->
        ordinaryDynamic cfg -> ordinaryCount scanlineIndex ->
        (exists out,
           createDelayAndSumBeamformer matrix scanlineIndex cfg = Returns out
           /\ List.length out = samples (scanning cfg))
        /\ (exists out,
              createDelayAndSumApodizedBeamformer opts matrix scanlineIndex cfg
              = Returns out
              /\ List.length out = samples (scanning cfg))).
Proof.
  intros matrix scanlineIndex cfg opts Hshort Hel.
  assert (Hin : In (List.length matrix) (seq 0 (samples (scanning cfg))))
    by (apply in_seq; lia).
  assert (Hnone : nth_error matrix (List.length matrix) = None)
    by (apply nth_error_None; lia).
  assert (Hz : (Dynamic.elements (array cfg) =? 0)%nat = false)
    by (apply Nat.eqb_neq; lia).
  split; [|split].
  - unfold createSumBeamformer.
    apply forEach_throws with (a := List.length matrix); [exact Hin|].
    rewrite Hnone, Hz. reflexivity.
  - intros Hlin. split.
    + unfold createDelayAndSumBeamformer. rewrite Hlin.
      apply forEach_throws with (a := List.length matrix); [exact Hin|].
      rewrite Hnone, Hz. reflexivity.
    + unfold createDelayAndSumApodizedBeamformer. rewrite Hlin.
      apply forEach_throws with (a := List.length matrix); [exact Hin|].
      rewrite Hnone, Hz. reflexivity.
  - intros Hph _ _. split.
    + unfold createDelayAndSumBeamformer. rewrite Hph.
      eexists. split; [reflexivity|].
      rewrite length_map, length_seq. reflexivity.
    + unfold createDelayAndSumApodizedBeamformer. rewrite Hph.
      eexists. split; [reflexivity|].
      rewrite length_map, length_seq. reflexivity.
Qed.

Lemma short_matrix_throws_witness :
  createSumBeamformer [[1; 2]] 0%nat
    (mkDynamicConfig 1 1540 (mkScanning 1 linear (0, 0) 2) (mkArray 2 1))
  = TypeError.
Proof.
  refine (proj1 (short_matrix_throws_except_when_phased
                   [[1; 2]] 0%nat
                   (mkDynamicConfig 1 1540 (mkScanning 1 linear (0, 0) 2)
                                    (mkArray 2 1))
                   ApodizedOptions.empty _ _)).
  - simpl. lia.
  - simpl. lia.
Defined.

(** A frame of a single scan line over a range that is symmetric about 0
    is steered to exactly 0 degrees.  There, for a configuration of
    ordinary size, the phased delay-and-sum beamformer applies no shift: on
    a matrix of shape [samples][elements] it returns what the sum beamformer
    returns, and the apodized one returns what its own non-phased fallback
    returns. *)
Theorem delay_and_sum_at_broadside_is_plain_sum :
  forall (matrix : SampleMatrix) (scanlineIndex : nat)
         (cfg : DynamicBeamformingConfig) (opts : ApodizedOptions.t),
    hasShape matrix (samples (scanning cfg)) (Dynamic.elements (array cfg)) ->
    ordinaryDynamic cfg ->
    ordinarySidelobe (orElse (ApodizedOptions.chebyshevSidelobeDb opts) 30) ->
    type (scanning cfg) = phased ->
    (numScanLines (scanning cfg) <= 1)%nat ->
    snd (range (scanning cfg)) = - fst (range (scanning cfg)) ->
    createDelayAndSumBeamformer matrix scanlineIndex cfg
    = createSumBeamformer matrix scanlineIndex cfg
    /\ createDelayAndSumApodizedBeamformer opts matrix scanlineIndex cfg
       = createDelayAndSumApodizedBeamformer opts matrix scanlineIndex
           (asLinear cfg).
Proof.
  intros matrix scanlineIndex cfg opts Hshape _ _ Hph Hone Hsym.
  set (samples := samples (scanning cfg)) in *.
  set (elements := Dynamic.elements (array cfg)) in *.
  set (weights :=
         Windows.makeWindow
           (orElse (ApodizedOptions.windowType opts) "hamming"%string) elements
           (orElse (ApodizedOptions.chebyshevSidelobeDb opts) 30)).
  assert (Hzero : scanlineParam cfg scanlineIndex = 0).
  { unfold scanlineParam.
    destruct (range (scanning cfg)) as [minVal maxVal]. simpl in Hsym.
    apply Nat.leb_le in Hone. rewrite Hone. subst maxVal. lra. }
  assert (Hshift : forall e, nth e (shifts cfg scanlineIndex) 0 = 0).
  { intros e. unfold shifts. rewrite Hzero.
    replace (0 * PI / 180) with 0 by (unfold Rdiv; ring). rewrite sin_0.
    destruct (Nat.lt_ge_cases e (Dynamic.elements (array cfg))) as [He|He].
    - rewrite (ChebyshevProps.nth_map_R _ _ e 0%nat)
        by (rewrite length_seq; exact He).
      unfold Rdiv. ring.
    - apply nth_overflow. rewrite length_map, length_seq. exact He. }
  assert (Hsample : forall s e, (s < samples)%nat -> (e < elements)%nat ->
            sampleRowLinear matrix e (INR s + nth e (shifts cfg scanlineIndex) 0)
            = Num (stored matrix s e)).
  { intros s e Hs He. rewrite Hshift, INR_IZR_INZ.
    assert (Hlen : List.length matrix = samples) by apply Hshape.
    unfold sampleRowLinear.
    rewrite (Int_part_plus_frac (Z.of_nat s) 0) by lra. rewrite Hlen.
    replace ((Z.of_nat s <? 0) || (Z.of_nat samples <=? Z.of_nat s))%Z
      with false
      by (symmetry; apply orb_false_iff; split;
          [apply Z.ltb_ge | apply Z.leb_gt]; lia).
    destruct (Rle_dec (IZR (Z.of_nat s) + 0 - IZR (Z.of_nat s)) 1e-12)
      as [_|Hn]; [|exfalso; apply Hn; lra].
    rewrite Nat2Z.id.
    destruct (hasShape_row matrix samples elements s Hshape Hs)
      as (row & _ & Hrow & Hl).
    unfold stored. rewrite Hrow. apply read_in_range. lia. }
  split.
  - unfold createDelayAndSumBeamformer. rewrite Hph.
    fold samples elements. symmetry.
    unfold createSumBeamformer. fold samples elements.
    apply forEach_returns. intros s Hs. apply in_seq in Hs.
    destruct (hasShape_row matrix samples elements s Hshape)
      as (row & Hnth & Hrow & Hlen); [lia|].
    rewrite Hnth. f_equal.
    rewrite accumulate_numbers with (val := fun e => stored matrix s e)
      by (intros e He; apply in_seq in He; unfold stored; rewrite Hrow;
          apply read_in_range; lia).
    rewrite accumulate_numbers with (val := fun e => stored matrix s e)
      by (intros e He; apply in_seq in He; apply Hsample; lia).
    reflexivity.
  - unfold createDelayAndSumApodizedBeamformer. rewrite Hph.
    cbn [asLinear scanning type array Dynamic.samples].
    fold samples elements weights. symmetry.
    apply forEach_returns. intros s Hs. apply in_seq in Hs.
    destruct (hasShape_row matrix samples elements s Hshape)
      as (row & Hnth & Hrow & Hlen); [lia|].
    rewrite Hnth. f_equal.
    assert (Hw : forall e, (e < elements)%nat ->
                   read weights e = Num (nth e weights 0)).
    { intros e He. apply read_in_range.
      unfold weights. rewrite WindowProps.makeWindow_length; lia. }
    rewrite accumulate_numbers
      with (val := fun e => stored matrix s e * nth e weights 0)
      by (intros e He; apply in_seq in He; unfold stored; rewrite Hrow;
          rewrite read_in_range by lia; rewrite Hw by lia; reflexivity).
    rewrite accumulate_numbers
      with (val := fun e => nth e weights 0 * stored matrix s e)
      by (intros e He; apply in_seq in He; rewrite Hsample by lia;
          rewrite Hw by lia; reflexivity).
    do 3 f_equal. apply map_ext. intros e. ring.
Qed.

Lemma delay_and_sum_at_broadside_witness :
  createDelayAndSumBeamformer [[1; 2]; [3; 4]] 0%nat
    (mkDynamicConfig 1 1540 (mkScanning 1 phased (-10, 10) 2) (mkArray 2 1))
  = createSumBeamformer [[1; 2]; [3; 4]] 0%nat
      (mkDynamicConfig 1 1540 (mkScanning 1 phased (-10, 10) 2) (mkArray 2 1)).
Proof.
  refine (proj1 (delay_and_sum_at_broadside_is_plain_sum
                   [[1; 2]; [3; 4]] 0%nat
                   (mkDynamicConfig 1 1540 (mkScanning 1 phased (-10, 10) 2)
                                    (mkArray 2 1))
                   ApodizedOptions.empty _ _ _ _ _ _)).
  - split; [reflexivity | repeat constructor].
  - unfold ordinaryDynamic, ordinarySize, ordinaryCount.
    cbn [timeStep propagationSpeed array scanning Dynamic.elements
         elementSpacing range fst snd].
    rewrite Rabs_left, Rabs_right by lra. repeat split; try lra; lia.
  - unfold ordinarySidelobe. simpl. lra.
  - reflexivity.
  - simpl. lia.
  - simpl. lra.
Defined.

(** The element positions are centred on the array: for an element count
    of ordinary size, elements [i] and [elements-1-i] lie at opposite
    abscissas. *)
Theorem elementPositionMeters_centred :
  forall (array : ArrayConfig) (i : nat),
    ordinaryCount (Dynamic.elements array) ->
    (i < Dynamic.elements array)%nat ->
    elementPositionMeters (Dynamic.elements array - 1 - i) array
    = - elementPositionMeters i array.
Proof.
  intros array i _ Hi. unfold elementPositionMeters.
  rewrite !minus_INR by lia. simpl INR. field.
Qed.

Lemma elementPositionMeters_centred_witness :
  elementPositionMeters (4 - 1 - 1) (mkArray 4 0.001)
  = - elementPositionMeters 1 (mkArray 4 0.001).
Proof.
  refine (elementPositionMeters_centred (mkArray 4 0.001) 1 _ _).
  - unfold ordinaryCount. simpl. lia.
  - simpl. lia.
Defined.

(** * The point-source generators and the frame runner *)

Module GeneratorProps.
Import Js Dynamic SpecSide DynamicProps MatrixBounds BeamformerBounds.

Lemma cos_scaled_bounded (A phi : R) : Rabs (A * cos phi) <= Rabs A.
Proof.
  rewrite Rabs_mult. pose proof (COS_bound phi) as [Hl Hu].
  assert (Rabs (cos phi) <= 1) by (apply Rabs_le; lra).
  pose proof (Rabs_pos A). nra.
Qed.

(** A matrix built row by row and entry by entry. *)
Lemma built_matrix (f : nat -> nat -> R) (samples elements : nat) (B : R) :
  (forall s e, Rabs (f s e) <= B) ->
  let m := map (fun s => map (fun e => f s e) (seq 0 elements)) (seq 0 samples) in
  hasShape m samples elements /\ boundedBy B m.
Proof.
  intros Hf m. split; [split|].
  - unfold m. rewrite length_map, length_seq. reflexivity.
  - apply Forall_forall. intros row Hrow. unfold m in Hrow.
    apply in_map_iff in Hrow. destruct Hrow as (s & <- & _).
    rewrite length_map, length_seq. reflexivity.
  - apply Forall_forall. intros row Hrow. unfold m in Hrow.
    apply in_map_iff in Hrow. destruct Hrow as (s & <- & _).
    apply Forall_forall. intros v Hv. apply in_map_iff in Hv.
    destruct Hv as (e & <- & _). apply Hf.
Qed.

Lemma forEach_all_return {A B : Type} (f : A -> outcome B) (P : B -> Prop)
    (l : list A) :
  (forall a, In a l -> exists b, f a = Returns b /\ P b) ->
  exists bs, forEach f l = Returns bs
             /\ List.length bs = List.length l /\ Forall P bs.
Proof.
  induction l as [|a t IH]; intros H.
  - exists []. simpl. auto.
  - destruct (H a (or_introl eq_refl)) as (b & Eb & Pb).
    destruct IH as (bs & Ebs & Hlen & Hall);
      [intros x Hx; apply H; right; exact Hx|].
    exists (b :: bs). simpl. rewrite Eb, Ebs. simpl. auto.
Qed.

(** The matrix of either point-source generator. *)
Lemma generator_matrix_bounded :
  forall (config : PointSourceGeneratorConfig) (scanlineIndex : nat)
         (cfg : DynamicBeamformingConfig) (gen : ScanlineGenerator),
    In gen [ReceiveOnly.createPointSourceGenerator config;
            TransmitReceive.createPointSourceGenerator config] ->
    hasShape (gen scanlineIndex cfg)
             (samples (scanning cfg)) (Dynamic.elements (array cfg))
    /\ boundedBy (Rabs (orElse (amplitude config) 1)) (gen scanlineIndex cfg).
Proof.
  intros config scanlineIndex cfg gen Hgen.
  simpl in Hgen. destruct Hgen as [<- | [<- | []]].
  - unfold ReceiveOnly.createPointSourceGenerator.
    apply (built_matrix
             (fun s e => orElse (amplitude config) 1 * cos _)).
    intros s e. apply cos_scaled_bounded.
  - unfold TransmitReceive.createPointSourceGenerator.
    apply (built_matrix
             (fun s e => orElse (amplitude config) 1 * cos _)).
    intros s e. apply cos_scaled_bounded.
Qed.

End GeneratorProps.

Import Js Dynamic SpecSide DynamicProps MatrixBounds BeamformerBounds.
Import GeneratorProps.

(** Both point-source generators return a matrix of shape
    [samples][elements] whose entries never exceed the amplitude (1 when
    not given) in absolute value. *)
Theorem generateScanline_shape_and_amplitude :
  forall (config : PointSourceGeneratorConfig) (scanlineIndex : nat)
         (cfg : DynamicBeamformingConfig) (gen : ScanlineGenerator),
    In gen [ReceiveOnly.createPointSourceGenerator config;
            TransmitReceive.createPointSourceGenerator config] ->
    hasShape (gen scanlineIndex cfg)
             (samples (scanning cfg)) (Dynamic.elements (array cfg))
    /\ boundedBy (Rabs (orElse (amplitude config) 1)) (gen scanlineIndex cfg).
Proof. exact generator_matrix_bounded. Qed.

Lemma generateScanline_shape_witness :
  hasShape
    (ReceiveOnly.createPointSourceGenerator
       (mkPointSource 0 1540 5000000 None None) 3%nat
       (mkDynamicConfig 1e-7 1540 (mkScanning 4 phased (-10, 10) 8)
                        (mkArray 3 0.001)))
    8 3.
Proof.
  refine (proj1 (generateScanline_shape_and_amplitude
                   (mkPointSource 0 1540 5000000 None None) 3%nat
                   (mkDynamicConfig 1e-7 1540 (mkScanning 4 phased (-10, 10) 8)
                                    (mkArray 3 0.001))
                   (ReceiveOnly.createPointSourceGenerator
                      (mkPointSource 0 1540 5000000 None None)) _)).
  left. reflexivity.
Defined.

(** For an odd number of elements the two generators agree on the centre
    element: its receive path is the transmit path, so doubling the one-way
    time of flight is exact there. *)
Theorem generators_agree_on_centre_element :
  forall (config : PointSourceGeneratorConfig) (scanlineIndex : nat)
         (cfg : DynamicBeamformingConfig) (k s : nat),
    Dynamic.elements (array cfg) = (2 * k + 1)%nat ->
    (s < samples (scanning cfg))%nat ->
    exists v,
      nth_error
        (nth s (ReceiveOnly.createPointSourceGenerator config scanlineIndex cfg)
             []) k = Some v
      /\ nth_error
           (nth s (TransmitReceive.createPointSourceGenerator
                     config scanlineIndex cfg) []) k = Some v.
Proof.
  intros config scanlineIndex cfg k s HN Hs.
  unfold ReceiveOnly.createPointSourceGenerator,
         TransmitReceive.createPointSourceGenerator.
  assert (Hrow : forall f : nat -> list R,
            nth s (map f (seq 0 (samples (scanning cfg)))) [] = f s).
  { intros f.
    rewrite (nth_indep _ [] (f 0%nat))
      by (rewrite length_map, length_seq; exact Hs).
    rewrite map_nth, seq_nth by exact Hs. reflexivity. }
  rewrite !Hrow.
  rewrite !ProfileProps.nth_error_map_seq by lia.
  eexists. split; [reflexivity|].
  f_equal. f_equal. f_equal. f_equal. f_equal. f_equal.
  assert (Hx : elementPositionMeters k (array cfg) = 0).
  { unfold elementPositionMeters. rewrite HN, plus_INR, mult_INR.
    simpl INR. field. }
  rewrite Hx.
  match goal with
  | |- ?a / ?c + sqrt ?r / ?c = 2 * (sqrt ?r2 / ?c) =>
      replace r with r2 by ring; replace a with (sqrt r2);
      [unfold Rdiv; ring | f_equal; ring]
  end.
Qed.

Lemma generators_agree_on_centre_witness :
  exists v,
    nth_error
      (nth 2 (ReceiveOnly.createPointSourceGenerator
                (mkPointSource 0 1540 5000000 None None) 0%nat
                (mkDynamicConfig 1e-7 1540 (mkScanning 4 phased (-10, 10) 8)
                                 (mkArray 3 0.001))) []) 1 = Some v
    /\ nth_error
         (nth 2 (TransmitReceive.createPointSourceGenerator
                   (mkPointSource 0 1540 5000000 None None) 0%nat
                   (mkDynamicConfig 1e-7 1540 (mkScanning 4 phased (-10, 10) 8)
                                    (mkArray 3 0.001))) []) 1 = Some v.
Proof.
  refine (generators_agree_on_centre_element
            (mkPointSource 0 1540 5000000 None None) 0%nat
            (mkDynamicConfig 1e-7 1540 (mkScanning 4 phased (-10, 10) 8)
                             (mkArray 3 0.001)) 1 2 _ _).
  - reflexivity.
  - simpl. lia.
Defined.

(** [runFrame] on a point-source generator and any of the three
    beamformers, for a configuration of ordinary size (the time step and
    the propagation speed are not 0), does not throw: it returns
    [numScanLines] scan lines of [samples] entries each, and the scan
    parameter of every line. *)
Theorem runFrame_point_source_frame :
  forall (config : PointSourceGeneratorConfig)
         (cfg : DynamicBeamformingConfig) (opts : ApodizedOptions.t)
         (gen : ScanlineGenerator) (bf : DynamicBeamformer),
    ordinaryDynamic cfg ->
    In gen [ReceiveOnly.createPointSourceGenerator config;
            TransmitReceive.createPointSourceGenerator config] ->
    In bf [createSumBeamformer; createDelayAndSumBeamformer;
           createDelayAndSumApodizedBeamformer opts] ->
    exists frame,
      runFrame cfg gen bf = Returns frame
      /\ List.length (beamformed frame) = numScanLines (scanning cfg)
      /\ Forall (fun line => List.length line = samples (scanning cfg))
                (beamformed frame)
      /\ scanParams frame
         = map (scanlineParam cfg) (seq 0 (numScanLines (scanning cfg))).
Proof.
  intros config cfg opts gen bf _ Hgen Hbf.
  unfold runFrame.
  destruct (forEach_all_return
              (fun i => bf (gen i cfg) i cfg)
              (fun line => List.length line = samples (scanning cfg))
              (seq 0 (numScanLines (scanning cfg))))
    as (out & Eout & Hlen & Hall).
  { intros i _.
    destruct (generator_matrix_bounded config i cfg gen Hgen)
      as [Hshape Hb].
    destruct (beamformer_output_bounded (gen i cfg) i cfg opts
                (Rabs (orElse (amplitude config) 1)) Hshape
                (Rabs_pos _) Hb bf Hbf) as (line & Eline & Hl & _).
    exists line. split; [exact Eline | exact Hl]. }
  rewrite Eout. eexists. split; [reflexivity|].
  cbn [beamformed scanParams]. rewrite length_seq in Hlen. auto.
Qed.

Lemma runFrame_point_source_witness :
  exists frame,
    runFrame
      (mkDynamicConfig 1e-7 1540 (mkScanning 4 phased (-10, 10) 8)
                       (mkArray 3 0.001))
      (TransmitReceive.createPointSourceGenerator
         (mkPointSource 0 1540 5000000 None None))
      createDelayAndSumBeamformer
    = Returns frame
    /\ List.length (beamformed frame) = 4%nat.
Proof.
  destruct (runFrame_point_source_frame
              (mkPointSource 0 1540 5000000 None None)
              (mkDynamicConfig 1e-7 1540 (mkScanning 4 phased (-10, 10) 8)
                               (mkArray 3 0.001))
              ApodizedOptions.empty
              (TransmitReceive.createPointSourceGenerator
                 (mkPointSource 0 1540 5000000 None None))
              createDelayAndSumBeamformer)
    as (frame & Hrun & Hlen & _).
  - unfold ordinaryDynamic, ordinarySize, ordinaryCount.
    cbn [timeStep propagationSpeed array scanning Dynamic.elements
         elementSpacing range fst snd].
    rewrite Rabs_left, Rabs_right by lra. repeat split; try lra; lia.
  - right. left. reflexivity.
  - right. left. reflexivity.
  - exists frame. split; [exact Hrun | exact Hlen].
Defined.

(** With the sum beamformer, or under non-phased scanning with either
    delay-and-sum beamformer, every scan line of a point-source frame is
    the same vector: nothing in the chain depends on the scan-line index. *)
Theorem runFrame_scanlines_identical_without_steering :
  forall (config : PointSourceGeneratorConfig)
         (cfg : DynamicBeamformingConfig) (opts : ApodizedOptions.t)
         (gen : ScanlineGenerator) (bf : DynamicBeamformer),
    In gen [ReceiveOnly.createPointSourceGenerator config;
            TransmitReceive.createPointSourceGenerator config] ->
    bf = createSumBeamformer
    \/ (type (scanning cfg) = linear
        /\ In bf [createDelayAndSumBeamformer;
                  createDelayAndSumApodizedBeamformer opts]) ->
    exists frame line,
      runFrame cfg gen bf = Returns frame
      /\ beamformed frame = repeat line (numScanLines (scanning cfg)).
Proof.
  intros config cfg opts gen bf Hgen Hbf.
  assert (Hconst : forall i, bf (gen i cfg) i cfg = bf (gen 0%nat cfg) 0%nat cfg).
  { intros i.
    assert (Hg : gen i cfg = gen 0%nat cfg).
    { simpl in Hgen. destruct Hgen as [<- | [<- | []]]; reflexivity. }
    rewrite Hg.
    destruct Hbf as [-> | [Hlin Hin]]; [reflexivity|].
    simpl in Hin. destruct Hin as [<- | [<- | []]].
    - unfold createDelayAndSumBeamformer. rewrite Hlin. reflexivity.
    - unfold createDelayAndSumApodizedBeamformer. rewrite Hlin. reflexivity. }
  assert (Hbf3 : In bf [createSumBeamformer; createDelayAndSumBeamformer;
                        createDelayAndSumApodizedBeamformer opts]).
  { destruct Hbf as [-> | [_ Hin]]; [left; reflexivity|].
    right. exact Hin. }
  destruct (generator_matrix_bounded config 0%nat cfg gen Hgen)
    as [Hshape Hb].
  destruct (beamformer_output_bounded (gen 0%nat cfg) 0%nat cfg opts
              (Rabs (orElse (amplitude config) 1)) Hshape
              (Rabs_pos _) Hb bf Hbf3) as (line & Eline & _).
  unfold runFrame.
  rewrite (forEach_returns _ (fun _ => line))
    by (intros i _; rewrite Hconst; exact Eline).
  eexists. exists line. split; [reflexivity|].
  cbn [beamformed].
  generalize (numScanLines (scanning cfg)) as L. intros L.
  generalize 0%nat as a. induction L as [|L IH]; intros a; simpl.
  - reflexivity.
  - f_equal. apply IH.
Qed.

Lemma runFrame_scanlines_identical_witness :
  exists frame line,
    runFrame
      (mkDynamicConfig 1e-7 1540 (mkScanning 4 phased (-10, 10) 8)
                       (mkArray 3 0.001))
      (ReceiveOnly.createPointSourceGenerator
         (mkPointSource 0 1540 5000000 None None))
      createSumBeamformer
    = Returns frame
    /\ beamformed frame = repeat line 4.
Proof.
  refine (runFrame_scanlines_identical_without_steering
            (mkPointSource 0 1540 5000000 None None)
            (mkDynamicConfig 1e-7 1540 (mkScanning 4 phased (-10, 10) 8)
                             (mkArray 3 0.001))
            ApodizedOptions.empty
            (ReceiveOnly.createPointSourceGenerator
               (mkPointSource 0 1540 5000000 None None))
            createSumBeamformer _ _).
  - left. reflexivity.
  - left. reflexivity.
Defined.

(** * Further properties of the CSV parser *)

Module CsvScanProps.
Import Types Csv SpecSide CsvProps.

Local Open Scope string_scope.

(** Joining the parts of a split string gives the string back. *)
Lemma join_split (s : string) : join "," (split "," s) = s.
Proof.
  induction s as [|c r IH]; [reflexivity|].
  simpl. destruct (Ascii.eqb_spec c ",") as [->|Hne].
  - destruct (split "," r) as [|h t] eqn:E.
    + destruct r; simpl in E; [discriminate|].
      destruct (Ascii.eqb a ","); [discriminate|].
      destruct (split "," r); discriminate.
    + change (join "," ("" :: h :: t)) with ("" ++ "," ++ join "," (h :: t)).
      rewrite IH. reflexivity.
  - destruct (split "," r) as [|h t] eqn:E.
    + destruct r; simpl in E; [discriminate|].
      destruct (Ascii.eqb a ","); [discriminate|].
      destruct (split "," r); discriminate.
    + rewrite <- IH. destruct t as [|h' t']; reflexivity.
Qed.

Lemma mapGet_mapSet_other (m : StrMap) (k k' v : string) :
  k' <> k -> mapGet (mapSet m k' v) k = mapGet m k.
Proof.
  intros Hne. unfold mapSet. simpl.
  apply String.eqb_neq in Hne. rewrite Hne. reflexivity.
Qed.

(** Without a data header row the first loop runs to the end and leaves
    [dataStart] unset. *)
Lemma scanHeader_no_header (lines : list string) :
  Forall (fun line => startsWith (trim line) dataHeader = false) lines ->
  forall i map, snd (scanHeader lines i map) = None.
Proof.
  induction lines as [|line t IH]; intros Hall i map; [reflexivity|].
  inversion Hall as [|? ? Hline Ht]; subst.
  cbn [scanHeader]. rewrite Hline.
  destruct (trim line =? ""); [apply IH; exact Ht|].
  destruct (startsWith (trim line) "#"); [apply IH; exact Ht|].
  destruct (2 <=? List.length (split "," (trim line)))%nat;
    apply IH; exact Ht.
Qed.

Lemma header_not_skipped (header : string) :
  startsWith (trim header) dataHeader = true ->
  (trim header =? "") = false /\ startsWith (trim header) "#" = false.
Proof.
  intros Hhdr. unfold startsWith in *.
  unfold dataHeader in Hhdr.
  destruct (prefix_first_char _ _ _ Hhdr) as (r & Er).
  rewrite Er. split; [reflexivity|].
  apply prefix_cons_neq. discriminate.
Qed.

(** The first loop up to the first data header row: lines that do not set
    the key [k] leave its entry as it was, and [dataStart] is the index
    after the header row. *)
Lemma scanHeader_preserves (k : string) (before : list string)
    (header : string) (after : list string) :
  startsWith (trim header) dataHeader = true ->
  Forall (fun line => startsWith (trim line) dataHeader = false) before ->
  Forall (fun line => setsKey k line = false) before ->
  forall (i : nat) (map : StrMap),
    exists map',
      scanHeader (before ++ header :: after)%list i map
      = (map', Some (S (i + List.length before)))
      /\ mapGet map' k = mapGet map k.
Proof.
  intros Hhdr Hnohdr Hbefore.
  destruct (header_not_skipped header Hhdr) as [Hne Hnc].
  induction before as [|line t IH]; intros i map.
  - exists map. split; [|reflexivity].
    cbn [List.app scanHeader List.length]. rewrite Hne, Hnc, Hhdr.
    rewrite Nat.add_0_r. reflexivity.
  - inversion Hnohdr as [|? ? Hl1 Ht1]; subst.
    inversion Hbefore as [|? ? Hl2 Ht2]; subst.
    cbn [List.app scanHeader List.length]. rewrite Hl1.
    replace (S (i + S (List.length t))) with (S (S i + List.length t)) by lia.
    destruct (trim line =? ""); [apply IH; assumption|].
    destruct (startsWith (trim line) "#"); [apply IH; assumption|].
    destruct (2 <=? List.length (split "," (trim line)))%nat eqn:E2;
      [|apply IH; assumption].
    destruct (IH Ht1 Ht2 (S i)
                (mapSet map (hd "" (split "," (trim line)))
                        (join "," (tl (split "," (trim line))))))
      as (map' & Hscan & Hget).
    exists map'. split; [exact Hscan|].
    rewrite Hget. apply mapGet_mapSet_other.
    intros Ek. apply Nat.leb_le in E2.
    pose proof (split_hd_prefix _ E2) as Hp.
    rewrite Ek in Hp. unfold setsKey, startsWith in Hl2.
    rewrite Hp in Hl2. discriminate.
Qed.

End CsvScanProps.

Module CsvParseProps.
Import Types Csv SpecSide CsvProps CsvScanProps.

Local Open Scope string_scope.

Lemma scanHeader_stops (before : list string) (header : string)
    (after : list string) :
  isHeaderRow header = true ->
  forall i map, snd (scanHeader (before ++ header :: after)%list i map) <> None.
Proof.
  intros Hhdr. unfold isHeaderRow in Hhdr.
  destruct (header_not_skipped header Hhdr) as [Hne Hnc].
  induction before as [|line t IH]; intros i map.
  - cbn [List.app scanHeader]. rewrite Hne, Hnc, Hhdr. discriminate.
  - cbn [List.app scanHeader].
    destruct (trim line =? ""); [apply IH|].
    destruct (startsWith (trim line) "#"); [apply IH|].
    destruct (startsWith (trim line) dataHeader); [discriminate|].
    destruct (2 <=? List.length (split "," (trim line)))%nat; apply IH.
Qed.

(** Lines without a data header row are passed over, whatever follows. *)
Lemma scanHeader_prefix (pre : list string) :
  Forall (fun line => isHeaderRow line = false) pre ->
  forall i map, exists map',
    forall rest,
      scanHeader (pre ++ rest)%list i map
      = scanHeader rest (i + List.length pre) map'.
Proof.
  induction pre as [|line t IH]; intros Hall i map.
  - exists map. intros rest. simpl. rewrite Nat.add_0_r. reflexivity.
  - inversion Hall as [|? ? Hl Ht]; subst. unfold isHeaderRow in Hl.
    cbn [List.app scanHeader List.length]. rewrite Hl.
    replace (i + S (List.length t))%nat with (S i + List.length t)%nat by lia.
    destruct (trim line =? ""); [apply IH; exact Ht|].
    destruct (startsWith (trim line) "#"); [apply IH; exact Ht|].
    destruct (2 <=? List.length (split "," (trim line)))%nat;
      apply IH; exact Ht.
Qed.

Lemma scanHeader_sets_trimmed (k v line : string) (rest : list string)
    (i : nat) (map : StrMap) :
  isKey k = true -> trim line = k ++ "," ++ v ->
  scanHeader (line :: rest) i map
  = scanHeader rest (S i) (mapSet map k v).
Proof.
  intros Hkey Htrim.
  destruct k as [|c k]; [discriminate|].
  unfold isKey in Hkey.
  apply andb_true_iff in Hkey. destruct Hkey as [Hkey Hkco].
  apply andb_true_iff in Hkey. destruct Hkey as [Hkey Hksp].
  apply andb_true_iff in Hkey. destruct Hkey as [Hhash Hi].
  apply negb_true_iff in Hhash, Hi.
  apply Ascii.eqb_neq in Hhash, Hi.
  assert (Hsplit : split "," (String c k ++ "," ++ v)
                   = String c k :: split "," v).
  { change ("," ++ v) with (String "," v). apply split_app. exact Hkco. }
  cbn [scanHeader]. rewrite Htrim, Hsplit.
  change (String c k ++ "," ++ v) with (String c (k ++ "," ++ v)).
  unfold startsWith, dataHeader.
  rewrite !prefix_cons_neq by congruence.
  cbn [String.eqb hd tl List.length].
  assert (Hlen : (2 <=? S (List.length (split "," v)))%nat = true).
  { apply Nat.leb_le. destruct v; simpl.
    - lia.
    - destruct (Ascii.eqb a ","); [simpl; lia|].
      destruct (split "," v); simpl; lia. }
  rewrite Hlen, join_split. reflexivity.
Qed.

Lemma skipn_app_exact {A : Type} (l1 l2 : list A) (n : nat) :
  n = List.length l1 -> skipn n (l1 ++ l2)%list = l2.
Proof.
  intros ->. induction l1 as [|x t IH]; simpl; auto.
Qed.

Section Parse.
Context {number : Type} {JN : JsNumber number}.

(** [parseCsvConfig] throws exactly when no line is a data header row. *)
Lemma parse_throws_or_returns (csv : string) :
  (Forall (fun line => isHeaderRow line = false) (splitLines csv) ->
   parseCsvConfig (number := number) csv
   = Throw "CSV missing data header row.")
  /\ (Exists (fun line => isHeaderRow line = true) (splitLines csv) ->
      exists r, parseCsvConfig (number := number) csv = Ok r).
Proof.
  unfold parseCsvConfig. split.
  - intros Hall.
    pose proof (scanHeader_no_header (splitLines csv) Hall 0%nat []) as Hn.
    destruct (scanHeader (splitLines csv) 0 []) as [m o]. simpl in Hn.
    rewrite Hn. reflexivity.
  - intros Hex. apply Exists_exists in Hex. destruct Hex as (h & Hin & Hh).
    apply in_split in Hin. destruct Hin as (before & after & Hlines).
    pose proof (scanHeader_stops before h after Hh 0%nat []) as Hs.
    rewrite Hlines.
    destruct (scanHeader (before ++ h :: after)%list 0 []) as [m [j|]].
    + eexists. reflexivity.
    + simpl in Hs. congruence.
Qed.

(** The map and data start after: lines without header row, a line that
    sets [k] to [v], lines that neither set [k] nor are a header row, and a
    header row. *)
Lemma scanHeader_last_wins (k v line header : string)
    (pre post after : list string) :
  isKey k = true -> trim line = k ++ "," ++ v ->
  Forall (fun l => isHeaderRow l = false) pre ->
  Forall (fun l => isHeaderRow l = false) post ->
  Forall (fun l => setsKey k l = false) post ->
  isHeaderRow header = true ->
  exists map',
    scanHeader (pre ++ line :: post ++ header :: after)%list 0 []
    = (map', Some (S (List.length pre + S (List.length post))))
    /\ mapGet map' k = Some v.
Proof.
  intros Hkey Htrim Hpre Hpost Hpostk Hhdr.
  destruct (scanHeader_prefix pre Hpre 0%nat []) as (m1 & Hm1).
  rewrite Hm1. rewrite (scanHeader_sets_trimmed k v line _ _ _ Hkey Htrim).
  destruct (scanHeader_preserves k post header after Hhdr Hpost Hpostk
              (S (0 + List.length pre)) (mapSet m1 k v)) as (map' & Hscan & Hget).
  exists map'. split.
  - rewrite Hscan. f_equal. f_equal. lia.
  - rewrite Hget. unfold mapSet. simpl. rewrite String.eqb_refl. reflexivity.
Qed.

End Parse.

End CsvParseProps.

Module CsvTextProps.
Import Types Csv SpecSide CsvProps CsvScanProps CsvParseProps.
Local Open Scope string_scope.

Lemma existsb_isHeaderRow_false (lines : list string) :
  existsb isHeaderRow lines = false ->
  Forall (fun line => isHeaderRow line = false) lines.
Proof.
  induction lines as [|l t IH]; simpl; intros H; constructor.
  - apply orb_false_iff in H. tauto.
  - apply IH. apply orb_false_iff in H. tauto.
Qed.

Lemma existsb_isHeaderRow_true (lines : list string) :
  existsb isHeaderRow lines = true ->
  Exists (fun line => isHeaderRow line = true) lines.
Proof.
  intros H. apply existsb_exists in H. apply Exists_exists. exact H.
Qed.

Lemma no_configKey (k line : string) :
  In k configKeys ->
  forallb (fun k => negb (setsKey k line)) configKeys = true ->
  setsKey k line = false.
Proof.
  intros Hin Hall. rewrite forallb_forall in Hall.
  apply negb_true_iff. apply Hall. exact Hin.
Qed.

Lemma no_configKeys (k : string) (before : list string) :
  In k configKeys ->
  Forall (fun l => forallb (fun k => negb (setsKey k l)) configKeys = true)
         before ->
  Forall (fun l => setsKey k l = false) before.
Proof.
  intros Hin Hall. induction Hall; constructor; auto.
  apply no_configKey; assumption.
Qed.

Section Lines.
Context {number : Type} {JN : JsNumber number}.
Hypothesis toString_isCell : forall x : number, isCell (toString x) = true.

(** The lines of the text that [toCsv] writes. *)
Lemma splitLines_toCsv (p : BeamformFullProfile number number) :
  noSpace (spacingUnit (config p)) = true ->
  noSpace (windowType (config p)) = true ->
  splitLines (toCsv p)
  = (toCsvHeaderLines (config p)
     ++ match weights (snapshot p) with
        | [] => [""]
        | _ =>
            map (fun iw => toCsvRow (delays (snapshot p)) (fst iw) (snd iw))
                (combine (seq 0 (List.length (weights (snapshot p))))
                         (weights (snapshot p)))
        end
     ++ [""])%list.
Proof.
  intros Hu Hw. unfold toCsv.
  set (rows := map _ (combine _ (weights (snapshot p)))).
  change (join (String LF "") (toCsvHeaderLines (config p)) ++
          String LF "" ++ join (String LF "") rows ++ String LF "")
    with (join (String LF "") (toCsvHeaderLines (config p)) ++
          String LF (join (String LF "") rows ++ String LF "")).
  rewrite splitLines_join;
    [| unfold toCsvHeaderLines; discriminate
     | apply toCsvHeaderLines_noBreak; assumption].
  rewrite splitLines_rows by (apply toCsv_rows_noBreak; assumption).
  f_equal. f_equal. unfold rows.
  destruct (weights (snapshot p)); reflexivity.
Qed.

End Lines.

End CsvTextProps.

Import Types Csv SpecSide CsvProps CsvScanProps CsvParseProps CsvTextProps.
Local Open Scope string_scope.

(** [parseCsvConfig] throws "CSV missing data header row." exactly when no
    line of the text, trimmed, starts with the data header row; in every
    other case it returns. *)
Theorem parseCsvConfig_throws_exactly_without_header_row :
  forall (number : Type) (JN : JsNumber number) (csv : string),
    if existsb isHeaderRow (splitLines csv)
    then exists r : Parsed, parseCsvConfig csv = Ok r
    else parseCsvConfig (number := number) csv
         = Throw "CSV missing data header row.".
Proof.
  intros number JN csv.
  destruct (existsb isHeaderRow (splitLines csv)) eqn:E.
  - apply parse_throws_or_returns. apply existsb_isHeaderRow_true. exact E.
  - apply parse_throws_or_returns. apply existsb_isHeaderRow_false. exact E.
Qed.

(** Of several lines that set "elements" before the first data header row,
    the last one counts: [config.elements] is [Number] of the text after its
    first comma, the weights are read from the lines after the header row
    only, and [customWeights] is set exactly when their count is that
    number. *)
Theorem parseCsvConfig_last_elements_line_wins :
  forall (number : Type) (JN : JsNumber number) (csv : string)
         (pre : list string) (line : string) (post : list string)
         (header : string) (after : list string) (v : string),
    splitLines csv = (pre ++ line :: post ++ header :: after)%list ->
    trim line = "elements," ++ v ->
    Forall (fun l => isHeaderRow l = false) pre ->
    Forall (fun l => isHeaderRow l = false) post ->
    Forall (fun l => setsKey "elements" l = false) post ->
    isHeaderRow header = true ->
    exists r : Parsed,
      parseCsvConfig csv = Ok r
      /\ Types.elements (parsedConfig r) = Number v
      /\ parsedWeights r = scanRows after
      /\ customWeights (parsedConfig r)
         = (if strictEq (ofNat (List.length (scanRows after))) (Number v)
            then Some (scanRows after) else None).
Proof.
  intros number JN csv pre line post header after v
         Hlines Htrim Hpre Hpost Hpostk Hhdr.
  destruct (scanHeader_last_wins "elements" v line header pre post after
              eq_refl Htrim Hpre Hpost Hpostk Hhdr) as (map' & Hscan & Hget).
  assert (Hskip :
    skipn (S (List.length pre + S (List.length post)))
          (pre ++ line :: post ++ header :: after)%list = after).
  { change (pre ++ line :: post ++ header :: after)%list
      with (pre ++ (line :: post ++ header :: after))%list.
    replace (pre ++ line :: post ++ header :: after)%list
      with ((pre ++ line :: post ++ [header]) ++ after)%list
      by (rewrite <- !app_assoc; simpl; rewrite <- !app_assoc; reflexivity).
    apply skipn_app_exact. rewrite !length_app. simpl.
    rewrite !length_app. simpl. lia. }
  unfold parseCsvConfig. rewrite Hlines, Hscan, Hskip.
  eexists. split; [reflexivity|].
  cbn [parsedConfig parsedWeights Types.elements customWeights].
  rewrite Hget. cbn [numberOr]. repeat split.
Qed.

(** Two "elements" lines, a comment between them, and two data rows. *)
Lemma parseCsvConfig_last_elements_line_witness :
  exists r : Parsed,
    parseCsvConfig
      (number := N)
      ("elements,7" ++ String LF ("  elements,2 " ++ String LF ("# note"
       ++ String LF ("index,weight,phaseRadians,timeDelaySeconds"
       ++ String LF ("0,5,0,0" ++ String LF "1,6,0,0")))))
    = Ok r
    /\ Types.elements (parsedConfig r) = 2%N
    /\ parsedWeights r = [5%N; 6%N]
    /\ customWeights (parsedConfig r) = Some [5%N; 6%N].
Proof.
  refine (parseCsvConfig_last_elements_line_wins
            N decimalNumber
            ("elements,7" ++ String LF ("  elements,2 " ++ String LF ("# note"
             ++ String LF ("index,weight,phaseRadians,timeDelaySeconds"
             ++ String LF ("0,5,0,0" ++ String LF "1,6,0,0")))))
            ["elements,7"] "  elements,2 " ["# note"]
            "index,weight,phaseRadians,timeDelaySeconds"
            ["0,5,0,0"; "1,6,0,0"] "2" _ _ _ _ _ _);
    first [reflexivity | repeat constructor].
Defined.

(** [windowType] is the text after the first comma of the last
    "windowType" line before the header row, commas included, whether or not
    it names a window. *)
Theorem parseCsvConfig_windowType_is_verbatim :
  forall (number : Type) (JN : JsNumber number) (csv : string)
         (pre : list string) (line : string) (post : list string)
         (header : string) (after : list string) (v : string),
    splitLines csv = (pre ++ line :: post ++ header :: after)%list ->
    trim line = "windowType," ++ v ->
    Forall (fun l => isHeaderRow l = false) pre ->
    Forall (fun l => isHeaderRow l = false) post ->
    Forall (fun l => setsKey "windowType" l = false) post ->
    isHeaderRow header = true ->
    exists r : Parsed,
      parseCsvConfig csv = Ok r
      /\ windowType (parsedConfig r) = v.
Proof.
  intros number JN csv pre line post header after v
         Hlines Htrim Hpre Hpost Hpostk Hhdr.
  destruct (scanHeader_last_wins "windowType" v line header pre post after
              eq_refl Htrim Hpre Hpost Hpostk Hhdr) as (map' & Hscan & Hget).
  unfold parseCsvConfig. rewrite Hlines, Hscan.
  eexists. split; [reflexivity|].
  cbn [parsedConfig windowType]. rewrite Hget. reflexivity.
Qed.

(** A window type with a comma in it, which is no [WindowType]. *)
Lemma parseCsvConfig_windowType_witness :
  exists r : Parsed,
    parseCsvConfig
      (number := N)
      ("windowType,kaiser,3" ++ String LF
         "index,weight,phaseRadians,timeDelaySeconds")
    = Ok r
    /\ windowType (parsedConfig r) = "kaiser,3".
Proof.
  refine (parseCsvConfig_windowType_is_verbatim
            N decimalNumber
            ("windowType,kaiser,3" ++ String LF
               "index,weight,phaseRadians,timeDelaySeconds")
            [] "windowType,kaiser,3" []
            "index,weight,phaseRadians,timeDelaySeconds" [] "kaiser,3"
            _ _ _ _ _ _);
    first [reflexivity | constructor].
Defined.

(** When no line before the first data header row sets one of the keys
    that [parseCsvConfig] reads, the configuration is the defaults: 0
    elements, spacing 0 in wavelengths, 1 Hz, 1540 m/s, steering 0, a
    rectangular window, no focus depth and no sidelobe level; the weights
    are read from the lines after the header row. *)
Theorem parseCsvConfig_defaults :
  forall (number : Type) (JN : JsNumber number) (csv : string)
         (before : list string) (header : string) (after : list string),
    splitLines csv = (before ++ header :: after)%list ->
    isHeaderRow header = true ->
    Forall (fun l => isHeaderRow l = false) before ->
    Forall (fun l => forallb (fun k => negb (setsKey k l)) configKeys = true)
           before ->
    parseCsvConfig csv
    = Ok (mkParsed
            (mkProfileConfig (ofNat 0) (ofNat 0) "wavelength" (ofNat 1)
               (ofNat 1540) (ofNat 0) "rectangular" None None
               (if strictEq (ofNat (List.length (scanRows after))) (ofNat 0)
                then Some (scanRows after) else None))
            (scanRows (number := number) after)).
Proof.
  intros number JN csv before header after Hlines Hhdr Hbefore Hkeys.
  unfold parseCsvConfig. rewrite Hlines.
  destruct (scanHeader (before ++ header :: after)%list 0 [])
    as [m o] eqn:Hscan.
  assert (Hget : forall k, In k configKeys ->
                   o = Some (S (List.length before)) /\ mapGet m k = None).
  { intros k Hk.
    destruct (scanHeader_preserves k before header after Hhdr Hbefore
                (no_configKeys k before Hk Hkeys) 0%nat [])
      as (map' & E & G).
    rewrite Hscan in E. injection E as -> ->. split; [reflexivity|exact G]. }
  destruct (Hget "elements") as [-> He]; [simpl; tauto|].
  destruct (Hget "spacing") as [_ Hs]; [simpl; tauto|].
  destruct (Hget "spacingUnit") as [_ Hsu]; [simpl; tauto|].
  destruct (Hget "frequencyHz") as [_ Hf]; [simpl; tauto|].
  destruct (Hget "waveSpeed") as [_ Hws]; [simpl; tauto|].
  destruct (Hget "steerAngleDeg") as [_ Hst]; [simpl; tauto|].
  destruct (Hget "windowType") as [_ Hwt]; [simpl; tauto|].
  destruct (Hget "focusDepth") as [_ Hfd]; [simpl; tauto|].
  destruct (Hget "chebyshevSidelobeDb") as [_ Hcs]; [simpl; tauto|].
  rewrite He, Hs, Hsu, Hf, Hws, Hst, Hwt, Hfd, Hcs.
  replace (before ++ header :: after)%list
    with ((before ++ [header]) ++ after)%list
    by (rewrite <- app_assoc; reflexivity).
  rewrite skipn_app_exact by (rewrite length_app; simpl; lia).
  reflexivity.
Qed.

(** A comment, an unknown key, the header row and one data row. *)
Lemma parseCsvConfig_defaults_witness :
  parseCsvConfig
    (number := N)
    ("# exported" ++ String LF ("gain,4" ++ String LF
       ("index,weight,phaseRadians,timeDelaySeconds" ++ String LF "0,9,0,0")))
  = Ok (mkParsed
          (mkProfileConfig 0%N 0%N "wavelength" 1%N 1540%N 0%N "rectangular"
             None None None)
          [9%N]).
Proof.
  refine (parseCsvConfig_defaults
            N decimalNumber
            ("# exported" ++ String LF ("gain,4" ++ String LF
               ("index,weight,phaseRadians,timeDelaySeconds"
                ++ String LF "0,9,0,0")))
            ["# exported"; "gain,4"]
            "index,weight,phaseRadians,timeDelaySeconds" ["0,9,0,0"]
            _ _ _ _);
    first [reflexivity | repeat constructor].
Defined.

(** After a round trip through [toCsv], [customWeights] never comes from
    the written configuration: it is the snapshot's weights, at their written
    precision, when their count equals the written [elements], and undefined
    otherwise, whatever [config.customWeights] held. *)
Theorem parseCsvConfig_toCsv_customWeights :
  forall (number : Type) (JN : JsNumber number),
    (forall x : number, isCell (toString x) = true) ->
    forall p : BeamformFullProfile number number,
      isSpacingUnit (spacingUnit (config p)) ->
      isWindowType (windowType (config p)) ->
      exists r : Parsed,
        parseCsvConfig (toCsv p) = Ok r
        /\ customWeights (parsedConfig r)
           = (if strictEq (ofNat (List.length (weights (snapshot p))))
                          (reread (Types.elements (config p)))
              then Some (map reread (weights (snapshot p)))
              else None).
Proof.
  intros number JN Hcell p Hunit Hwin.
  assert (Hu : noSpace (spacingUnit (config p)) = true
               /\ noComma (spacingUnit (config p)) = true).
  { unfold isSpacingUnit in Hunit. simpl in Hunit.
    destruct Hunit as [<- | [<- | []]]; split; reflexivity. }
  assert (Hw : noSpace (windowType (config p)) = true
               /\ noComma (windowType (config p)) = true).
  { unfold isWindowType in Hwin. simpl in Hwin.
    destruct Hwin as [<- | [<- | [<- | [<- | [<- | []]]]]]; split; reflexivity. }
  eexists. split.
  - apply (parseCsvConfig_toCsv Hcell p); tauto.
  - cbn [parsedConfig customWeights]. rewrite length_map. reflexivity.
Qed.

(** Custom weights of three entries written with a snapshot of two weights
    and [elements] 3: nothing of them comes back. *)
Lemma parseCsvConfig_toCsv_customWeights_witness :
  exists r : Parsed,
    parseCsvConfig
      (toCsv (mkFullProfile
                (mkProfileConfig 3%N 5%N "wavelength" 5000000%N 1540%N 0%N
                                 "custom" None None (Some [4%N; 5%N; 6%N]))
                (mkSnapshot [1%N; 2%N] (mkDelays [3%N; 4%N] [7%N; 9%N]))
                []))
    = Ok r
    /\ customWeights (parsedConfig r) = None.
Proof.
  exact (parseCsvConfig_toCsv_customWeights N decimalNumber decimalNumber_isCell
           (mkFullProfile
              (mkProfileConfig 3%N 5%N "wavelength" 5000000%N 1540%N 0%N
                               "custom" None None (Some [4%N; 5%N; 6%N]))
              (mkSnapshot [1%N; 2%N] (mkDelays [3%N; 4%N] [7%N; 9%N]))
              [])
           (or_introl eq_refl)
           (or_intror (or_intror (or_intror (or_intror (or_introl eq_refl)))))).
Defined.

(** The text that [toCsv] writes has the twelve header lines and the data
    header row, then one line per weight of the snapshot (one empty line
    when there is none), and ends with a line break. *)
Theorem toCsv_lines :
  forall (number : Type) (JN : JsNumber number),
    (forall x : number, isCell (toString x) = true) ->
    forall p : BeamformFullProfile number number,
      isSpacingUnit (spacingUnit (config p)) ->
      isWindowType (windowType (config p)) ->
      splitLines (toCsv p)
      = (toCsvHeaderLines (config p)
         ++ match weights (snapshot p) with
            | [] => [""]
            | _ =>
                map (fun iw => toCsvRow (delays (snapshot p)) (fst iw) (snd iw))
                    (combine (seq 0 (List.length (weights (snapshot p))))
                             (weights (snapshot p)))
            end
         ++ [""])%list.
Proof.
  intros number JN Hcell p Hunit Hwin.
  apply (splitLines_toCsv Hcell).
  - unfold isSpacingUnit in Hunit. simpl in Hunit.
    destruct Hunit as [<- | [<- | []]]; reflexivity.
  - unfold isWindowType in Hwin. simpl in Hwin.
    destruct Hwin as [<- | [<- | [<- | [<- | [<- | []]]]]]; reflexivity.
Qed.

(** A profile of two weights whose delay arrays are too short: the second
    row prints "undefined" twice. *)
Lemma toCsv_lines_witness :
  nth 14
    (splitLines
       (toCsv (mkFullProfile
                 (mkProfileConfig 2%N 5%N "meters" 5000000%N 1540%N 0%N
                                  "hamming" None None None)
                 (mkSnapshot [1%N; 2%N] (mkDelays [3%N] [7%N]))
                 [])))
    "none"
  = "1,2,undefined,undefined".
Proof.
  rewrite (toCsv_lines N decimalNumber decimalNumber_isCell
             (mkFullProfile
                (mkProfileConfig 2%N 5%N "meters" 5000000%N 1540%N 0%N
                                 "hamming" None None None)
                (mkSnapshot [1%N; 2%N] (mkDelays [3%N] [7%N]))
                [])
             (or_intror (or_introl eq_refl))
             (or_intror (or_introl eq_refl))).
  reflexivity.
Defined.
